(** * The ensemble network model [NN] of dmbrl/modeling/models/NN.py

    A shallow embedding of the class [NN]: the model object is a record,
    its methods are functions that take the object and return the outcome
    of the call together with the object as the call leaves it.  Python
    exceptions are an explicit outcome; the TensorFlow session is a store
    of variable values; a graph tensor is a function of the fed value and
    the store; the draws of [np.random] are threaded through a generator
    state. *)

From Stdlib Require Import ZArith QArith Qround Lia Permutation.
From stdpp Require Import gmap strings list fin_maps pretty.

Local Open Scope string_scope.
Local Open Scope nat_scope.
Local Open Scope list_scope.

(** ** Outcomes of a Python call *)

Inductive exn : Type :=
  | RuntimeError
  | ValueError
  | AttributeError
  | TypeError
  | KeyError
  | IndexError
  | IOError
  | ZeroDivisionError
  | FailedPreconditionError.

Inductive outcome (A : Type) : Type :=
  | Return (a : A)
  | Raise (e : exn).

Arguments Return {A} a.
Arguments Raise {A} e.

Definition is_Return {A} (o : outcome A) : bool :=
  match o with Return _ => true | Raise _ => false end.

Definition bind {A B} (c : outcome A) (k : A → outcome B) : outcome B :=
  match c with
  | Return a => k a
  | Raise e => Raise e
  end.

Notation "'do' x <- c ; k" := (bind c (fun x => k))
  (at level 10, x name, c at level 100, k at level 200).

(** Iterating a fallible step over a list, left to right, stopping at the
    first exception: a Python [for] loop whose body may raise. *)
Fixpoint for_each {A S} (body : S → A → outcome S) (xs : list A) (s : S) : outcome S :=
  match xs with
  | [] => Return s
  | x :: xs' => do s' <- body s x; for_each body xs' s'
  end.

Fixpoint map_outcome {A B} (f : A → outcome B) (xs : list A) : outcome (list B) :=
  match xs with
  | [] => Return []
  | x :: xs' => do y <- f x; do ys <- map_outcome f xs'; Return (y :: ys)
  end.

(** ** Python integers, slices and indexing *)

(** [int(x)] of a rational: truncation toward zero. *)
Definition py_int (x : Q) : Z := Z.quot (Qnum x) (Z.pos (Qden x)).

(** [ceil(x)] of a rational. *)
Definition py_ceil (x : Q) : Z := (- ((- Qnum x) / Z.pos (Qden x)))%Z.

(** A slice bound of a sequence of length [n]: a negative bound counts
    from the end, and the result is clamped to [0..n]. *)
Definition slice_bound (n : nat) (k : Z) : nat :=
  if (k <? 0)%Z then Z.to_nat (Z.of_nat n + k) else Nat.min (Z.to_nat k) n.

(** [xs[:k]] *)
Definition slice_to {A} (k : Z) (xs : list A) : list A :=
  take (slice_bound (length xs) k) xs.

(** [xs[k:]] *)
Definition slice_from {A} (k : Z) (xs : list A) : list A :=
  drop (slice_bound (length xs) k) xs.

(** [xs[a:b]] *)
Definition slice {A} (a b : Z) (xs : list A) : list A :=
  let lo := slice_bound (length xs) a in
  let hi := slice_bound (length xs) b in
  take (hi - lo) (drop lo xs).

(** [range(k)]: empty for a negative [k]. *)
Definition py_range (k : Z) : list nat := seq 0 (Z.to_nat k).

(** [arr[idxs]] for an array of rows and a vector of row indices: numpy
    raises [IndexError] on an index out of bounds. *)
Definition take_rows {A} (arr : list A) (idxs : list nat) : outcome (list A) :=
  map_outcome (fun i => match arr !! i with
                        | Some r => Return r
                        | None => Raise IndexError
                        end) idxs.

(** [arr[idxs]] for a matrix of row indices. *)
Definition take_rows2 {A} (arr : list A) (idxs : list (list nat)) : outcome (list (list A)) :=
  map_outcome (take_rows arr) idxs.

(** [os.path.join(dir, file)] for a relative [file]. *)
Definition path_join (dir file : string) : string :=
  if String.eqb dir "" then file
  else if String.eqb (String.substring (String.length dir - 1) 1 dir) "/" then dir +:+ file
  else dir +:+ "/" +:+ file.

(** ** Arithmetic of tensor entries

    The entries are 32-bit floats in the program.  The model is generic in
    the arithmetic: an instance gives the operations, and no law about
    them is assumed anywhere, so that what is proved holds of any
    deterministic arithmetic, rounding or not. *)

Class Arith (R : Type) : Type := {
  rzero : R;
  radd : R → R → R;
  rsub : R → R → R;
  rmul : R → R → R;
  rdiv : R → R → R;
  rofnat : nat → R;
  (** mean and floored standard deviation of one column of data *)
  column_stats : list R → R * R
}.

Abbreviation vec R := (list R) (only parsing).
Abbreviation mat R := (list (list R)) (only parsing).
Abbreviation ten3 R := (list (list (list R))) (only parsing).

(** A value held by a variable or produced by a tensor, tagged with its
    rank. *)
Inductive tval (R : Type) : Type :=
  | T0 (x : R)
  | T1 (v : vec R)
  | T2 (m : mat R)
  | T3 (t : ten3 R).

Arguments T0 {R} x.
Arguments T1 {R} v.
Arguments T2 {R} m.
Arguments T3 {R} t.

Section Tensors.
Context {R : Type} {AR : Arith R}.

Definition vsum (v : vec R) : R := fold_left radd v rzero.

(** [tf.reduce_mean] of a vector: the sum over the count. *)
Definition vmean (v : vec R) : R := rdiv (vsum v) (rofnat (length v)).

Definition vadd (a b : vec R) : vec R := zip_with radd a b.
Definition vsub (a b : vec R) : vec R := zip_with rsub a b.
Definition vdiv (a b : vec R) : vec R := zip_with rdiv a b.
Definition madd (a b : mat R) : mat R := zip_with vadd a b.

Definition vsquare (a : vec R) : vec R := map (fun x => rmul x x) a.

(** A row vector times a matrix with [out] columns: the sum over [i] of
    [x_i] times the [i]-th row of the matrix. *)
Definition vecmat (out : nat) (x : vec R) (W : mat R) : vec R :=
  fold_left (fun acc xw => vadd acc (map (rmul xw.1) xw.2)) (zip x W)
            (replicate out rzero).

Definition matmul (out : nat) (X W : mat R) : mat R :=
  map (fun x => vecmat out x W) X.

(** [tf.reduce_sum(t, axis=0)] and [tf.reduce_mean(t, axis=0)] of a rank-3
    tensor: the members are added entry by entry, and the mean divides
    each entry of the sum by the number of members. *)
Definition reduce_sum0 (t : ten3 R) : mat R :=
  match t with
  | [] => []
  | m0 :: ms => fold_left madd ms m0
  end.

Definition reduce_mean0 (t : ten3 R) : mat R :=
  map (map (fun s => rdiv s (rofnat (length t)))) (reduce_sum0 t).

(** [t - m] for a rank-3 [t] and a rank-2 [m]: [m] is broadcast over the
    leading axis. *)
Definition sub_bcast (t : ten3 R) (m : mat R) : ten3 R :=
  map (fun tm => zip_with vsub tm m) t.

Definition sub3 (a b : ten3 R) : ten3 R := zip_with (zip_with vsub) a b.

Definition square3 (t : ten3 R) : ten3 R := map (map vsquare) t.

(** [tf.reduce_mean(t, axis=-1)] at rank 3 and at rank 2. *)
Definition reduce_mean_last3 (t : ten3 R) : mat R := map (map vmean) t.
Definition reduce_mean_last2 (m : mat R) : vec R := map vmean m.

(** Shapes. *)
Definition has_shape1 (n : nat) (v : vec R) : bool := length v =? n.
Definition has_shape2 (n k : nat) (m : mat R) : bool :=
  (length m =? n) && forallb (has_shape1 k) m.
Definition has_shape3 (a n k : nat) (t : ten3 R) : bool :=
  (length t =? a) && forallb (has_shape2 n k) t.

Definition has_shape (sh : list nat) (v : tval R) : bool :=
  match sh, v with
  | [], T0 _ => true
  | [n], T1 x => has_shape1 n x
  | [n; k], T2 x => has_shape2 n k x
  | [a; n; k], T3 x => has_shape3 a n k x
  | _, _ => false
  end.

(** The shape of a placeholder: [None] is a dimension left open. *)
Definition dim_ok (d : option nat) (n : nat) : bool :=
  match d with
  | None => true
  | Some k => n =? k
  end.

Definition feed_ok (sh : list (option nat)) (v : tval R) : bool :=
  match sh, v with
  | [d0; d1], T2 x =>
      dim_ok d0 (length x) && forallb (fun r => dim_ok d1 (length r)) x
  | [d0; d1; d2], T3 x =>
      dim_ok d0 (length x) &&
      forallb (fun m => dim_ok d1 (length m) &&
                        forallb (fun r => dim_ok d2 (length r)) m) x
  | _, _ => false
  end.

(** ** The session: the variables of the graph and their values

    A variable is declared in the graph under a name, with a shape and
    an initial value; it holds a value in the session once an
    initializer has run. *)
Record Session : Type := {
  declared : gmap string (list nat * tval R);
  store : gmap string (tval R)
}.

Definition empty_session : Session := {| declared := ∅; store := ∅ |}.

(** [tf.get_variable(name, shape, initializer)]: a name already in use
    is refused. *)
Definition get_variable (name : string) (sh : list nat) (init : tval R)
    (s : Session) : outcome Session :=
  match declared s !! name with
  | Some _ => Raise ValueError
  | None => Return {| declared := <[name := (sh, init)]> (declared s);
                      store := store s |}
  end.

(** [sess.run(tf.variables_initializer(names))] *)
Definition variables_initializer (names : list string) (s : Session)
    : outcome Session :=
  for_each (fun s' name =>
              match declared s' !! name with
              | Some (_, init) =>
                  Return {| declared := declared s';
                            store := <[name := init]> (store s') |}
              | None => Raise KeyError
              end) names s.

(** Reading a variable through its handle; [None] is a handle that was
    never created. *)
Definition read (h : option string) (s : Session) : outcome (tval R) :=
  match h with
  | None => Raise AttributeError
  | Some name =>
      match store s !! name with
      | Some v => Return v
      | None => Raise FailedPreconditionError
      end
  end.

(** [sess.run(tf.assign(graph.get_tensor_by_name(name + ":0"), v))] and
    [var.load(v)]: the name must be in the graph and the value must
    have the variable's shape. *)
Definition assign (name : string) (v : tval R) (s : Session) : outcome Session :=
  match declared s !! name with
  | None => Raise KeyError
  | Some (sh, _) =>
      if has_shape sh v
      then Return {| declared := declared s; store := <[name := v]> (store s) |}
      else Raise ValueError
  end.

(** ** Layers

    Modelled from the spec: the layer class [FC] of dmbrl/modeling/layers
    is not among the sources.  A layer is a template (dimensions,
    ensemble size, activation, weight decay) until [construct_vars] gives
    it a weight tensor of shape [ensemble_size, input_dim, output_dim]
    and a bias tensor of shape [ensemble_size, 1, output_dim]. *)
Record Layer : Type := {
  input_dim : option nat;
  output_dim : nat;
  ensemble_size : option nat;
  activation : option (R → R);
  weight_decay : option R;
  weights : option string;
  biases : option string
}.

Definition get_input_dim (l : Layer) : option nat := input_dim l.
Definition get_output_dim (l : Layer) : nat := output_dim l.

Definition set_input_dim (d : nat) (l : Layer) : Layer :=
  {| input_dim := Some d; output_dim := output_dim l;
     ensemble_size := ensemble_size l; activation := activation l;
     weight_decay := weight_decay l;
     weights := weights l; biases := biases l |}.

Definition set_ensemble_size (n : nat) (l : Layer) : Layer :=
  {| input_dim := input_dim l; output_dim := output_dim l;
     ensemble_size := Some n; activation := activation l;
     weight_decay := weight_decay l;
     weights := weights l; biases := biases l |}.

(** An independent unconstructed clone: dimensions, activation and decay
    are kept, constructed parameters are not. *)
Definition copy (l : Layer) : Layer :=
  {| input_dim := input_dim l; output_dim := output_dim l;
     ensemble_size := ensemble_size l; activation := activation l;
     weight_decay := weight_decay l;
     weights := None; biases := None |}.

Definition tabulate3 (a n k : nat) (f : nat → nat → nat → R) : ten3 R :=
  map (fun i => map (fun j => map (fun c => f i j c) (seq 0 k)) (seq 0 n)) (seq 0 a).

(** [construct_vars] under the variable scope [scope]; [init] stands for
    the values the variance-scaling initializer draws for the weights,
    the biases start at zero. *)
Definition construct_vars (scope : string) (init : nat → nat → nat → R)
    (l : Layer) (s : Session) : outcome (Layer * Session) :=
  match input_dim l, ensemble_size l with
  | Some d, Some e =>
      let wname := scope +:+ "/FC_weights" in
      let bname := scope +:+ "/FC_biases" in
      do s1 <- get_variable wname [e; d; output_dim l]
                 (T3 (tabulate3 e d (output_dim l) init)) s;
      do s2 <- get_variable bname [e; 1; output_dim l]
                 (T3 (tabulate3 e 1 (output_dim l) (fun _ _ _ => rzero))) s1;
      Return ({| input_dim := input_dim l; output_dim := output_dim l;
                 ensemble_size := ensemble_size l; activation := activation l;
                 weight_decay := weight_decay l;
                 weights := Some wname; biases := Some bname |}, s2)
  | _, _ => Raise RuntimeError
  end.

Definition get_vars (l : Layer) : list string :=
  match weights l, biases l with
  | Some w, Some b => [w; b]
  | _, _ => []
  end.

Definition read3 (h : option string) (s : Session) : outcome (ten3 R) :=
  do v <- read h s;
  match v with
  | T3 t => Return t
  | _ => Raise ValueError
  end.

Definition read1 (h : option string) (s : Session) : outcome (vec R) :=
  do v <- read h s;
  match v with
  | T1 t => Return t
  | _ => Raise ValueError
  end.

Definition sum3 (t : ten3 R) : R := vsum (concat (concat t)).

(** [decay_penalty]: [weight_decay * sum(weight^2)] when a decay is set,
    a zero contribution otherwise. *)
Definition decay_penalty (l : Layer) (s : Session) : outcome R :=
  match weight_decay l with
  | Some wd => do W <- read3 (weights l) s; Return (rmul wd (sum3 (square3 W)))
  | None => Return rzero
  end.

Definition get_decays (l : Layer) : list (Session → outcome R) :=
  [decay_penalty l].

Definition apply_activation (l : Layer) (m : mat R) : mat R :=
  match activation l with
  | Some f => map (map f) m
  | None => m
  end.

(** One member's output: its batch against its own weight matrix, plus
    its bias row. *)
Definition member_output (l : Layer) (x W b : mat R) : mat R :=
  apply_activation l
    (map (fun row => vadd row (hd [] b)) (matmul (output_dim l) x W)).

(** [compute_output_tensor]: a rank-2 input is one batch shared by all
    members, a rank-3 input carries one batch per member. *)
Definition compute_output_tensor (l : Layer) (x : tval R) (s : Session)
    : outcome (tval R) :=
  do W <- read3 (weights l) s;
  do b <- read3 (biases l) s;
  match x with
  | T2 x2 => Return (T3 (zip_with (member_output l x2) W b))
  | T3 x3 =>
      if decide (Some (length x3) = ensemble_size l)
      then Return (T3 (zip_with (fun xW b => member_output l xW.1 xW.2 b) (zip x3 W) b))
      else Raise ValueError
  | _ => Raise ValueError
  end.

(** ** The scaler

    Modelled from the spec: the class [TensorStandardScaler] of
    dmbrl/modeling/utils is not among the sources.  It holds a mean and a
    standard deviation per input feature, both non-trainable variables;
    [fit] overwrites them with the statistics of the columns of its
    argument, [transform] returns [(x - mean) / std]. *)
Record Scaler : Type := {
  scaler_dim : nat;
  mu : string;
  sigma : string
}.

Definition TensorStandardScaler (scope : string) (x_dim : option nat)
    (s : Session) : outcome (Scaler * Session) :=
  match x_dim with
  | None => Raise ValueError
  | Some d =>
      let mname := scope +:+ "/Scaler/scaler_mu" in
      let sname := scope +:+ "/Scaler/scaler_std" in
      do s1 <- get_variable mname [d] (T1 (replicate d rzero)) s;
      do s2 <- get_variable sname [d] (T1 (replicate d (rofnat 1))) s1;
      Return ({| scaler_dim := d; mu := mname; sigma := sname |}, s2)
  end.

Definition scaler_get_vars (sc : Scaler) : list string := [mu sc; sigma sc].

Definition column (j : nat) (data : mat R) : vec R :=
  map (fun row => nth j row rzero) data.

Definition scaler_fit (sc : Scaler) (data : mat R) (s : Session) : outcome Session :=
  if forallb (has_shape1 (scaler_dim sc)) data
  then
    let stats := map (fun j => column_stats (column j data)) (seq 0 (scaler_dim sc)) in
    do s1 <- assign (mu sc) (T1 (map fst stats)) s;
    assign (sigma sc) (T1 (map snd stats)) s1
  else Raise ValueError.

Definition transform_row (m sg : vec R) (row : vec R) : vec R :=
  vdiv (vsub row m) sg.

Definition scaler_transform (sc : Scaler) (x : tval R) (s : Session)
    : outcome (tval R) :=
  do m <- read1 (Some (mu sc)) s;
  do sg <- read1 (Some (sigma sc)) s;
  match x with
  | T2 x2 => Return (T2 (map (transform_row m sg) x2))
  | T3 x3 => Return (T3 (map (map (transform_row m sg)) x3))
  | _ => Raise ValueError
  end.

End Tensors.

Arguments Session R : clear implicits.
Arguments Layer R : clear implicits.
Arguments Scaler : clear implicits.

(** ** Files *)

(** What [repr(layer)] writes on one line of the structure file. *)
Record LayerRepr (R : Type) : Type := {
  repr_input_dim : option nat;
  repr_output_dim : nat;
  repr_weight_decay : option R;
  repr_has_activation : bool;
  repr_ensemble_size : option nat
}.

Arguments repr_input_dim {R} _.
Arguments repr_output_dim {R} _.
Arguments repr_weight_decay {R} _.
Arguments repr_has_activation {R} _.
Arguments repr_ensemble_size {R} _.

(** A file is a structure file, a MATLAB archive written by
    [scipy.io.savemat], or a zipped numpy archive; both archives map names
    to arrays. *)
Inductive file (R : Type) : Type :=
  | NnsFile (lines : list (LayerRepr R))
  | MatFile (arrays : list (string * tval R))
  | NpzFile (arrays : list (string * tval R)).

Arguments NnsFile {R} lines.
Arguments MatFile {R} arrays.
Arguments NpzFile {R} arrays.

(** [np.load(path)]: the archive's names in order, each with its array.
    It reads numpy's own formats only. *)
Definition np_load {R} (fs : gmap string (file R)) (path : string)
    : outcome (list (string * tval R)) :=
  match fs !! path with
  | None => Raise IOError
  | Some (NpzFile d) => Return d
  | Some _ => Raise ValueError
  end.

(** ** The model object *)

Section Model.
Context {R : Type} {AR : Arith R}.

(** A placeholder is its shape; a graph tensor is a function of the
    value fed to its placeholder and of the session. *)
Definition Placeholder : Type := list (option nat).
Definition Tensor : Type := tval R → Session R → outcome (tval R).

(** The optimizer object made by the factory passed to [finalize]:
    [minimize loss var_list] is the training operation, which reads the
    loss at the fed inputs and targets and updates the session. *)
Definition Loss : Type := tval R → tval R → Session R → outcome R.
Definition TrainOp : Type := tval R → tval R → Session R → outcome (Session R).

Record Optimizer : Type := {
  minimize : Loss → list string → TrainOp;
  opt_variables : list (string * (list nat * tval R))
}.

Definition OptArgs : Type := list (string * R).

Record NN : Type := {
  name : string;
  model_dir : option string;
  sess : Session R;
  finalized : bool;
  layers : list (Layer R);
  decays : list (Session R → outcome R);
  optvars : list string;
  nonoptvars : list string;
  scaler : option Scaler;
  optimizer : option Optimizer;
  sy_train_in : option Placeholder;
  sy_train_targ : option Placeholder;
  train_op : option TrainOp;
  mse_loss : option (tval R → tval R → Session R → outcome (vec R));
  sy_pred_in2d : option Placeholder;
  sy_pred_mean2d_fac : option Tensor;
  sy_pred_mean2d : option Tensor;
  sy_pred_var2d : option Tensor;
  sy_pred_in3d : option Placeholder;
  sy_pred_mean3d_fac : option Tensor;
  num_nets : nat;
  model_loaded : bool;
  load_model_values : bool
}.

(** The construction parameters: a DotMap, every key optional. *)
Record Params : Type := {
  p_name : option string;
  p_num_networks : option nat;
  p_model_dir : option string;
  p_load_model : option bool;
  p_sess : option (Session R)
}.

(** The object as [NN.__init__] assigns its attributes: no layer, no
    scaler, no graph handle. *)
Definition new_model (nm : string) (dir : option string) (s : Session R)
    (n : nat) (loaded values : bool) : NN :=
  {| name := nm; model_dir := dir; sess := s;
     finalized := false;
     layers := []; decays := []; optvars := []; nonoptvars := [];
     scaler := None;
     optimizer := None;
     sy_train_in := None; sy_train_targ := None;
     train_op := None; mse_loss := None;
     sy_pred_in2d := None; sy_pred_mean2d_fac := None;
     sy_pred_mean2d := None; sy_pred_var2d := None;
     sy_pred_in3d := None; sy_pred_mean3d_fac := None;
     num_nets := n; model_loaded := loaded;
     load_model_values := values |}.

(** [NN.__init__] *)
Definition NN_init (params : Params) : outcome NN :=
  match p_name params with
  | None => Raise ValueError
  | Some nm =>
      let dir := p_model_dir params in
      let s := match p_sess params with
               | None => empty_session
               | Some s => s
               end in
      if default false (p_load_model params)
      then
        match dir with
        | None => Raise ValueError
        | Some _ =>
            Return (new_model nm dir s (default 1 (p_num_networks params)) false true)
        end
      else
        Return (new_model nm dir s (default 1 (p_num_networks params)) false false)
  end.

Definition is_probabilistic (m : NN) : bool := 1 <? num_nets m.

(** *** Attribute updates *)

Definition set_layers (ls : list (Layer R)) (m : NN) : NN :=
  {| name := name m; model_dir := model_dir m; sess := sess m;
     finalized := finalized m;
     layers := ls; decays := decays m; optvars := optvars m;
     nonoptvars := nonoptvars m; scaler := scaler m;
     optimizer := optimizer m;
     sy_train_in := sy_train_in m; sy_train_targ := sy_train_targ m;
     train_op := train_op m; mse_loss := mse_loss m;
     sy_pred_in2d := sy_pred_in2d m; sy_pred_mean2d_fac := sy_pred_mean2d_fac m;
     sy_pred_mean2d := sy_pred_mean2d m; sy_pred_var2d := sy_pred_var2d m;
     sy_pred_in3d := sy_pred_in3d m; sy_pred_mean3d_fac := sy_pred_mean3d_fac m;
     num_nets := num_nets m; model_loaded := model_loaded m;
     load_model_values := load_model_values m |}.

Definition set_sess (s : Session R) (m : NN) : NN :=
  {| name := name m; model_dir := model_dir m; sess := s;
     finalized := finalized m;
     layers := layers m; decays := decays m; optvars := optvars m;
     nonoptvars := nonoptvars m; scaler := scaler m;
     optimizer := optimizer m;
     sy_train_in := sy_train_in m; sy_train_targ := sy_train_targ m;
     train_op := train_op m; mse_loss := mse_loss m;
     sy_pred_in2d := sy_pred_in2d m; sy_pred_mean2d_fac := sy_pred_mean2d_fac m;
     sy_pred_mean2d := sy_pred_mean2d m; sy_pred_var2d := sy_pred_var2d m;
     sy_pred_in3d := sy_pred_in3d m; sy_pred_mean3d_fac := sy_pred_mean3d_fac m;
     num_nets := num_nets m; model_loaded := model_loaded m;
     load_model_values := load_model_values m |}.

Definition set_finalized (b : bool) (m : NN) : NN :=
  {| name := name m; model_dir := model_dir m; sess := sess m;
     finalized := b;
     layers := layers m; decays := decays m; optvars := optvars m;
     nonoptvars := nonoptvars m; scaler := scaler m;
     optimizer := optimizer m;
     sy_train_in := sy_train_in m; sy_train_targ := sy_train_targ m;
     train_op := train_op m; mse_loss := mse_loss m;
     sy_pred_in2d := sy_pred_in2d m; sy_pred_mean2d_fac := sy_pred_mean2d_fac m;
     sy_pred_mean2d := sy_pred_mean2d m; sy_pred_var2d := sy_pred_var2d m;
     sy_pred_in3d := sy_pred_in3d m; sy_pred_mean3d_fac := sy_pred_mean3d_fac m;
     num_nets := num_nets m; model_loaded := model_loaded m;
     load_model_values := load_model_values m |}.

Definition set_optimizer (o : option Optimizer) (m : NN) : NN :=
  {| name := name m; model_dir := model_dir m; sess := sess m;
     finalized := finalized m;
     layers := layers m; decays := decays m; optvars := optvars m;
     nonoptvars := nonoptvars m; scaler := scaler m;
     optimizer := o;
     sy_train_in := sy_train_in m; sy_train_targ := sy_train_targ m;
     train_op := train_op m; mse_loss := mse_loss m;
     sy_pred_in2d := sy_pred_in2d m; sy_pred_mean2d_fac := sy_pred_mean2d_fac m;
     sy_pred_mean2d := sy_pred_mean2d m; sy_pred_var2d := sy_pred_var2d m;
     sy_pred_in3d := sy_pred_in3d m; sy_pred_mean3d_fac := sy_pred_mean3d_fac m;
     num_nets := num_nets m; model_loaded := model_loaded m;
     load_model_values := load_model_values m |}.

Definition set_scaler (sc : option Scaler) (m : NN) : NN :=
  {| name := name m; model_dir := model_dir m; sess := sess m;
     finalized := finalized m;
     layers := layers m; decays := decays m; optvars := optvars m;
     nonoptvars := nonoptvars m; scaler := sc;
     optimizer := optimizer m;
     sy_train_in := sy_train_in m; sy_train_targ := sy_train_targ m;
     train_op := train_op m; mse_loss := mse_loss m;
     sy_pred_in2d := sy_pred_in2d m; sy_pred_mean2d_fac := sy_pred_mean2d_fac m;
     sy_pred_mean2d := sy_pred_mean2d m; sy_pred_var2d := sy_pred_var2d m;
     sy_pred_in3d := sy_pred_in3d m; sy_pred_mean3d_fac := sy_pred_mean3d_fac m;
     num_nets := num_nets m; model_loaded := model_loaded m;
     load_model_values := load_model_values m |}.

(** [self.decays.extend(ds); self.optvars.extend(vs)] *)
Definition extend_decays_optvars (ds : list (Session R → outcome R))
    (vs : list string) (m : NN) : NN :=
  {| name := name m; model_dir := model_dir m; sess := sess m;
     finalized := finalized m;
     layers := layers m; decays := decays m ++ ds; optvars := optvars m ++ vs;
     nonoptvars := nonoptvars m; scaler := scaler m;
     optimizer := optimizer m;
     sy_train_in := sy_train_in m; sy_train_targ := sy_train_targ m;
     train_op := train_op m; mse_loss := mse_loss m;
     sy_pred_in2d := sy_pred_in2d m; sy_pred_mean2d_fac := sy_pred_mean2d_fac m;
     sy_pred_mean2d := sy_pred_mean2d m; sy_pred_var2d := sy_pred_var2d m;
     sy_pred_in3d := sy_pred_in3d m; sy_pred_mean3d_fac := sy_pred_mean3d_fac m;
     num_nets := num_nets m; model_loaded := model_loaded m;
     load_model_values := load_model_values m |}.

(** [self.nonoptvars.extend(vs)] *)
Definition extend_nonoptvars (vs : list string) (m : NN) : NN :=
  {| name := name m; model_dir := model_dir m; sess := sess m;
     finalized := finalized m;
     layers := layers m; decays := decays m; optvars := optvars m;
     nonoptvars := nonoptvars m ++ vs; scaler := scaler m;
     optimizer := optimizer m;
     sy_train_in := sy_train_in m; sy_train_targ := sy_train_targ m;
     train_op := train_op m; mse_loss := mse_loss m;
     sy_pred_in2d := sy_pred_in2d m; sy_pred_mean2d_fac := sy_pred_mean2d_fac m;
     sy_pred_mean2d := sy_pred_mean2d m; sy_pred_var2d := sy_pred_var2d m;
     sy_pred_in3d := sy_pred_in3d m; sy_pred_mean3d_fac := sy_pred_mean3d_fac m;
     num_nets := num_nets m; model_loaded := model_loaded m;
     load_model_values := load_model_values m |}.

(** The attributes of the training graph, set together. *)
Definition set_training (o : Optimizer) (tin ttarg : Placeholder)
    (op : TrainOp) (mse : tval R → tval R → Session R → outcome (vec R))
    (m : NN) : NN :=
  {| name := name m; model_dir := model_dir m; sess := sess m;
     finalized := finalized m;
     layers := layers m; decays := decays m; optvars := optvars m;
     nonoptvars := nonoptvars m; scaler := scaler m;
     optimizer := Some o;
     sy_train_in := Some tin; sy_train_targ := Some ttarg;
     train_op := Some op; mse_loss := Some mse;
     sy_pred_in2d := sy_pred_in2d m; sy_pred_mean2d_fac := sy_pred_mean2d_fac m;
     sy_pred_mean2d := sy_pred_mean2d m; sy_pred_var2d := sy_pred_var2d m;
     sy_pred_in3d := sy_pred_in3d m; sy_pred_mean3d_fac := sy_pred_mean3d_fac m;
     num_nets := num_nets m; model_loaded := model_loaded m;
     load_model_values := load_model_values m |}.

(** The attributes of the prediction graph, set together. *)
Definition set_prediction (in2 : Placeholder) (fac2 mean2 var2 : Tensor)
    (in3 : Placeholder) (fac3 : Tensor) (m : NN) : NN :=
  {| name := name m; model_dir := model_dir m; sess := sess m;
     finalized := finalized m;
     layers := layers m; decays := decays m; optvars := optvars m;
     nonoptvars := nonoptvars m; scaler := scaler m;
     optimizer := optimizer m;
     sy_train_in := sy_train_in m; sy_train_targ := sy_train_targ m;
     train_op := train_op m; mse_loss := mse_loss m;
     sy_pred_in2d := Some in2; sy_pred_mean2d_fac := Some fac2;
     sy_pred_mean2d := Some mean2; sy_pred_var2d := Some var2;
     sy_pred_in3d := Some in3; sy_pred_mean3d_fac := Some fac3;
     num_nets := num_nets m; model_loaded := model_loaded m;
     load_model_values := load_model_values m |}.

(** *** Methods run on the object

    A method takes the object and returns its outcome with the object as
    the call leaves it: what was assigned before an exception stays
    assigned. *)
Definition M (A : Type) : Type := NN → outcome A * NN.

Definition ret {A} (a : A) : M A := fun m => (Return a, m).
Definition raise {A} (e : exn) : M A := fun m => (Raise e, m).
Definition bindM {A B} (c : M A) (k : A → M B) : M B :=
  fun m => match c m with
           | (Return a, m') => k a m'
           | (Raise e, m') => (Raise e, m')
           end.
Definition modify (f : NN → NN) : M unit := fun m => (Return tt, f m).
Definition gets {A} (f : NN → A) : M A := fun m => (Return (f m), m).
Definition lift {A} (o : outcome A) : M A := fun m => (o, m).

(** An operation run in the session of the object. *)
Definition in_sess (f : Session R → outcome (Session R)) : M unit :=
  fun m => match f (sess m) with
           | Return s => (Return tt, set_sess s m)
           | Raise e => (Raise e, m)
           end.

Fixpoint for_eachM {A} (body : A → M unit) (xs : list A) : M unit :=
  match xs with
  | [] => ret tt
  | x :: xs' => bindM (body x) (fun _ => for_eachM body xs')
  end.

End Model.

Arguments NN R : clear implicits.
Arguments Params R : clear implicits.
Arguments Optimizer R : clear implicits.
Arguments M R A : clear implicits.
Arguments Tensor R : clear implicits.
Arguments Loss R : clear implicits.
Arguments TrainOp R : clear implicits.
Arguments OptArgs R : clear implicits.

Notation "'run' x <- c ; k" := (bindM c (fun x => k))
  (at level 10, x name, c at level 100, k at level 200).
Notation "'exec' c ; k" := (bindM c (fun _ => k))
  (at level 10, c at level 100, k at level 200).

Section Methods.
Context {R : Type} {AR : Arith R}.

(** *** Network structure setup *)

(** [NN.add]: the call sets the ensemble size and, after the first
    layer, the input dimension of the caller's layer object, and appends
    a copy of it to the list.  The third component is the caller's
    object as the call leaves it. *)
Definition add (layer : Layer R) (m : NN R) : outcome unit * NN R * Layer R :=
  if finalized m then (Raise RuntimeError, m, layer)
  else if (length (layers m) =? 0) && negb (bool_decide (is_Some (get_input_dim layer)))
  then (Raise ValueError, m, layer)
  else if model_loaded m then (Raise RuntimeError, m, layer)
  else
    let layer1 := set_ensemble_size (num_nets m) layer in
    let layer2 :=
      match last (layers m) with
      | Some prev => set_input_dim (get_output_dim prev) layer1
      | None => layer1
      end in
    (Return tt, set_layers (layers m ++ [copy layer2]) m, layer2).

(** [NN.pop] *)
Definition pop (m : NN R) : outcome (Layer R) * NN R :=
  match last (layers m) with
  | None => (Raise RuntimeError, m)
  | Some l =>
      if finalized m then (Raise RuntimeError, m)
      else if model_loaded m then (Raise RuntimeError, m)
      else (Return l, set_layers (removelast (layers m)) m)
  end.

(** *** Compilation methods *)

(** [NN._compile_outputs] *)
Definition compile_outputs (sc : Scaler) (ls : list (Layer R)) : Tensor R :=
  fun inputs s =>
    do cur_out <- scaler_transform sc inputs s;
    for_each (fun cur l => compute_output_tensor l cur s) ls cur_out.

Definition halve (x : R) : R := rdiv x (rofnat 2).

(** The batch sizes of two rank-3 values agree member by member. *)
Definition same_batches (a b : ten3 R) : bool :=
  (length a =? length b) &&
  forallb (fun ab => length ab.1 =? length ab.2) (zip a b).

(** [NN._compile_losses]:
    [reduce_mean(reduce_mean(square(mean - targets) / 2, axis=-1), axis=-1)] *)
Definition compile_losses (sc : Scaler) (ls : list (Layer R))
    : tval R → tval R → Session R → outcome (vec R) :=
  fun inputs targets s =>
    do mean <- compile_outputs sc ls inputs s;
    match mean, targets with
    | T3 p, T3 t =>
        if same_batches p t
        then Return (reduce_mean_last2
                       (reduce_mean_last3
                          (map (map (map halve)) (square3 (sub3 p t)))))
        else Raise ValueError
    | _, _ => Raise ValueError
    end.

(** [tf.add_n]: the list must not be empty. *)
Definition add_n (ts : list (Session R → outcome R)) (s : Session R) : outcome R :=
  match ts with
  | [] => Raise ValueError
  | t0 :: ts' =>
      do x0 <- t0 s;
      for_each (fun acc t => do x <- t s; Return (radd acc x)) ts' x0
  end.

(** The loss that [finalize] hands to the optimizer:
    [tf.reduce_sum(self._compile_losses(...)) + tf.add_n(self.decays)] *)
Definition train_loss (sc : Scaler) (ls : list (Layer R))
    (ds : list (Session R → outcome R)) : Loss R :=
  fun inputs targets s =>
    do per_member <- compile_losses sc ls inputs targets s;
    do penalty <- add_n ds s;
    Return (radd (vsum per_member) penalty).

(** [tf.reduce_mean(t, axis=0)] of the factored mean, which has rank 3
    as soon as the network has a layer. *)
Definition tf_reduce_mean0 (v : tval R) : outcome (tval R) :=
  match v with
  | T3 t => Return (T2 (reduce_mean0 t))
  | _ => Raise ValueError
  end.

(** [tf.reduce_mean(tf.square(fac - mean), axis=0)] *)
Definition deviation (fac mean : tval R) : outcome (tval R) :=
  match fac, mean with
  | T3 t, T2 m => Return (T2 (reduce_mean0 (square3 (sub_bcast t m))))
  | _, _ => Raise ValueError
  end.

(** The ensemble mean of a factored mean tensor,
    [tf.reduce_mean(factored_mean, axis=0)], and the ensemble variance,
    [tf.reduce_mean(tf.square(factored_mean - mean), axis=0)]. *)
Definition mean_of (factored_mean : Tensor R) : Tensor R :=
  fun x s => do f <- factored_mean x s; tf_reduce_mean0 f.

Definition variance_of (factored_mean mean : Tensor R) : Tensor R :=
  fun x s => do f <- factored_mean x s; do mn <- mean x s; deviation f mn.

(** [NN.create_prediction_tensors]: the mean tensor and the variance
    tensor, if any, for an input placeholder of [ndims] dimensions. *)
Definition create_prediction_tensors (sc : Scaler) (ls : list (Layer R))
    (ndims : nat) (factored : bool) : Tensor R * option (Tensor R) :=
  let factored_mean := compile_outputs sc ls in
  if (ndims =? 2) && negb factored
  then
    let mean := mean_of factored_mean in
    let variance := variance_of factored_mean mean in
    (mean, Some variance)
  else (factored_mean, None).

(** *** [NN.finalize] *)

(** Lines 153-158: the scaler, then the variables of every layer in
    turn, each under its own scope. *)
Definition construct_layer (init : string → nat → nat → nat → R) (i : nat)
    : M R unit :=
  fun m =>
    match layers m !! i with
    | None => (Raise IndexError, m)
    | Some layer =>
        let scope := name m +:+ "/Layer" +:+ pretty i in
        match construct_vars scope (init scope) layer (sess m) with
        | Raise e => (Raise e, m)
        | Return (layer', s') =>
            (Return tt,
             extend_decays_optvars (get_decays layer') (get_vars layer')
               (set_layers (<[i := layer']> (layers m)) (set_sess s' m)))
        end
    end.

Definition construct_scaler : M R unit :=
  fun m =>
    match TensorStandardScaler (name m)
            (match head (layers m) with
             | Some l => get_input_dim l
             | None => None
             end) (sess m) with
    | Raise e => (Raise e, m)
    | Return (sc, s') => (Return tt, set_scaler (Some sc) (set_sess s' m))
    end.

Definition construct_all (init : string → nat → nat → nat → R) : M R unit :=
  exec construct_scaler;
  run n <- gets (fun m => length (layers m));
  for_eachM (construct_layer init) (seq 0 n).

(** Line 159: [self.nonoptvars.extend(self.scaler.get_vars())] *)
Definition collect_nonoptvars : M R unit :=
  fun m =>
    match scaler m with
    | None => (Raise AttributeError, m)
    | Some sc => (Return tt, extend_nonoptvars (scaler_get_vars sc) m)
    end.

(** Lines 162-174: the training graph. *)
Definition setup_training (optimizer : OptArgs R → Optimizer R) (args : OptArgs R)
    : M R unit :=
  fun m =>
    match scaler m, head (layers m), last (layers m) with
    | Some sc, Some first, Some final =>
        let o := optimizer args in
        let tin := [Some (num_nets m); None; get_input_dim first] in
        let ttarg := [Some (num_nets m); None; Some (get_output_dim final)] in
        let loss := train_loss sc (layers m) (decays m) in
        let mse := compile_losses sc (layers m) in
        match for_each (fun s v => get_variable v.1 v.2.1 v.2.2 s)
                       (opt_variables o) (sess m) with
        | Raise e => (Raise e, set_optimizer (Some o) m)
        | Return s' =>
            (Return tt,
             set_training o tin ttarg (minimize o loss (optvars m)) mse
               (set_sess s' m))
        end
    | None, _, _ => (Raise AttributeError, m)
    | _, _, _ => (Raise IndexError, m)
    end.

(** Line 177: every variable gets its initial value. *)
Definition initialize_variables : M R unit :=
  fun m =>
    let slots := match optimizer m with
                 | Some o => map fst (opt_variables o)
                 | None => []
                 end in
    in_sess (variables_initializer (optvars m ++ nonoptvars m ++ slots)) m.

(** Lines 180-192: the prediction graph. *)
Definition setup_prediction : M R unit :=
  fun m =>
    match scaler m, head (layers m) with
    | Some sc, Some first =>
        let in2 := [None; get_input_dim first] in
        let fac2 := (create_prediction_tensors sc (layers m) 2 true).1 in
        let mean2 := mean_of fac2 in
        let var2 := variance_of fac2 mean2 in
        let in3 := [Some (num_nets m); None; get_input_dim first] in
        let fac3 := (create_prediction_tensors sc (layers m) 3 true).1 in
        (Return tt, set_prediction in2 fac2 mean2 var2 in3 fac3 m)
    | None, _ => (Raise AttributeError, m)
    | _, _ => (Raise IndexError, m)
    end.

(** Lines 195-211: in load mode every array of the archive at
    [model_dir] is assigned to the graph tensor of the same name. *)
Definition load_values (fs : gmap string (file R)) : M R unit :=
  fun m =>
    if model_loaded m || load_model_values m
    then
      match model_dir m with
      | None => (Raise TypeError, m)
      | Some load_path =>
          match np_load fs load_path with
          | Raise e => (Raise e, m)
          | Return data =>
              for_eachM (fun kv => in_sess (assign kv.1 kv.2)) data m
          end
      end
    else (Return tt, m).

(** [NN.finalize(optimizer, optimizer_args)]; [init] stands for the
    draws of the weight initializers and [fs] for the files. *)
Definition finalize (optimizer : OptArgs R → Optimizer R)
    (optimizer_args : option (OptArgs R))
    (init : string → nat → nat → nat → R)
    (fs : gmap string (file R)) : M R unit :=
  fun m =>
    if length (layers m) =? 0 then (Raise RuntimeError, m)
    else if finalized m then (Raise RuntimeError, m)
    else
      let args := default [] optimizer_args in
      (exec modify (set_optimizer (Some (optimizer args)));
       exec construct_all init;
       exec collect_nonoptvars;
       exec setup_training optimizer args;
       exec initialize_variables;
       exec setup_prediction;
       exec load_values fs;
       modify (set_finalized true)) m.

(** *** [NN.predict] *)

(** [sess.run(t, feed_dict={ph: x})]: a handle that is [None] is not a
    fetchable or feedable object, and a fed value must fit the shape of
    the placeholder. *)
Definition sess_run (ph : option Placeholder) (t : option (Tensor R))
    (x : tval R) (m : NN R) : outcome (tval R) :=
  match t, ph with
  | Some f, Some sh => if feed_ok sh x then f x (sess m) else Raise ValueError
  | _, _ => Raise TypeError
  end.

Definition predict (inputs : tval R) (factored : bool) (m : NN R)
    : outcome (tval R * option (tval R)) :=
  match inputs with
  | T2 _ =>
      if factored
      then
        do mean <- sess_run (sy_pred_in2d m) (sy_pred_mean2d_fac m) inputs m;
        Return (mean, None)
      else
        do mean <- sess_run (sy_pred_in2d m) (sy_pred_mean2d m) inputs m;
        do var <- sess_run (sy_pred_in2d m) (sy_pred_var2d m) inputs m;
        Return (mean, Some var)
  | _ =>
      do mean <- sess_run (sy_pred_in3d m) (sy_pred_mean3d_fac m) inputs m;
      Return (mean, None)
  end.

(** *** [NN.save] *)

Definition repr (l : Layer R) : LayerRepr R :=
  {| repr_input_dim := input_dim l; repr_output_dim := output_dim l;
     repr_weight_decay := weight_decay l;
     repr_has_activation := bool_decide (is_Some (activation l));
     repr_ensemble_size := ensemble_size l |}.

(** [NN.save(savedir)]: the structure file, then the values of
    [nonoptvars + optvars] under the keys ["0"], ["1"], ... in a
    MATLAB archive. *)
Definition save (savedir : option string) (m : NN R)
    (fs : gmap string (file R)) : outcome unit * gmap string (file R) :=
  if negb (finalized m) then (Raise RuntimeError, fs)
  else
    match (match savedir with None => model_dir m | Some d => Some d end) with
    | None => (Raise TypeError, fs)
    | Some dir =>
        let fs1 := <[path_join dir (name m +:+ ".nns") := NnsFile (map repr (layers m))]> fs in
        match map_outcome (fun v => read (Some v) (sess m))
                          (nonoptvars m ++ optvars m) with
        | Raise e => (Raise e, fs1)
        | Return vals =>
            (Return tt,
             <[path_join dir (name m +:+ ".mat") :=
                 MatFile (imap (fun i v => (pretty i, v)) vals)]> fs1)
        end
    end.

End Methods.

(** ** [np.random]

    The global generator of numpy is a state threaded through the draws.
    An instance gives the three draws [train] makes, with what numpy
    guarantees of each: a permutation of [range(n)], integers below
    [high] in the requested shape, and uniform floats in the requested
    shape (rationals here: only their order is used). *)

Class NumpyRandom (G : Type) : Type := {
  draw_permutation : nat → G → list nat * G;
  draw_integers : nat → nat → nat → G → list (list nat) * G;
  draw_uniform : nat → nat → G → list (list Q) * G;
  draw_permutation_perm :
    ∀ n g, Permutation (draw_permutation n g).1 (seq 0 n);
  draw_integers_shape :
    ∀ high rows cols g,
      0 < high →
      length (draw_integers high rows cols g).1 = rows ∧
      Forall (fun row => length row = cols ∧ Forall (fun i => i < high) row)
             (draw_integers high rows cols g).1;
  draw_uniform_shape :
    ∀ rows cols g,
      length (draw_uniform rows cols g).1 = rows ∧
      Forall (fun row => length row = cols) (draw_uniform rows cols g).1
}.

Section Random.
Context {G : Type} {NR : NumpyRandom G}.

(** [np.random.permutation(n)] *)
Definition np_random_permutation (n : nat) (g : G) : list nat * G :=
  draw_permutation n g.

(** [np.random.randint(high, size=[rows, cols])]: the integers are drawn
    from [0, high), and the legacy generator refuses an empty range
    with [ValueError] ("low >= high") whatever the size. *)
Definition np_random_randint (high rows cols : nat) (g : G)
    : outcome (list (list nat)) * G :=
  if high =? 0 then (Raise ValueError, g)
  else let r := draw_integers high rows cols g in (Return r.1, r.2).

(** [np.random.uniform(size=[rows, cols])] *)
Definition np_random_uniform (rows cols : nat) (g : G) : list (list Q) * G :=
  draw_uniform rows cols g.

End Random.

(** [np.argsort] of one row: the positions of the row's entries in
    ascending order of the entries (insertion sort on the pairs of an
    entry and its position). *)
Fixpoint insert_by_key (x : Q * nat) (xs : list (Q * nat)) : list (Q * nat) :=
  match xs with
  | [] => [x]
  | y :: ys => if Qle_bool x.1 y.1 then x :: y :: ys else y :: insert_by_key x ys
  end.

Definition sort_by_key (xs : list (Q * nat)) : list (Q * nat) :=
  foldr insert_by_key [] xs.

Definition argsort (row : list Q) : list nat :=
  map snd (sort_by_key (zip row (seq 0 (length row)))).

(** ** [NN.train] *)

Section Train.
Context {R : Type} {AR : Arith R} {G : Type} {NR : NumpyRandom G}.

(** [shuffle_rows(arr)], with the uniform draw made explicit:
    [arr[np.arange(rows)[:, None], np.argsort(u, axis=-1)]] *)
Definition shuffle_rows (arr : list (list nat)) (u : list (list Q))
    : outcome (list (list nat)) :=
  map_outcome (fun ru => take_rows ru.1 (argsort ru.2)) (zip arr u).

(** What one epoch did: the index matrix it started from and the index
    batches it fed to the training operation, in order. *)
Record EpochLog : Type := {
  epoch_idxs : list (list nat);
  epoch_batches : list (list (list nat))
}.

(** What a call to [train] did.  The call itself returns nothing; the
    log records the row positions it held out and kept, the data it
    fitted the scaler on, the replicated holdout set, the bootstrap
    draw and the epochs. *)
Record TrainLog : Type := {
  holdout_rows : list nat;
  retained_rows : list nat;
  holdout_inputs : ten3 R;
  holdout_targets : ten3 R;
  fitted_on : mat R;
  bootstrap : list (list nat);
  epochs_run : list EpochLog;
  final_idxs : list (list nat)
}.

(** [sess.run(self.train_op, feed_dict={self.sy_train_in: x,
    self.sy_train_targ: t})] *)
Definition run_train_op (x t : ten3 R) : M R unit :=
  fun m =>
    match train_op m, sy_train_in m, sy_train_targ m with
    | Some op, Some shx, Some sht =>
        if feed_ok shx (T3 x) && feed_ok sht (T3 t)
        then in_sess (op (T3 x) (T3 t)) m
        else (Raise ValueError, m)
    | _, _, _ => (Raise TypeError, m)
    end.

(** [sess.run(self.mse_loss, feed_dict=...)] *)
Definition run_mse_loss (x t : ten3 R) (m : NN R) : outcome (vec R) :=
  match mse_loss m, sy_train_in m, sy_train_targ m with
  | Some loss, Some shx, Some sht =>
      if feed_ok shx (T3 x) && feed_ok sht (T3 t)
      then loss (T3 x) (T3 t) (sess m)
      else Raise ValueError
  | _, _, _ => Raise TypeError
  end.

(** [idxs[:, a:b]] *)
Definition columns (a b : Z) (idxs : list (list nat)) : list (list nat) :=
  map (slice a b) idxs.

(** Lines 245-249: one batch. *)
Definition train_batch (inputs targets : mat R) (batch_size : Z)
    (idxs : list (list nat)) (batch_num : nat) : M R (list (list nat)) :=
  let batch_idxs :=
    columns (Z.of_nat batch_num * batch_size)
            ((Z.of_nat batch_num + 1) * batch_size) idxs in
  run x <- lift (take_rows2 inputs batch_idxs);
  run t <- lift (take_rows2 targets batch_idxs);
  exec run_train_op x t;
  ret batch_idxs.

Fixpoint mapM {A B} (f : A → M R B) (xs : list A) : M R (list B) :=
  match xs with
  | [] => ret []
  | x :: xs' => run y <- f x; run ys <- mapM f xs'; ret (y :: ys)
  end.

(** [range(int(np.ceil(n / batch_size)))] *)
Definition batch_range (n : nat) (batch_size : Z) : outcome (list nat) :=
  if (batch_size =? 0)%Z then Raise ZeroDivisionError
  else Return (py_range (py_ceil (Qmake (Z.of_nat n) 1 / inject_Z batch_size))).

(** Lines 251-278: the losses shown on the progress bar. *)
Definition report_progress (inputs targets : mat R)
    (hold_in hold_targ : ten3 R) (idxs : list (list nat))
    (holdout_ratio : Q) (max_logging : Z) : M R unit :=
  let shown := map (slice_to max_logging) idxs in
  run x <- lift (take_rows2 inputs shown);
  run t <- lift (take_rows2 targets shown);
  run current <- (fun m => (run_mse_loss x t m, m));
  if Qlt_le_dec holdout_ratio (1 # 1000000000000)
  then ret tt
  else
    run held <- (fun m => (run_mse_loss hold_in hold_targ m, m));
    ret tt.

(** Lines 243-278: one epoch, from the index matrix [idxs], which has
    one row per member and one column per row of [inputs]; it returns
    the log of the epoch and the reshuffled index matrix. *)
Definition train_epoch (inputs targets : mat R)
    (hold_in hold_targ : ten3 R) (batch_size : Z) (hide_progress : bool)
    (holdout_ratio : Q) (max_logging : Z)
    (idxs : list (list nat)) (g : G)
    : M R (EpochLog * list (list nat) * G) :=
  run batches <- lift (batch_range (length inputs) batch_size);
  run fed <- mapM (train_batch inputs targets batch_size idxs) batches;
  let u := np_random_uniform (length idxs) (length inputs) g in
  run idxs' <- lift (shuffle_rows idxs u.1);
  exec (if hide_progress then ret tt
        else report_progress inputs targets hold_in hold_targ idxs'
               holdout_ratio max_logging);
  ret ({| epoch_idxs := idxs; epoch_batches := fed |}, idxs', u.2).

(** The loop over the epochs. *)
Fixpoint train_epochs (n : nat) (inputs targets : mat R)
    (hold_in hold_targ : ten3 R) (batch_size : Z) (hide_progress : bool)
    (holdout_ratio : Q) (max_logging : Z)
    (idxs : list (list nat)) (g : G)
    : M R (list EpochLog * list (list nat) * G) :=
  match n with
  | 0 => ret ([], idxs, g)
  | S n' =>
      run e <- train_epoch inputs targets hold_in hold_targ batch_size
                 hide_progress holdout_ratio max_logging idxs g;
      run rest <- train_epochs n' inputs targets hold_in hold_targ batch_size
                    hide_progress holdout_ratio max_logging e.1.2 e.2;
      ret (e.1.1 :: rest.1.1, rest.1.2, rest.2)
  end.

(** [self.scaler.fit(inputs)] *)
Definition fit_scaler (inputs : mat R) : M R unit :=
  fun m =>
    match scaler m with
    | None => (Raise AttributeError, m)
    | Some sc => in_sess (scaler_fit sc inputs) m
    end.

(** [NN.train(inputs, targets, batch_size, epochs, hide_progress,
    holdout_ratio, max_logging)] from the generator state [g]; the
    product of the row count and the ratio is taken exactly. *)
Definition train (inputs targets : mat R) (batch_size epochs : Z)
    (hide_progress : bool) (holdout_ratio : Q) (max_logging : Z) (g : G)
    : M R (TrainLog * G) :=
  let num_holdout :=
    Z.min (py_int (Qmake (Z.of_nat (length inputs)) 1 * holdout_ratio)) max_logging in
  let p := np_random_permutation (length inputs) g in
  let permutation := p.1 in
  let kept := slice_from num_holdout permutation in
  let held := slice_to num_holdout permutation in
  run inputs' <- lift (take_rows inputs kept);
  run hin <- lift (take_rows inputs held);
  run targets' <- lift (take_rows targets kept);
  run htarg <- lift (take_rows targets held);
  run M_ <- gets num_nets;
  let hold_in := replicate M_ hin in
  let hold_targ := replicate M_ htarg in
  exec fit_scaler inputs';
  let r := np_random_randint (length inputs') M_ (length inputs') p.2 in
  run idxs <- lift r.1;
  run done <- train_epochs (Z.to_nat epochs) inputs' targets' hold_in hold_targ
                batch_size hide_progress holdout_ratio max_logging idxs r.2;
  ret ({| holdout_rows := held; retained_rows := kept;
          holdout_inputs := hold_in; holdout_targets := hold_targ;
          fitted_on := inputs';
          bootstrap := idxs;
          epochs_run := done.1.1;
          final_idxs := done.1.2 |}, done.2).

End Train.

Arguments EpochLog : clear implicits.
Arguments TrainLog R : clear implicits.

(** ** Exact rational arithmetic, for running the model on concrete data *)

Module QModel.

Definition qadd (a b : Q) : Q := Qred (a + b).
Definition qsub (a b : Q) : Q := Qred (a - b).
Definition qmul (a b : Q) : Q := Qred (a * b).
Definition qdiv (a b : Q) : Q := Qred (a / b).
Definition qofnat (n : nat) : Q := inject_Z (Z.of_nat n).

(** A square root to six decimal places. *)
Definition qsqrt (a : Q) : Q :=
  Qred (Z.sqrt (Qnum a * 1000000000000 / Z.pos (Qden a)) # 1000000).

Definition qmean (col : list Q) : Q :=
  qdiv (fold_left qadd col 0%Q) (qofnat (length col)).

(** Mean and standard deviation of a column, the latter floored at
    [1e-8]. *)
Definition qstats (col : list Q) : Q * Q :=
  let mean := qmean col in
  let std := qsqrt (qmean (map (fun x => qmul (qsub x mean) (qsub x mean)) col)) in
  (mean, if Qle_bool std (1 # 100000000) then (1 # 100000000)%Q else std).

#[global] Instance Q_arith : Arith Q := {|
  rzero := 0%Q;
  radd := qadd;
  rsub := qsub;
  rmul := qmul;
  rdiv := qdiv;
  rofnat := qofnat;
  column_stats := qstats
|}.

(** A layer template with no activation and no decay. *)
Definition FC (output : nat) (input : option nat) : Layer Q :=
  {| input_dim := input; output_dim := output; ensemble_size := None;
     activation := None; weight_decay := None;
     weights := None; biases := None |}.

(** An optimizer whose step leaves every variable where it is (a
    gradient step of learning rate zero). *)
Definition frozen (_ : OptArgs Q) : Optimizer Q :=
  {| minimize := fun _ _ _ _ s => Return s; opt_variables := [] |}.

(** Initial weights: member [a] starts at [a + 1] on row [i], column
    [c] when [i = c], and at zero elsewhere. *)
Definition diag_init (_ : string) (a i c : nat) : Q :=
  if i =? c then qofnat (a + 1) else 0%Q.

End QModel.

(** ** A counter as generator, for running [train] on concrete data *)

Module Counter.

Definition permutation (n : nat) (g : nat) : list nat * nat :=
  (rotate g (seq 0 n), S g).

Definition integers (high rows cols : nat) (g : nat) : list (list nat) * nat :=
  (map (fun i => map (fun j => (g + i * S cols + j) mod high) (seq 0 cols))
       (seq 0 rows), S g).

Definition uniform (rows cols : nat) (g : nat) : list (list Q) * nat :=
  (map (fun i => map (fun j => Z.of_nat (((g + i * cols + j) * 37) mod 101) # 101)
                     (seq 0 cols))
       (seq 0 rows), S g).

Lemma permutation_perm n g : Permutation (permutation n g).1 (seq 0 n).
Proof.
  unfold permutation, rotate. simpl.
  rewrite Permutation_app_comm. by rewrite take_drop.
Qed.

Lemma integers_shape high rows cols g :
  0 < high →
  length (integers high rows cols g).1 = rows ∧
  Forall (fun row => length row = cols ∧ Forall (fun i => i < high) row)
         (integers high rows cols g).1.
Proof.
  intros Hh. unfold integers. simpl. split.
  - by rewrite length_map, length_seq.
  - apply Forall_map, Forall_forall. intros i _. simpl. split.
    + by rewrite length_map, length_seq.
    + apply Forall_map, Forall_forall. intros j _. simpl.
      apply Nat.mod_upper_bound. lia.
Qed.

Lemma uniform_shape rows cols g :
  length (uniform rows cols g).1 = rows ∧
  Forall (fun row => length row = cols) (uniform rows cols g).1.
Proof.
  unfold uniform. simpl. split.
  - by rewrite length_map, length_seq.
  - apply Forall_map, Forall_forall. intros i _. simpl.
    by rewrite length_map, length_seq.
Qed.

#[global] Instance counter_random : NumpyRandom nat := {|
  draw_permutation := permutation;
  draw_integers := integers;
  draw_uniform := uniform;
  draw_permutation_perm := permutation_perm;
  draw_integers_shape := integers_shape;
  draw_uniform_shape := uniform_shape
|}.

End Counter.

(** ** Concrete models and data *)

Module Demo.
Import QModel Counter.

Definition empty : NN Q := new_model "dyn" None empty_session 2 false false.
Definition one_layer : NN Q := (add (FC 2 (Some 2)) empty).1.2.
Definition two_layers : NN Q := (add (FC 1 None) one_layer).1.2.
Definition ready : NN Q := (finalize frozen None diag_init ∅ two_layers).2.

Definition X : list (list Q) :=
  [[1; 2]; [3; 4]; [5; 7]; [0; 1]; [2; 2]; [9; 1]; [4; 4]]%Q.
Definition Y : list (list Q) := [[1]; [3]; [5]; [0]; [2]; [9]; [4]]%Q.

(** A model in load mode with the same two layers, pointed at the
    archive that [save] writes into the directory ["out"], and what a
    call to [finalize] leaves of it when no file is there. *)
Definition loader : NN Q :=
  (add (FC 1 None)
     (add (FC 2 (Some 2))
        (new_model "dyn" (Some "out/dyn.mat") empty_session 2 false true)).1.2).1.2.
Definition stranded : NN Q := (finalize frozen None diag_init ∅ loader).2.

(** A call to [train] on the finalized model: seven rows, batches of
    two, two epochs, three tenths of the rows held out; and what the
    call did. *)
Definition run1 : outcome (TrainLog Q * nat) * NN Q :=
  train X Y 2 2 false (3 # 10) 5000 0%nat ready.

Definition log1 : TrainLog Q :=
  Eval vm_compute in
    match run1.1 with
    | Return (l, _) => l
    | Raise _ =>
        {| holdout_rows := []; retained_rows := []; holdout_inputs := [];
           holdout_targets := []; fitted_on := []; bootstrap := [];
           epochs_run := []; final_idxs := [] |}
    end.

(** Construction parameters asking for a model in load mode with [n]
    networks. *)
Definition load_params (n : nat) (dir : string) : Params Q :=
  {| p_name := Some "dyn"; p_num_networks := Some n;
     p_model_dir := Some dir; p_load_model := Some true; p_sess := None |}.

End Demo.

(** * Properties *)

(** ** Structure setup: [add] and [pop] *)

Section Structure.
Context {R : Type} {AR : Arith R}.

Lemma set_layers_back (m : NN R) (ls : list (Layer R)) :
  set_layers (layers m) (set_layers ls m) = m.
Proof. by destruct m. Qed.

Lemma add_returns (layer : Layer R) (m : NN R) :
  finalized m = false →
  model_loaded m = false →
  (layers m ≠ [] ∨ is_Some (get_input_dim layer)) →
  ∃ layer', add layer m = (Return tt, set_layers (layers m ++ [copy layer']) m, layer').
Proof.
  intros Hf Hl Hd. unfold add. rewrite Hf, Hl.
  destruct (layers m) as [|l0 ls] eqn:Els.
  - destruct Hd as [Hd|Hd]; [done|].
    rewrite (bool_decide_eq_true_2 _ Hd). simpl. eauto.
  - simpl length. simpl andb. cbv iota. eauto.
Qed.

(** C9: on a model that is neither finalized nor loaded, [add] of a
    layer that it accepts (any layer after the first, a layer with an
    input dimension as the first) followed by [pop] gives back the
    model exactly as it was before the [add], and [pop] returns the
    layer that [add] stored. *)
Theorem add_then_pop (layer : Layer R) (m : NN R) :
  finalized m = false →
  model_loaded m = false →
  (layers m ≠ [] ∨ is_Some (get_input_dim layer)) →
  ∃ m' layer',
    add layer m = (Return tt, m', layer') ∧
    layers m' = layers m ++ [copy layer'] ∧
    pop m' = (Return (copy layer'), m).
Proof.
  intros Hf Hl Hd.
  destruct (add_returns layer m Hf Hl Hd) as [layer' Hadd].
  eexists _, layer'. split; [exact Hadd|]. split.
  - by destruct m.
  - unfold pop.
    replace (layers (set_layers (layers m ++ [copy layer']) m))
      with (layers m ++ [copy layer']) by (by destruct m).
    rewrite last_snoc.
    replace (finalized (set_layers (layers m ++ [copy layer']) m))
      with (finalized m) by (by destruct m).
    replace (model_loaded (set_layers (layers m ++ [copy layer']) m))
      with (model_loaded m) by (by destruct m).
    rewrite Hf, Hl, removelast_last.
    f_equal. by destruct m.
Qed.

End Structure.

(** The first layer added to the empty demo model, then removed again. *)
Lemma add_then_pop_witness :
  ∃ m' layer',
    add (QModel.FC 2 (Some 2)) Demo.empty = (Return tt, m', layer') ∧
    layers m' = layers Demo.empty ++ [copy layer'] ∧
    pop m' = (Return (copy layer'), Demo.empty).
Proof.
  apply (add_then_pop (QModel.FC 2 (Some 2)) Demo.empty);
    [reflexivity | reflexivity | right; by eexists].
Defined.

(** ** Construction and [finalize] *)

Section Finalize.
Context {R : Type} {AR : Arith R}.

(** C8: [finalize] on a model that is already finalized, or that has no
    layer, raises [RuntimeError] and leaves the object, its session and
    its graph handles exactly as they were. *)
Theorem finalize_guarded (optimizer : OptArgs R → Optimizer R)
    (optimizer_args : option (OptArgs R))
    (init : string → nat → nat → nat → R)
    (fs : gmap string (file R)) (m : NN R) :
  finalized m = true ∨ layers m = [] →
  finalize optimizer optimizer_args init fs m = (Raise RuntimeError, m).
Proof.
  intros [Hf|He]; unfold finalize.
  - rewrite Hf. by destruct (length (layers m) =? 0).
  - by rewrite He.
Qed.

(** C3: a model constructed in load mode has as many networks as the
    [num_networks] parameter says; the parameter is not ignored. *)
Theorem load_mode_num_nets (nm dir : string) (s : option (Session R)) (n : nat) :
  ∃ m, NN_init {| p_name := Some nm; p_num_networks := Some n;
                 p_model_dir := Some dir; p_load_model := Some true;
                 p_sess := s |} = Return m ∧
       num_nets m = n ∧ load_model_values m = true ∧ model_loaded m = false.
Proof. unfold NN_init. simpl. eauto. Qed.

(** *** What the stages of [finalize] leave alone *)

(** The attributes that decide whether and from where values are
    loaded. *)
Definition load_mode (m : NN R) : option string * bool * bool :=
  (model_dir m, load_model_values m, model_loaded m).

Definition keeps_load_mode {A} (c : M R A) : Prop :=
  ∀ m, load_mode (c m).2 = load_mode m.

Lemma keeps_bindM {A B} (c : M R A) (k : A → M R B) :
  keeps_load_mode c → (∀ a, keeps_load_mode (k a)) →
  keeps_load_mode (bindM c k).
Proof.
  intros Hc Hk m. unfold bindM. specialize (Hc m).
  destruct (c m) as [[a|e] m']; simpl in *; [|done].
  by rewrite Hk.
Qed.

Lemma keeps_ret {A} (a : A) : keeps_load_mode (ret a).
Proof. by intros m. Qed.

Lemma keeps_gets {A} (f : NN R → A) : keeps_load_mode (gets f).
Proof. by intros m. Qed.

Lemma keeps_in_sess f : keeps_load_mode (in_sess f).
Proof. intros m. unfold in_sess. destruct (f (sess m)); by destruct m. Qed.

Lemma keeps_for_eachM {A} (body : A → M R unit) (xs : list A) :
  (∀ x, keeps_load_mode (body x)) → keeps_load_mode (for_eachM body xs).
Proof.
  intros Hb. induction xs as [|x xs IH]; simpl.
  - apply keeps_ret.
  - apply keeps_bindM; [apply Hb | intros _; apply IH].
Qed.

Lemma keeps_set_optimizer o : keeps_load_mode (modify (set_optimizer o)).
Proof. intros m. by destruct m. Qed.

Lemma keeps_construct_scaler : keeps_load_mode construct_scaler.
Proof.
  intros m. unfold construct_scaler.
  destruct (TensorStandardScaler _ _ _) as [[sc s']|e]; by destruct m.
Qed.

Lemma keeps_construct_layer init i : keeps_load_mode (construct_layer init i).
Proof.
  intros m. unfold construct_layer.
  destruct (layers m !! i) as [l|]; [|done].
  destruct (construct_vars _ _ _ _) as [[l' s']|e]; by destruct m.
Qed.

Lemma keeps_construct_all init : keeps_load_mode (construct_all init).
Proof.
  unfold construct_all.
  apply keeps_bindM; [apply keeps_construct_scaler | intros _].
  apply keeps_bindM; [apply keeps_gets | intros n].
  apply keeps_for_eachM. intros i. apply keeps_construct_layer.
Qed.

Lemma keeps_collect_nonoptvars : keeps_load_mode collect_nonoptvars.
Proof.
  intros m. unfold collect_nonoptvars. destruct (scaler m); by destruct m.
Qed.

Lemma keeps_setup_training optimizer args :
  keeps_load_mode (setup_training optimizer args).
Proof.
  intros m. unfold setup_training.
  destruct (scaler m), (head (layers m)), (last (layers m)); try done.
  destruct (for_each _ _ _); by destruct m.
Qed.

Lemma keeps_initialize_variables : keeps_load_mode initialize_variables.
Proof. intros m. unfold initialize_variables. apply keeps_in_sess. Qed.

Lemma keeps_setup_prediction : keeps_load_mode setup_prediction.
Proof.
  intros m. unfold setup_prediction.
  destruct (scaler m), (head (layers m)); by destruct m.
Qed.

(** A computation that ends in an exception whenever it starts from a
    model satisfying [P]. *)
Definition raises_from {A} (P : NN R → Prop) (c : M R A) : Prop :=
  ∀ m, P m → ∃ e m', c m = (Raise e, m').

Lemma raises_after {A B} (P : NN R → Prop) (c : M R A) (k : A → M R B) :
  (∀ m, P m → P (c m).2) →
  (∀ a, raises_from P (k a)) →
  raises_from P (bindM c k).
Proof.
  intros Hc Hk m HP. unfold bindM. specialize (Hc m HP).
  destruct (c m) as [[a|e] m']; simpl in *; [by apply Hk | eauto].
Qed.

Lemma raises_first {A B} (P : NN R → Prop) (c : M R A) (k : A → M R B) :
  raises_from P c → raises_from P (bindM c k).
Proof.
  intros Hc m HP. unfold bindM. destruct (Hc m HP) as (e & m' & ->). eauto.
Qed.

(** In load mode, with anything but a numpy archive at [model_dir],
    the loading stage raises. *)
Lemma load_values_raises (fs : gmap string (file R)) (path : string) :
  np_load fs path = Raise ValueError ∨ np_load fs path = Raise IOError →
  raises_from (fun m => load_mode m = (Some path, true, model_loaded m))
              (load_values fs).
Proof.
  intros Hload m HP. unfold load_mode in HP. unfold load_values.
  injection HP as Hdir Hval. rewrite Hdir, Hval, orb_true_r.
  destruct Hload as [-> | ->]; eauto.
Qed.

Lemma finalize_raises_in_load_mode optimizer optimizer_args init
    (fs : gmap string (file R)) (path : string) (m : NN R) :
  np_load fs path = Raise ValueError ∨ np_load fs path = Raise IOError →
  model_dir m = Some path →
  load_model_values m = true →
  ∃ e m', finalize optimizer optimizer_args init fs m = (Raise e, m').
Proof.
  intros Hload Hdir Hval. unfold finalize.
  destruct (length (layers m) =? 0); [eauto|].
  destruct (finalized m); [eauto|].
  set (P := fun m : NN R => load_mode m = (Some path, true, model_loaded m)).
  assert (Hkeep : ∀ A (c : M R A), keeps_load_mode c → ∀ m, P m → P (c m).2).
  { intros A c Hc m0 HP. unfold P in *. rewrite (Hc m0).
    rewrite HP. f_equal.
    specialize (Hc m0). unfold load_mode in Hc. congruence. }
  assert (HP : P m) by (unfold P, load_mode; by rewrite Hdir, Hval).
  clear Hdir Hval. revert m HP. cbv zeta.
  match goal with |- ∀ m, P m → ∃ e m', ?c m = _ => change (raises_from P c) end.
  apply raises_after; [apply Hkeep, keeps_set_optimizer | intros _].
  apply raises_after; [apply Hkeep, keeps_construct_all | intros _].
  apply raises_after; [apply Hkeep, keeps_collect_nonoptvars | intros _].
  apply raises_after; [apply Hkeep, keeps_setup_training | intros _].
  apply raises_after; [apply Hkeep, keeps_initialize_variables | intros _].
  apply raises_after; [apply Hkeep, keeps_setup_prediction | intros _].
  apply raises_first. by apply load_values_raises.
Qed.

(** C2: what [save] writes cannot be restored.  After a successful
    [save] of any model, [finalize] raises on every model in load mode
    whose [model_dir] is the parameter archive just written: the archive
    is not in a format that [np.load] reads. *)
Theorem saved_archive_not_restorable (m : NN R) (dir : string)
    (fs fs' : gmap string (file R)) optimizer optimizer_args init (m2 : NN R) :
  save (Some dir) m fs = (Return tt, fs') →
  model_dir m2 = Some (path_join dir (name m +:+ ".mat")) →
  load_model_values m2 = true →
  ∃ e m2', finalize optimizer optimizer_args init fs' m2 = (Raise e, m2').
Proof.
  intros Hsave Hdir Hval.
  eapply finalize_raises_in_load_mode; [left | exact Hdir | exact Hval].
  unfold save in Hsave. destruct (negb (finalized m)); [done|].
  destruct (map_outcome _ _) as [vals|e]; [|done].
  injection Hsave as <-. unfold np_load. by rewrite lookup_insert_eq.
Qed.

End Finalize.

(** The finalized demo model refuses a second [finalize], and the empty
    one a first. *)
Lemma finalize_guarded_witness :
  finalize QModel.frozen None QModel.diag_init ∅ Demo.ready
    = (Raise RuntimeError, Demo.ready) ∧
  finalize QModel.frozen None QModel.diag_init ∅ Demo.empty
    = (Raise RuntimeError, Demo.empty).
Proof.
  split.
  - apply finalize_guarded. left. vm_compute. reflexivity.
  - apply finalize_guarded. right. reflexivity.
Defined.

(** The finalized demo model is saved into ["out"]; the loader pointed at
    ["out/dyn.mat"] cannot be finalized. *)
Lemma saved_archive_not_restorable_witness :
  ∃ e m2',
    finalize QModel.frozen None QModel.diag_init
      (save (Some "out") Demo.ready ∅).2 Demo.loader = (Raise e, m2').
Proof.
  apply (saved_archive_not_restorable Demo.ready "out" ∅).
  - vm_compute. reflexivity.
  - reflexivity.
  - reflexivity.
Defined.

(** ** Use before [finalize] *)

Section Unfinalized.
Context {R : Type} {AR : Arith R} {G : Type} {NR : NumpyRandom G}.

(** A model whose scaler and prediction handles are unset, as
    [__init__] leaves them and [add] and [pop] keep them: [train] and
    [predict] raise on it. *)
Lemma unbuilt_model_fails (m : NN R) inputs targets batch_size epochs
    hide_progress holdout_ratio max_logging (g : G) x factored :
  scaler m = None →
  sy_pred_mean2d_fac m = None → sy_pred_mean2d m = None →
  sy_pred_mean3d_fac m = None →
  is_Return (train inputs targets batch_size epochs hide_progress
               holdout_ratio max_logging g m).1 = false ∧
  is_Return (predict x factored m) = false.
Proof.
  intros Hsc H2f H2 H3. split.
  - unfold train, bindM, lift, gets, fit_scaler.
    repeat (match goal with
            | |- context [take_rows ?a ?b] => destruct (take_rows a b); [|done]
            end).
    by rewrite Hsc.
  - unfold predict, sess_run. rewrite H2f, H2, H3.
    destruct x; by destruct factored.
Qed.

End Unfinalized.

(** C5: a model that is not finalized can predict and train.  The demo
    loader finds no archive, so [finalize] raises after the graph is built
    and the model stays unfinalized; [predict] then returns the ensemble
    mean and variance of the freshly initialized networks, and [train]
    runs to its end. *)
Theorem unfinalized_model_predicts_and_trains :
  finalize QModel.frozen None QModel.diag_init ∅ Demo.loader
    = (Raise IOError, Demo.stranded) ∧
  finalized Demo.stranded = false ∧
  predict (T2 [[1; 2]; [3; 5]]%Q) false Demo.stranded
    = Return (T2 [[5 # 2]; [15 # 2]], Some (T2 [[9 # 4]; [81 # 4]])) ∧
  is_Return (train Demo.X Demo.Y 2 2 false (3 # 10) 5000 0%nat Demo.stranded).1 = true.
Proof.
  split; [|split; [|split]].
  - unfold Demo.stranded.
    destruct (finalize _ _ _ _ _) as [r m'] eqn:E.
    assert (Hr : r = (finalize QModel.frozen None QModel.diag_init ∅ Demo.loader).1)
      by (by rewrite E).
    rewrite Hr. f_equal.
  - vm_compute. reflexivity.
  - vm_compute. reflexivity.
  - vm_compute. reflexivity.
Qed.

(** ** Slices, row selection and [argsort] *)

Lemma slice_bound_le (n : nat) (k : Z) : slice_bound n k ≤ n.
Proof. unfold slice_bound. destruct (k <? 0)%Z eqn:E; lia. Qed.

Lemma slice_to_from {A} (k : Z) (xs : list A) :
  slice_to k xs ++ slice_from k xs = xs.
Proof. apply take_drop. Qed.

Lemma slice_to_length {A} (k : Z) (xs : list A) :
  length (slice_to k xs) = slice_bound (length xs) k.
Proof.
  unfold slice_to. rewrite length_take.
  pose proof (slice_bound_le (length xs) k). lia.
Qed.

Lemma slice_from_length {A} (k : Z) (xs : list A) :
  length (slice_from k xs) = length xs - slice_bound (length xs) k.
Proof. unfold slice_from. by rewrite length_drop. Qed.

Lemma map_outcome_Return {A B} (f : A → outcome B) (xs : list A) (ys : list B) :
  map_outcome f xs = Return ys → Forall2 (fun x y => f x = Return y) xs ys.
Proof.
  revert ys. induction xs as [|x xs IH]; intros ys H; simpl in H.
  - injection H as <-. constructor.
  - destruct (f x) as [y|e] eqn:Ef; [|done]. simpl in H.
    destruct (map_outcome f xs) as [ys'|e]; [|done]. simpl in H.
    injection H as <-. constructor; [done | by apply IH].
Qed.

Lemma map_outcome_total {A B} (f : A → outcome B) (xs : list A) :
  Forall (fun x => ∃ y, f x = Return y) xs → ∃ ys, map_outcome f xs = Return ys.
Proof.
  induction 1 as [|x xs [y Hy] _ [ys IH]]; simpl; [eauto|].
  rewrite Hy, IH. simpl. eauto.
Qed.

Lemma take_rows_Return {A} (arr : list A) (idxs : list nat) (rows : list A) :
  take_rows arr idxs = Return rows →
  Forall2 (fun i r => arr !! i = Some r) idxs rows.
Proof.
  intros H. apply map_outcome_Return in H.
  eapply Forall2_impl; [exact H|]. simpl. intros i r Hi.
  destruct (arr !! i); by simplify_eq.
Qed.

Lemma take_rows_length {A} (arr : list A) (idxs : list nat) (rows : list A) :
  take_rows arr idxs = Return rows → length rows = length idxs.
Proof. intros H. apply take_rows_Return in H. symmetry. by eapply Forall2_length. Qed.


Lemma take_rows_total {A} (arr : list A) (idxs : list nat) :
  Forall (fun i => i < length arr) idxs → ∃ rows, take_rows arr idxs = Return rows.
Proof.
  intros H. apply map_outcome_total.
  eapply Forall_impl; [exact H|]. simpl. intros i Hi.
  destruct (lookup_lt_is_Some_2 arr i Hi) as [r ->]. eauto.
Qed.

(** Selecting the rows at the positions [seq 0 n] gives the array back. *)
Lemma take_rows_seq {A} (arr : list A) :
  take_rows arr (seq 0 (length arr)) = Return arr.
Proof.
  unfold take_rows.
  assert (H : ∀ pre, map_outcome
                (fun i => match (pre ++ arr) !! i with
                          | Some r => Return r
                          | None => Raise IndexError
                          end) (seq (length pre) (length arr)) = Return arr).
  { induction arr as [|a arr IH]; intros pre; [done|]. simpl.
    rewrite lookup_app_r, Nat.sub_diag by lia. simpl.
    specialize (IH (pre ++ [a])). rewrite length_app, <- app_assoc in IH.
    simpl in IH. rewrite Nat.add_1_r in IH. by rewrite IH. }
  apply (H []).
Qed.

(** Selecting rows at permuted positions permutes the rows. *)
Lemma take_rows_Permutation {A} (arr : list A) (p q : list nat) (rows : list A) :
  Permutation p q →
  take_rows arr p = Return rows →
  ∃ rows', take_rows arr q = Return rows' ∧ Permutation rows rows'.
Proof.
  intros Hp. revert rows. unfold take_rows.
  induction Hp as [|x p q _ IH|x y p|p q r _ IH1 _ IH2]; intros rows H; simpl in *.
  - eauto.
  - destruct (arr !! x); [|done]. simpl in *.
    destruct (map_outcome _ p) as [ps|]; [|done]. simpl in H. injection H as <-.
    destruct (IH ps eq_refl) as (qs & -> & Hq). simpl. eauto.
  - destruct (arr !! y), (arr !! x); try done; simpl in *.
    destruct (map_outcome _ p) as [ps|]; [|done]. simpl in *. injection H as <-.
    eexists. split; [done|]. apply perm_swap.
  - destruct (IH1 rows H) as (r1 & H1 & Hp1).
    destruct (IH2 r1 H1) as (r2 & H2 & Hp2).
    exists r2. split; [done|]. by etrans.
Qed.

Lemma insert_by_key_Permutation (x : Q * nat) (xs : list (Q * nat)) :
  Permutation (insert_by_key x xs) (x :: xs).
Proof.
  induction xs as [|y ys IH]; simpl; [done|].
  destruct (Qle_bool x.1 y.1); [done|].
  rewrite IH. apply perm_swap.
Qed.

Lemma sort_by_key_Permutation (xs : list (Q * nat)) :
  Permutation (sort_by_key xs) xs.
Proof.
  induction xs as [|x xs IH]; simpl; [done|].
  rewrite insert_by_key_Permutation. by constructor.
Qed.

(** [argsort] returns a permutation of the positions of its argument. *)
Lemma argsort_Permutation (row : list Q) :
  Permutation (argsort row) (seq 0 (length row)).
Proof.
  unfold argsort. rewrite sort_by_key_Permutation.
  rewrite snd_zip; [done|]. by rewrite length_seq.
Qed.

(** One shuffled row holds the same indices as before, as a multiset. *)
Lemma shuffle_row_Permutation (row : list nat) (u : list Q) (row' : list nat) :
  length u = length row →
  take_rows row (argsort u) = Return row' →
  Permutation row' row.
Proof.
  intros Hlen H.
  destruct (take_rows_Permutation row _ _ _ (argsort_Permutation u) H)
    as (rows' & H' & Hp).
  rewrite Hlen, take_rows_seq in H'. injection H' as <-. done.
Qed.

Lemma shuffle_rows_Permutation (arr : list (list nat)) (u : list (list Q))
    (arr' : list (list nat)) (cols : nat) :
  length u = length arr →
  Forall (fun row => length row = cols) arr →
  Forall (fun row => length row = cols) u →
  shuffle_rows arr u = Return arr' →
  Forall2 Permutation arr' arr.
Proof.
  intros Hlen Harr Hu H. unfold shuffle_rows in H.
  apply map_outcome_Return in H.
  revert u Hlen Hu arr' H.
  induction Harr as [|row arr Hrow _ IH]; intros u Hlen Hu arr' H.
  - destruct u; [|done]. simpl in H. inversion H. constructor.
  - destruct u as [|ur u]; [done|]. simpl in H.
    inversion H as [|? r' ? rs' Hr Hrs]; subst. simpl in Hr.
    inversion Hu; subst.
    constructor.
    + eapply shuffle_row_Permutation; [|exact Hr]. congruence.
    + apply (IH u); [simpl in Hlen; lia | done | done].
Qed.

(** ** What a call to [train] does *)

Section TrainFacts.
Context {R : Type} {AR : Arith R} {G : Type} {NR : NumpyRandom G}.

Lemma bindM_Return {A B} (c : M R A) (k : A → M R B) (m m' : NN R) (b : B) :
  bindM c k m = (Return b, m') →
  ∃ a m1, c m = (Return a, m1) ∧ k a m1 = (Return b, m').
Proof.
  unfold bindM. destruct (c m) as [[a|e] m1]; [eauto|done].
Qed.

Lemma lift_Return {A} (o : outcome A) (m m1 : NN R) (a : A) :
  lift o m = (Return a, m1) → o = Return a ∧ m1 = m.
Proof. unfold lift. intros H. by simplify_eq. Qed.

Lemma ret_Return {A} (a b : A) (m m1 : NN R) :
  ret a m = (Return b, m1) → b = a ∧ m1 = m.
Proof. unfold ret. intros H. by simplify_eq. Qed.

(** The index batches of an epoch that starts from [idxs]. *)
Definition batches_of (batch_size : Z) (idxs : list (list nat)) (batches : list nat)
    : list (list (list nat)) :=
  map (fun k => columns (Z.of_nat k * batch_size) ((Z.of_nat k + 1) * batch_size) idxs)
      batches.

Lemma mapM_train_batch (inputs targets : mat R) (batch_size : Z)
    (idxs : list (list nat)) (batches : list nat) (m m' : NN R) fed :
  mapM (train_batch inputs targets batch_size idxs) batches m = (Return fed, m') →
  fed = batches_of batch_size idxs batches ∧
  Forall (fun b => ∃ x, take_rows2 inputs b = Return x) fed.
Proof.
  revert m m' fed. induction batches as [|k batches IH]; intros m m' fed H; simpl in H.
  - apply ret_Return in H as [-> _]. by split.
  - apply bindM_Return in H as (b & m1 & Hb & H).
    apply bindM_Return in H as (bs & m2 & Hbs & H).
    apply ret_Return in H as [-> _].
    apply IH in Hbs as [-> Hall].
    unfold train_batch in Hb.
    apply bindM_Return in Hb as (x & m3 & Hx & Hb). apply lift_Return in Hx as [Hx ->].
    apply bindM_Return in Hb as (t & m4 & Ht & Hb). apply lift_Return in Ht as [Ht ->].
    apply bindM_Return in Hb as (u & m5 & Hu & Hb).
    apply ret_Return in Hb as [-> _].
    split; [done|]. constructor; eauto.
Qed.

(** One epoch that returns: its log holds the index matrix it started
    from and the batches cut from it, and the matrix it hands on is the
    shuffle of the one it started from. *)
Lemma train_epoch_Return (inputs targets : mat R) hold_in hold_targ
    batch_size hide_progress holdout_ratio max_logging idxs (g : G)
    (m m' : NN R) e idxs' g' :
  train_epoch inputs targets hold_in hold_targ batch_size hide_progress
    holdout_ratio max_logging idxs g m = (Return (e, idxs', g'), m') →
  ∃ batches,
    batch_range (length inputs) batch_size = Return batches ∧
    epoch_idxs e = idxs ∧
    epoch_batches e = batches_of batch_size idxs batches ∧
    Forall (fun b => ∃ x, take_rows2 inputs b = Return x) (epoch_batches e) ∧
    shuffle_rows idxs (np_random_uniform (length idxs) (length inputs) g).1
      = Return idxs'.
Proof.
  unfold train_epoch. intros H.
  apply bindM_Return in H as (batches & m1 & Hb & H). apply lift_Return in Hb as [Hb ->].
  apply bindM_Return in H as (fed & m2 & Hfed & H).
  apply bindM_Return in H as (sh & m3 & Hsh & H). apply lift_Return in Hsh as [Hsh ->].
  apply bindM_Return in H as (u & m4 & _ & H).
  apply ret_Return in H as [H _]. injection H as -> -> _.
  apply mapM_train_batch in Hfed as [-> Hall]. simpl.
  exists batches. auto.
Qed.

(** The epochs of a run that starts from [idxs0] and ends with [final]:
    each epoch starts from the index matrix the one before handed on,
    which is a row-wise permutation of that one's. *)
Fixpoint epochs_chain (inputs : mat R) (batch_size : Z) (batches : list nat)
    (idxs0 : list (list nat)) (es : list EpochLog) (final : list (list nat)) : Prop :=
  match es with
  | [] => final = idxs0
  | e :: es' =>
      epoch_idxs e = idxs0 ∧
      epoch_batches e = batches_of batch_size idxs0 batches ∧
      Forall (fun b => ∃ x, take_rows2 inputs b = Return x) (epoch_batches e) ∧
      ∃ idxs1, Forall2 Permutation idxs1 idxs0 ∧
               epochs_chain inputs batch_size batches idxs1 es' final
  end.

Lemma Forall2_Permutation_shape (a b : list (list nat)) (cols : nat) :
  Forall2 Permutation a b →
  Forall (fun row => length row = cols) b →
  Forall (fun row => length row = cols) a.
Proof.
  induction 1 as [|x y a b Hxy _ IH]; intros Hb; [done|].
  inversion Hb; subst. constructor; [|by apply IH].
  by rewrite Hxy.
Qed.

Lemma Forall2_Permutation_trans (a b c : list (list nat)) :
  Forall2 Permutation a b → Forall2 Permutation b c → Forall2 Permutation a c.
Proof.
  intros Hab. revert c. induction Hab as [|x y a b Hxy _ IH]; intros c Hbc.
  - by inversion Hbc.
  - inversion Hbc; subst. constructor; [by etrans | by apply IH].
Qed.

Lemma Forall2_Permutation_refl (a : list (list nat)) : Forall2 Permutation a a.
Proof. induction a; by constructor. Qed.

Lemma train_epochs_Return (n : nat) (inputs targets : mat R) hold_in hold_targ
    batch_size hide_progress holdout_ratio max_logging idxs (g : G)
    (m m' : NN R) es final g' :
  Forall (fun row => length row = length inputs) idxs →
  train_epochs n inputs targets hold_in hold_targ batch_size hide_progress
    holdout_ratio max_logging idxs g m = (Return (es, final, g'), m') →
  length es = n ∧
  (n = 0 ∨ ∃ batches,
     batch_range (length inputs) batch_size = Return batches ∧
     epochs_chain inputs batch_size batches idxs es final) ∧
  (n = 0 → final = idxs).
Proof.
  revert idxs g m m' es final g'.
  induction n as [|n IH]; intros idxs g m m' es final g' Hshape H; simpl in H.
  - apply ret_Return in H as [H _]. injection H as -> -> _. auto.
  - apply bindM_Return in H as ([[e idxs1] g1] & m1 & He & H).
    apply bindM_Return in H as ([[rest fin] g2] & m2 & Hrest & H).
    apply ret_Return in H as [H _]. simpl in H. injection H as -> -> _.
    apply train_epoch_Return in He as (batches & Hb & Hidx & Hbat & Hall & Hsh).
    assert (Hperm : Forall2 Permutation idxs1 idxs).
    { destruct (draw_uniform_shape (length idxs) (length inputs) g) as [Hl Hu].
      eapply shuffle_rows_Permutation; [exact Hl | exact Hshape | exact Hu | exact Hsh]. }
    assert (Hshape1 : Forall (fun row => length row = length inputs) idxs1)
      by (by eapply Forall2_Permutation_shape).
    simpl in Hrest.
    apply IH in Hrest as (Hlen & Hchain & Hzero); [|done].
    split; [simpl; lia|]. split; [|done].
    right. exists batches. split; [done|]. simpl.
    split; [done|]. split; [done|]. split; [done|].
    exists idxs1. split; [done|].
    destruct Hchain as [-> | (batches' & Hb' & Hchain)].
    + destruct rest; [|done]. simpl. by apply Hzero.
    + rewrite Hb in Hb'. by injection Hb' as <-.
Qed.

(** Every epoch of a chain starts from a row-wise permutation of the
    first index matrix, and so does what the chain hands on. *)
Lemma epochs_chain_Permutation (inputs : mat R) batch_size batches idxs0 es final :
  epochs_chain inputs batch_size batches idxs0 es final →
  Forall (fun e => Forall2 Permutation (epoch_idxs e) idxs0 ∧
                   epoch_batches e = batches_of batch_size (epoch_idxs e) batches ∧
                   Forall (fun b => ∃ x, take_rows2 inputs b = Return x)
                          (epoch_batches e)) es ∧
  Forall2 Permutation final idxs0.
Proof.
  revert idxs0. induction es as [|e es IH]; intros idxs0 H; simpl in H.
  - subst. split; [constructor | apply Forall2_Permutation_refl].
  - destruct H as (Hi & Hb & Hall & idxs1 & Hp & Hchain).
    apply IH in Hchain as [Hes Hfin]. split.
    + constructor.
      * rewrite Hi. split; [apply Forall2_Permutation_refl | by split].
      * eapply Forall_impl; [exact Hes|]. simpl. intros e' (H1 & H2 & H3).
        split; [by eapply Forall2_Permutation_trans | by split].
    + by eapply Forall2_Permutation_trans.
Qed.

End TrainFacts.

Section TrainCall.
Context {R : Type} {AR : Arith R} {G : Type} {NR : NumpyRandom G}.

Lemma gets_Return {A} (f : NN R → A) (m m1 : NN R) (a : A) :
  gets f m = (Return a, m1) → a = f m ∧ m1 = m.
Proof. unfold gets. intros H. by simplify_eq. Qed.

(** The number of rows that [train] asks to hold out. *)
Definition num_holdout (inputs : mat R) (holdout_ratio : Q) (max_logging : Z) : Z :=
  Z.min (py_int (Qmake (Z.of_nat (length inputs)) 1 * holdout_ratio)) max_logging.

(** A call that returns, taken apart. *)
Lemma train_Return (inputs targets : mat R) batch_size epochs hide_progress
    holdout_ratio max_logging (g : G) (m m' : NN R) log g' :
  train inputs targets batch_size epochs hide_progress holdout_ratio max_logging g m
    = (Return (log, g'), m') →
  let permutation := (np_random_permutation (length inputs) g).1 in
  let g0 := (np_random_permutation (length inputs) g).2 in
  let nh := num_holdout inputs holdout_ratio max_logging in
  ∃ targets' hin htarg m1,
    retained_rows log = slice_from nh permutation ∧
    holdout_rows log = slice_to nh permutation ∧
    take_rows inputs (retained_rows log) = Return (fitted_on log) ∧
    take_rows inputs (holdout_rows log) = Return hin ∧
    take_rows targets (retained_rows log) = Return targets' ∧
    take_rows targets (holdout_rows log) = Return htarg ∧
    holdout_inputs log = replicate (num_nets m) hin ∧
    holdout_targets log = replicate (num_nets m) htarg ∧
    fit_scaler (fitted_on log) m = (Return tt, m1) ∧
    (np_random_randint (length (fitted_on log)) (num_nets m)
       (length (fitted_on log)) g0).1 = Return (bootstrap log) ∧
    train_epochs (Z.to_nat epochs) (fitted_on log) targets'
      (holdout_inputs log) (holdout_targets log) batch_size hide_progress
      holdout_ratio max_logging (bootstrap log)
      (np_random_randint (length (fitted_on log)) (num_nets m)
         (length (fitted_on log)) g0).2 m1
      = (Return (epochs_run log, final_idxs log, g'), m').
Proof.
  unfold train. fold (num_holdout inputs holdout_ratio max_logging). intros H.
  apply bindM_Return in H as (inputs' & m0 & Hi & H). apply lift_Return in Hi as [Hi ->].
  apply bindM_Return in H as (hin & m0 & Hh & H). apply lift_Return in Hh as [Hh ->].
  apply bindM_Return in H as (targets' & m0 & Ht & H). apply lift_Return in Ht as [Ht ->].
  apply bindM_Return in H as (htarg & m0 & Hht & H). apply lift_Return in Hht as [Hht ->].
  apply bindM_Return in H as (M_ & m0 & HM & H). apply gets_Return in HM as [-> ->].
  apply bindM_Return in H as ([] & m1 & Hfit & H).
  apply bindM_Return in H as (idxs & m0 & Hr & H). apply lift_Return in Hr as [Hr ->].
  apply bindM_Return in H as ([[es fin] g2] & m2 & He & H).
  apply ret_Return in H as [H ->]. injection H as -> ->. simpl.
  exists targets', hin, htarg, m1. repeat split; done.
Qed.

(** A call that returns drew its bootstrap sample over at least one row,
    one index row per network, every index below the number of retained
    rows. *)
Lemma train_Return_bootstrap (inputs targets : mat R) batch_size epochs
    hide_progress holdout_ratio max_logging (g : G) (m m' : NN R) log g' :
  train inputs targets batch_size epochs hide_progress holdout_ratio max_logging g m
    = (Return (log, g'), m') →
  1 ≤ length (retained_rows log) ∧
  length (fitted_on log) = length (retained_rows log) ∧
  length (bootstrap log) = num_nets m ∧
  Forall (fun row => length row = length (retained_rows log) ∧
                     Forall (fun i => i < length (retained_rows log)) row)
         (bootstrap log).
Proof.
  intros H. apply train_Return in H.
  destruct H as (targets' & hin & htarg & m1 & _ & _ & Hfit & _ & _ & _ & _ & _ & _ & Hr & _).
  apply take_rows_length in Hfit. rewrite <- Hfit.
  unfold np_random_randint in Hr.
  destruct (length (fitted_on log) =? 0) eqn:E; [done|].
  apply Nat.eqb_neq in E. simpl in Hr. injection Hr as Hr.
  destruct (draw_integers_shape (length (fitted_on log)) (num_nets m)
              (length (fitted_on log))
              (np_random_permutation (length inputs) g).2) as [Hl Hs]; [lia|].
  rewrite Hr in Hl, Hs. repeat split; [lia | done | done].
Qed.

End TrainCall.

(** ** Holdout carving *)




Section Holdout.
Context {R : Type} {AR : Arith R} {G : Type} {NR : NumpyRandom G}.


End Holdout.

(** ** Epochs and batches *)

(** [ceil(n / b)] for a positive [b], on integers. *)
Definition ceil_div (n b : Z) : Z := ((n + b - 1) / b)%Z.

(** The [k]-th consecutive chunk of [size] entries of a row. *)
Definition chunk {A} (size k : nat) (row : list A) : list A :=
  take size (drop (k * size) row).

Lemma py_ceil_div (n b : Z) :
  (0 < b)%Z → py_ceil (Qmake n 1 / inject_Z b) = ceil_div n b.
Proof.
  intros Hb. destruct b as [|p|p]; try lia.
  unfold py_ceil, ceil_div, Qdiv, Qinv, inject_Z. simpl.
  rewrite Z.mul_1_r, Pos.mul_1_l.
  pose proof (Z.div_mod (- n) (Z.pos p) ltac:(lia)) as Hdm.
  pose proof (Z.mod_pos_bound (- n) (Z.pos p) ltac:(lia)) as Hr.
  set (q := (- n / Z.pos p)%Z) in *. set (r := (- n mod Z.pos p)%Z) in *.
  apply (Z.div_unique_pos _ _ _ (Z.pos p - 1 - r)%Z); lia.
Qed.

Lemma slice_chunk {A} (row : list A) (size : Z) (k : nat) :
  (0 < size)%Z →
  slice (Z.of_nat k * size) ((Z.of_nat k + 1) * size) row
    = chunk (Z.to_nat size) k row.
Proof.
  intros Hs. unfold slice, chunk, slice_bound.
  assert (H1 : (0 ≤ Z.of_nat k * size)%Z) by nia.
  assert (H2 : (0 ≤ (Z.of_nat k + 1) * size)%Z) by nia.
  destruct (Z.of_nat k * size <? 0)%Z eqn:E1; [apply Z.ltb_lt in E1; lia|].
  destruct ((Z.of_nat k + 1) * size <? 0)%Z eqn:E2; [apply Z.ltb_lt in E2; lia|].
  replace (Z.to_nat (Z.of_nat k * size)) with (k * Z.to_nat size) by nia.
  replace (Z.to_nat ((Z.of_nat k + 1) * size))
    with (k * Z.to_nat size + Z.to_nat size) by nia.
  set (s := Z.to_nat size). set (n := length row).
  destruct (decide (k * s ≤ n)) as [Hle|Hgt].
  - rewrite (Nat.min_l (k * s) n) by lia.
    destruct (decide (k * s + s ≤ n)).
    + rewrite Nat.min_l by lia. f_equal. lia.
    + rewrite Nat.min_r by lia.
      rewrite !take_ge; [done | rewrite length_drop; fold n; lia ..].
  - rewrite !Nat.min_r by lia.
    rewrite !drop_ge by (fold n; lia). by rewrite !take_nil.
Qed.

Section Epochs.
Context {R : Type} {AR : Arith R} {G : Type} {NR : NumpyRandom G}.




End Epochs.

(** ** The demo call to [train] *)

Lemma pair_of_fst {A B} (p : A * B) (a : A) : p.1 = a → p = (a, p.2).
Proof. destruct p. simpl. by intros ->. Defined.

Lemma run1_returns : Demo.run1 = (Return (Demo.log1, 4), Demo.run1.2).
Proof. apply pair_of_fst. vm_compute. reflexivity. Defined.




(** ** The training loss *)

Section Loss.
Context {R : Type} {AR : Arith R}.

(** Entry [(b, o)] of a matrix and entry [(a, b, o)] of a rank-3 tensor. *)
Definition entry (p : mat R) (b o : nat) : R := nth o (nth b p []) rzero.
Definition entry3 (t : ten3 R) (a b o : nat) : R := entry (nth a t []) b o.








Lemma tabulate_nth {A} (l : list A) (d : A) :
  map (fun i => nth i l d) (seq 0 (length l)) = l.
Proof.
  apply list_eq. intros i. rewrite list_lookup_fmap.
  destruct (decide (i < length l)) as [Hlt|Hge].
  - rewrite lookup_seq_lt by done. simpl.
    destruct (lookup_lt_is_Some_2 l i Hlt) as [x Hx].
    by rewrite Hx, (nth_lookup_Some _ _ _ _ Hx).
  - rewrite lookup_seq_ge by lia. simpl. symmetry. apply lookup_ge_None. lia.
Qed.





Lemma has_shape1_spec (n : nat) (v : vec R) : has_shape1 n v = true ↔ length v = n.
Proof. unfold has_shape1. apply Nat.eqb_eq. Qed.

Lemma has_shape2_spec (n k : nat) (m : mat R) :
  has_shape2 n k m = true ↔ length m = n ∧ Forall (fun r => length r = k) m.
Proof.
  unfold has_shape2. rewrite andb_true_iff, Nat.eqb_eq, forallb_forall, Forall_forall.
  split; intros [H1 H2]; (split; [done|]); intros r Hr.
  - apply has_shape1_spec, H2. by apply list_elem_of_In.
  - apply has_shape1_spec, H2. by apply list_elem_of_In.
Qed.

Lemma has_shape3_spec (a n k : nat) (t : ten3 R) :
  has_shape3 a n k t = true ↔
  length t = a ∧ Forall (fun m => length m = n ∧ Forall (fun r => length r = k) m) t.
Proof.
  unfold has_shape3. rewrite andb_true_iff, Nat.eqb_eq, forallb_forall, Forall_forall.
  split; intros [H1 H2]; (split; [done|]); intros r Hr.
  - apply has_shape2_spec, H2. by apply list_elem_of_In.
  - apply has_shape2_spec, H2. by apply list_elem_of_In.
Qed.

Lemma nth_Forall {A} (P : A → Prop) (l : list A) (i : nat) (d : A) :
  Forall P l → i < length l → P (nth i l d).
Proof.
  intros H Hi. destruct (lookup_lt_is_Some_2 l i Hi) as [x Hx].
  rewrite (nth_lookup_Some _ _ _ _ Hx).
  eapply Forall_lookup_1; eauto.
Qed.

Lemma nth_zip_with {A B C} (f : A → B → C) (l : list A) (k : list B) (i : nat)
    (da : A) (db : B) (dc : C) :
  i < length l → i < length k →
  nth i (zip_with f l k) dc = f (nth i l da) (nth i k db).
Proof.
  intros Hl Hk.
  destruct (lookup_lt_is_Some_2 l i Hl) as [x Hx].
  destruct (lookup_lt_is_Some_2 k i Hk) as [y Hy].
  rewrite (nth_lookup_Some _ _ _ _ Hx), (nth_lookup_Some _ _ _ _ Hy).
  apply nth_lookup_Some. rewrite lookup_zip_with, Hx. simpl. by rewrite Hy.
Qed.

Lemma nth_map' {A B} (f : A → B) (l : list A) (i : nat) (da : A) (db : B) :
  i < length l → nth i (map f l) db = f (nth i l da).
Proof.
  intros Hl. destruct (lookup_lt_is_Some_2 l i Hl) as [x Hx].
  rewrite (nth_lookup_Some _ _ _ _ Hx).
  apply nth_lookup_Some. by rewrite list_lookup_fmap, Hx.
Qed.




End Loss.



(** ** Shapes through the network *)

Section Shapes.
Context {R : Type} {AR : Arith R}.

(** A variable that is declared with shape [sh] and holds a value of
    that shape. *)
Definition var_ok (s : Session R) (name : string) (sh : list nat) : Prop :=
  ∃ init v,
    declared s !! name = Some (sh, init) ∧ has_shape sh init = true ∧
    store s !! name = Some v ∧ has_shape sh v = true.

(** A constructed layer of [M] members and input dimension [d] whose
    weights and biases are such variables. *)
Definition layer_ok (s : Session R) (M d : nat) (l : Layer R) : Prop :=
  input_dim l = Some d ∧ ensemble_size l = Some M ∧
  ∃ w b, weights l = Some w ∧ biases l = Some b ∧
         var_ok s w [M; d; output_dim l] ∧ var_ok s b [M; 1; output_dim l].

(** A chain of such layers, each taking what the one before puts out. *)
Fixpoint layers_ok (s : Session R) (M d : nat) (ls : list (Layer R)) : Prop :=
  match ls with
  | [] => True
  | l :: ls' => layer_ok s M d l ∧ layers_ok s M (output_dim l) ls'
  end.

Definition scaler_ok (s : Session R) (sc : Scaler) : Prop :=
  var_ok s (mu sc) [scaler_dim sc] ∧ var_ok s (sigma sc) [scaler_dim sc].

(** The output dimension of a chain that starts at dimension [d]. *)
Definition chain_output (d : nat) (ls : list (Layer R)) : nat :=
  match last ls with
  | Some l => output_dim l
  | None => d
  end.

Lemma read3_ok (s : Session R) (w : string) (a n k : nat) :
  var_ok s w [a; n; k] →
  ∃ W, read3 (Some w) s = Return W ∧ has_shape3 a n k W = true.
Proof.
  intros (init & v & _ & _ & Hv & Hsh). unfold read3, read. rewrite Hv. simpl.
  destruct v; try done. eauto.
Qed.

Lemma read1_ok (s : Session R) (w : string) (n : nat) :
  var_ok s w [n] →
  ∃ v, read1 (Some w) s = Return v ∧ length v = n.
Proof.
  intros (init & v & _ & _ & Hv & Hsh). unfold read1, read. rewrite Hv. simpl.
  destruct v; try done. simpl in Hsh. apply has_shape1_spec in Hsh. eauto.
Qed.

Lemma vadd_length (a b : vec R) (n : nat) :
  length a = n → length b = n → length (vadd a b) = n.
Proof. intros Ha Hb. unfold vadd. rewrite length_zip_with. lia. Qed.

Lemma vecmat_length (out : nat) (x : vec R) (W : mat R) :
  Forall (fun r => length r = out) W → length (vecmat out x W) = out.
Proof.
  intros HW. unfold vecmat.
  assert (Hacc : length (replicate out (rzero : R)) = out) by apply length_replicate.
  revert Hacc. generalize (replicate out (rzero : R)) as acc.
  revert x. induction HW as [|r W Hr _ IH]; intros x acc Hacc.
  - by destruct x.
  - destruct x as [|x0 x]; [done|]. simpl. apply IH.
    apply vadd_length; [done|]. by rewrite length_map.
Qed.

Lemma matmul_shape (out : nat) (X W : mat R) :
  Forall (fun r => length r = out) W →
  length (matmul out X W) = length X ∧
  Forall (fun r => length r = out) (matmul out X W).
Proof.
  intros HW. unfold matmul. split; [by rewrite length_map|].
  apply Forall_map, Forall_forall. intros x _. simpl. by apply vecmat_length.
Qed.

Lemma member_output_shape (l : Layer R) (x W b : mat R) (d : nat) :
  length W = d ∧ Forall (fun r => length r = output_dim l) W →
  length b = 1 ∧ Forall (fun r => length r = output_dim l) b →
  length (member_output l x W b) = length x ∧
  Forall (fun r => length r = output_dim l) (member_output l x W b).
Proof.
  intros [_ HW] [Hb1 Hb].
  destruct b as [|b0 [|]]; try done. inversion Hb as [|? ? Hb0 _]; subst. simpl.
  destruct (matmul_shape (output_dim l) x W HW) as [Hlen Hrows].
  assert (H : length (map (fun row => vadd row b0) (matmul (output_dim l) x W)) = length x ∧
              Forall (fun r => length r = output_dim l)
                     (map (fun row => vadd row b0) (matmul (output_dim l) x W))).
  { split; [by rewrite length_map|].
    apply Forall_map. eapply Forall_impl; [exact Hrows|]. simpl.
    intros r Hr. by apply vadd_length. }
  unfold member_output, apply_activation. simpl hd.
  destruct (activation l) as [f|]; [|done].
  destruct H as [H1 H2]. split; [by rewrite length_map|].
  apply Forall_map. eapply Forall_impl; [exact H2|]. simpl.
  intros r Hr. by rewrite length_map.
Qed.

(** What a layer puts out has one batch per member, as long as the batch
    it was given and [output_dim] wide: from a batch shared by all
    members, and from one batch per member. *)
Lemma compute_output_shared (s : Session R) (M d : nat) (l : Layer R) (x : mat R) :
  layer_ok s M d l →
  ∃ y, compute_output_tensor l (T2 x) s = Return (T3 y) ∧
       has_shape3 M (length x) (output_dim l) y = true.
Proof.
  intros (Hd & He & w & b & Hw & Hb & Hwok & Hbok).
  destruct (read3_ok _ _ _ _ _ Hwok) as (W & HW & HWsh).
  destruct (read3_ok _ _ _ _ _ Hbok) as (bv & Hbv & Hbsh).
  unfold compute_output_tensor. rewrite Hw, Hb, HW. simpl. rewrite Hbv. simpl.
  eexists. split; [done|].
  apply has_shape3_spec in HWsh as [HWM HWs]. apply has_shape3_spec in Hbsh as [HbM Hbs].
  apply has_shape3_spec. split; [rewrite length_zip_with; lia|].
  apply Forall_forall. intros y Hy.
  apply elem_of_lookup_zip_with in Hy as (i & Wa & ba & -> & HWa & Hba).
  eapply member_output_shape.
  - eapply (Forall_lookup_1 _ _ _ _ HWs HWa).
  - eapply (Forall_lookup_1 _ _ _ _ Hbs Hba).
Qed.

Lemma compute_output_per_member (s : Session R) (M d B k : nat) (l : Layer R)
    (x : ten3 R) :
  layer_ok s M d l →
  has_shape3 M B k x = true →
  ∃ y, compute_output_tensor l (T3 x) s = Return (T3 y) ∧
       has_shape3 M B (output_dim l) y = true.
Proof.
  intros (Hd & He & w & b & Hw & Hb & Hwok & Hbok) Hx.
  destruct (read3_ok _ _ _ _ _ Hwok) as (W & HW & HWsh).
  destruct (read3_ok _ _ _ _ _ Hbok) as (bv & Hbv & Hbsh).
  apply has_shape3_spec in Hx as [HxM Hxs].
  unfold compute_output_tensor. rewrite Hw, Hb, HW. simpl. rewrite Hbv. simpl.
  rewrite He, HxM. rewrite decide_True by done.
  eexists. split; [done|].
  apply has_shape3_spec in HWsh as [HWM HWs]. apply has_shape3_spec in Hbsh as [HbM Hbs].
  apply has_shape3_spec. split; [rewrite length_zip_with, length_zip; lia|].
  apply Forall_forall. intros y Hy.
  apply elem_of_lookup_zip_with in Hy as (i & [xa Wa] & ba & -> & HxW & Hba).
  apply lookup_zip_with_Some in HxW as (xa' & Wa' & Heq & Hxa & HWa).
  injection Heq as <- <-. simpl.
  destruct (Forall_lookup_1 _ _ _ _ Hxs Hxa) as [<- _].
  eapply member_output_shape.
  - eapply (Forall_lookup_1 _ _ _ _ HWs HWa).
  - eapply (Forall_lookup_1 _ _ _ _ Hbs Hba).
Qed.

Lemma chain_output_cons (k : nat) (l : Layer R) (ls : list (Layer R)) :
  chain_output k (l :: ls) = chain_output (output_dim l) ls.
Proof.
  unfold chain_output. destruct ls as [|l' ls]; simpl; [done|].
  destruct (last (l' :: ls)) eqn:E; [done|]. by apply last_None in E.
Qed.

Lemma layers_output_shape (s : Session R) (M B : nat) (ls : list (Layer R))
    (d k : nat) (x : ten3 R) :
  layers_ok s M d ls →
  has_shape3 M B k x = true →
  ∃ y, for_each (fun cur l => compute_output_tensor l cur s) ls (T3 x) = Return (T3 y) ∧
       has_shape3 M B (chain_output k ls) y = true.
Proof.
  revert d k x. induction ls as [|l ls IH]; intros d k x Hls Hx; simpl.
  - eauto.
  - destruct Hls as [Hl Hls].
    destruct (compute_output_per_member s M d B k l x Hl Hx) as (y & -> & Hy). simpl.
    destruct (IH _ _ y Hls Hy) as (z & -> & Hz).
    exists z. split; [done|]. by rewrite chain_output_cons.
Qed.

(** The factored output of a built network on one batch of [B] rows fed
    to every member: a tensor of shape [M, B, output]. *)
Lemma compile_outputs_shared (s : Session R) (sc : Scaler) (M : nat)
    (ls : list (Layer R)) (x : mat R) :
  scaler_ok s sc →
  layers_ok s M (scaler_dim sc) ls →
  ls ≠ [] →
  ∃ y, compile_outputs sc ls (T2 x) s = Return (T3 y) ∧
       has_shape3 M (length x) (chain_output (scaler_dim sc) ls) y = true.
Proof.
  intros [Hmu Hsg] Hls Hne.
  destruct (read1_ok _ _ _ Hmu) as (mv & Hmv & _).
  destruct (read1_ok _ _ _ Hsg) as (sv & Hsv & _).
  unfold compile_outputs, scaler_transform. rewrite Hmv. simpl. rewrite Hsv. simpl.
  destruct ls as [|l ls]; [done|]. destruct Hls as [Hl Hls]. simpl.
  destruct (compute_output_shared s M _ l (map (transform_row mv sv) x) Hl)
    as (y & -> & Hy). simpl. rewrite length_map in Hy.
  destruct (layers_output_shape s M (length x) ls _ _ y Hls Hy) as (z & -> & Hz).
  exists z. split; [done|]. by rewrite chain_output_cons.
Qed.

End Shapes.

(** ** Ensemble aggregation *)

Section Aggregation.
Context {R : Type} {AR : Arith R}.

(** The arithmetic average of [f 0], ..., [f (M - 1)] for [M >= 1]: the
    values are added from member 0 on and the sum is divided by [M]. *)
Definition member_average (M : nat) (f : nat → R) : R :=
  rdiv (fold_left radd (map f (seq 1 (M - 1))) (f 0)) (rofnat M).

Definition squared_deviation (x mean : R) : R :=
  let d := rsub x mean in rmul d d.

Lemma entry_madd (B O : nat) (m0 m1 : mat R) (b o : nat) :
  length m0 = B → Forall (fun r => length r = O) m0 →
  length m1 = B → Forall (fun r => length r = O) m1 →
  b < B → o < O →
  entry (madd m0 m1) b o = radd (entry m0 b o) (entry m1 b o).
Proof.
  intros H0 H0r H1 H1r Hb Ho. unfold entry, madd.
  rewrite (nth_zip_with vadd m0 m1 b [] []) by lia.
  unfold vadd. apply nth_zip_with.
  - rewrite (nth_Forall _ m0 b [] H0r); lia.
  - rewrite (nth_Forall _ m1 b [] H1r); lia.
Qed.

Lemma madd_shape (B O : nat) (m0 m1 : mat R) :
  length m0 = B → Forall (fun r => length r = O) m0 →
  length m1 = B → Forall (fun r => length r = O) m1 →
  length (madd m0 m1) = B ∧ Forall (fun r => length r = O) (madd m0 m1).
Proof.
  intros H0 H0r H1 H1r. unfold madd. split; [rewrite length_zip_with; lia|].
  apply Forall_forall. intros r Hr.
  apply elem_of_lookup_zip_with in Hr as (i & r0 & r1 & -> & Hr0 & Hr1).
  apply vadd_length.
  - eapply (Forall_lookup_1 _ _ _ _ H0r Hr0).
  - eapply (Forall_lookup_1 _ _ _ _ H1r Hr1).
Qed.

Lemma entry_fold_madd (B O : nat) (ms : ten3 R) (m0 : mat R) (b o : nat) :
  Forall (fun m => length m = B ∧ Forall (fun r => length r = O) m) ms →
  length m0 = B → Forall (fun r => length r = O) m0 →
  b < B → o < O →
  entry (fold_left madd ms m0) b o
    = fold_left radd (map (fun m => entry m b o) ms) (entry m0 b o) ∧
  length (fold_left madd ms m0) = B ∧
  Forall (fun r => length r = O) (fold_left madd ms m0).
Proof.
  intros Hms. revert m0. induction Hms as [|m1 ms [H1 H1r] _ IH];
    intros m0 H0 H0r Hb Ho; simpl; [done|].
  destruct (madd_shape B O m0 m1 H0 H0r H1 H1r) as [Hs Hsr].
  destruct (IH (madd m0 m1) Hs Hsr Hb Ho) as (-> & Hl & Hr).
  split; [|done]. f_equal. by apply (entry_madd B O).
Qed.

Lemma map_entry3_tail (m0 : mat R) (ms : ten3 R) (b o : nat) :
  map (fun a => entry3 (m0 :: ms) a b o) (seq 1 (length ms))
    = map (fun m => entry m b o) ms.
Proof.
  rewrite <- seq_shift, List.map_map.
  transitivity (map (fun m => entry m b o)
                    (map (fun a => nth a ms []) (seq 0 (length ms)))).
  - by rewrite List.map_map.
  - by rewrite tabulate_nth.
Qed.

(** [tf.reduce_mean(t, axis=0)], entry by entry: the average over the
    members, in a matrix of the shape of one member. *)
Lemma reduce_mean0_entry (M B O : nat) (t : ten3 R) :
  has_shape3 M B O t = true → 1 ≤ M →
  has_shape2 B O (reduce_mean0 t) = true ∧
  ∀ b o, b < B → o < O →
    entry (reduce_mean0 t) b o = member_average M (fun a => entry3 t a b o).
Proof.
  intros Ht HM. apply has_shape3_spec in Ht as [HtM Hts].
  destruct t as [|m0 ms]; [simpl in HtM; lia|].
  apply Forall_cons in Hts as [[H0 H0r] Hms].
  unfold reduce_mean0, reduce_sum0. split.
  - destruct B as [|B'].
    + apply has_shape2_spec. rewrite length_map.
      assert (Hl : length (fold_left madd ms m0) = 0).
      { clear -H0 Hms. revert m0 H0.
        induction Hms as [|m1 ms [H1 _] _ IH]; intros m0 H0; simpl; [done|].
        apply IH. unfold madd. rewrite length_zip_with. lia. }
      split; [done|]. apply length_zero_iff_nil in Hl. rewrite Hl. by apply Forall_nil.
    + destruct O as [|O'].
      * apply has_shape2_spec. rewrite length_map.
        assert (Hl : length (fold_left madd ms m0) = S B' ∧
                     Forall (fun r => length r = 0) (fold_left madd ms m0)).
        { clear -H0 H0r Hms. revert m0 H0 H0r.
          induction Hms as [|m1 ms [H1 H1r] _ IH]; intros m0 H0 H0r; simpl; [done|].
          destruct (madd_shape _ _ m0 m1 H0 H0r H1 H1r). by apply IH. }
        destruct Hl as [Hl Hr]. split; [done|].
        apply Forall_map. eapply Forall_impl; [exact Hr|]. simpl.
        intros r Hr0. by rewrite length_map.
      * destruct (entry_fold_madd (S B') (S O') ms m0 0 0 Hms H0 H0r ltac:(lia) ltac:(lia))
          as (_ & Hl & Hr).
        apply has_shape2_spec. rewrite length_map. split; [done|].
        apply Forall_map. eapply Forall_impl; [exact Hr|]. simpl.
        intros r Hr0. by rewrite length_map.
  - intros b o Hb Ho.
    destruct (entry_fold_madd B O ms m0 b o Hms H0 H0r Hb Ho) as (He & Hl & Hr).
    unfold entry in *.
    rewrite (nth_map' _ _ b []) by lia.
    rewrite (nth_map' _ _ o rzero) by (rewrite (nth_Forall _ _ b [] Hr); lia).
    rewrite He. unfold member_average. simpl length in *.
    replace (M - 1) with (length ms) by lia.
    rewrite (map_entry3_tail m0 ms b o). rewrite HtM. done.
Qed.

(** [tf.square(t - mean)] for a mean broadcast over the members, entry
    by entry. *)
Lemma squared_deviation_entry (M B O : nat) (t : ten3 R) (mean : mat R) :
  has_shape3 M B O t = true →
  has_shape2 B O mean = true →
  has_shape3 M B O (square3 (sub_bcast t mean)) = true ∧
  ∀ a b o, a < M → b < B → o < O →
    entry3 (square3 (sub_bcast t mean)) a b o
      = squared_deviation (entry3 t a b o) (entry mean b o).
Proof.
  intros Ht Hm. apply has_shape3_spec in Ht as [HtM Hts].
  apply has_shape2_spec in Hm as [HmB Hmr].
  unfold square3, sub_bcast. split.
  - apply has_shape3_spec. rewrite !length_map. split; [done|].
    rewrite map_map. apply Forall_map. eapply Forall_impl; [exact Hts|]. simpl.
    intros tm [Hl Hr]. rewrite length_map, length_zip_with. split; [lia|].
    apply Forall_map, Forall_forall. intros r Hin.
    apply elem_of_lookup_zip_with in Hin as (i & r0 & r1 & -> & Hr0 & Hr1).
    unfold vsquare, vsub. rewrite length_map, length_zip_with.
    rewrite (Forall_lookup_1 _ _ _ _ Hr Hr0), (Forall_lookup_1 _ _ _ _ Hmr Hr1). lia.
  - intros a b o Ha Hb Ho. unfold entry3, entry.
    rewrite map_map.
    rewrite (nth_map' _ t a []) by lia.
    destruct (nth_Forall _ t a [] Hts ltac:(lia)) as [Hla Hra].
    rewrite (nth_map' vsquare _ b []) by (rewrite length_zip_with; lia).
    rewrite (nth_zip_with vsub _ mean b [] []) by lia.
    unfold vsquare, vsub.
    assert (length (nth b (nth a t []) []) = O) by (apply nth_Forall; [done|lia]).
    assert (length (nth b mean []) = O) by (apply nth_Forall; [done|lia]).
    rewrite (nth_map' _ _ o rzero) by (rewrite length_zip_with; lia).
    rewrite (nth_zip_with rsub _ _ o rzero rzero) by lia.
    reflexivity.
Qed.

End Aggregation.

(** ** The finalized model *)

Section Finalized.
Context {R : Type} {AR : Arith R}.

(** The input and output dimension of the network. *)
Definition model_input_dim (m : NN R) : option nat :=
  match head (layers m) with
  | Some first => get_input_dim first
  | None => None
  end.

Definition model_output_dim (m : NN R) : option nat :=
  match last (layers m) with
  | Some final => Some (get_output_dim final)
  | None => None
  end.

(** The graph handles are those that [finalize] builds from the scaler
    and the layers of the model. *)
Definition graph_built (m : NN R) : Prop :=
  ∃ sc o,
    scaler m = Some sc ∧ optimizer m = Some o ∧
    sy_train_in m = Some [Some (num_nets m); None; model_input_dim m] ∧
    sy_train_targ m = Some [Some (num_nets m); None; model_output_dim m] ∧
    train_op m
      = Some (minimize o (train_loss sc (layers m) (decays m)) (optvars m)) ∧
    mse_loss m = Some (compile_losses sc (layers m)) ∧
    sy_pred_in2d m = Some [None; model_input_dim m] ∧
    sy_pred_mean2d_fac m = Some (compile_outputs sc (layers m)) ∧
    sy_pred_mean2d m = Some (mean_of (compile_outputs sc (layers m))) ∧
    sy_pred_var2d m
      = Some (variance_of (compile_outputs sc (layers m))
                          (mean_of (compile_outputs sc (layers m)))) ∧
    sy_pred_in3d m = Some [Some (num_nets m); None; model_input_dim m] ∧
    sy_pred_mean3d_fac m = Some (compile_outputs sc (layers m)).

(** The variables of the scaler and of every layer are declared and hold
    values of their shapes, and the layers form a chain of [num_nets]
    members from the dimension of the scaler. *)
Definition vars_ok (m : NN R) : Prop :=
  layers m ≠ [] ∧
  ∃ sc, scaler m = Some sc ∧ scaler_ok (sess m) sc ∧
        layers_ok (sess m) (num_nets m) (scaler_dim sc) (layers m).

(** The state in which [finalize] leaves a model. *)
Definition ready_model (m : NN R) : Prop :=
  finalized m = true ∧ graph_built m ∧ vars_ok m.

Lemma vars_ok_dims (m : NN R) :
  vars_ok m →
  ∃ sc, scaler m = Some sc ∧
        model_input_dim m = Some (scaler_dim sc) ∧
        model_output_dim m = Some (chain_output (scaler_dim sc) (layers m)).
Proof.
  intros (Hne & sc & Hsc & _ & Hls). exists sc. split; [done|].
  unfold model_input_dim, model_output_dim, chain_output.
  destruct (layers m) as [|l ls] eqn:E; [done|]. simpl head.
  split; [apply Hls|].
  destruct (last (l :: ls)) eqn:El; [done|]. by apply last_None in El.
Qed.

(** C1: on a finalized model of [M >= 1] members, for a batch [x] of
    [B >= 1] rows of the input dimension: [predict(x, factored=True)]
    returns the members' predictions [fac], of shape [M, B, O], and no
    variance; [predict(x, factored=False)] returns a mean and a variance
    of shape [B, O]; every entry of the mean is the average over the
    members of that entry of [fac], and every entry of the variance is
    the average over the members of the squared deviation of that entry
    of [fac] from the mean, dividing by [M]. *)
Theorem ensemble_aggregation (m : NN R) (x : mat R) :
  ready_model m →
  1 ≤ num_nets m →
  1 ≤ length x →
  Forall (fun row => Some (length row) = model_input_dim m) x →
  ∃ fac mean var O,
    model_output_dim m = Some O ∧
    predict (T2 x) true m = Return (T3 fac, None) ∧
    predict (T2 x) false m = Return (T2 mean, Some (T2 var)) ∧
    has_shape3 (num_nets m) (length x) O fac = true ∧
    has_shape2 (length x) O mean = true ∧
    has_shape2 (length x) O var = true ∧
    ∀ b o, b < length x → o < O →
      entry mean b o = member_average (num_nets m) (fun a => entry3 fac a b o) ∧
      entry var b o
        = member_average (num_nets m)
            (fun a => squared_deviation (entry3 fac a b o) (entry mean b o)).
Proof.
  intros (_ & Hg & Hv) HM HB Hx.
  destruct (vars_ok_dims m Hv) as (sc & Hsc & Hin & Hout).
  destruct Hv as (Hne & sc' & Hsc' & Hsok & Hls).
  rewrite Hsc in Hsc'. injection Hsc' as <-.
  destruct Hg as (sc' & opt & Hsc' & _ & _ & _ & _ & _ & Hin2 & Hfac & Hmean & Hvar & _).
  rewrite Hsc in Hsc'. injection Hsc' as <-.
  destruct (compile_outputs_shared (sess m) sc (num_nets m) (layers m) x Hsok Hls Hne)
    as (fac & Hfacx & Hfsh).
  destruct (reduce_mean0_entry _ _ _ fac Hfsh HM) as [Hmsh Hment].
  destruct (squared_deviation_entry _ _ _ fac (reduce_mean0 fac) Hfsh Hmsh)
    as [Hdsh Hdent].
  destruct (reduce_mean0_entry _ _ _ _ Hdsh HM) as [Hvsh Hvent].
  assert (Hfeed : feed_ok [None; model_input_dim m] (T2 x) = true).
  { simpl. apply forallb_forall. intros r Hr.
    rewrite Forall_forall in Hx. specialize (Hx r (proj2 (list_elem_of_In _ _) Hr)).
    rewrite <- Hx. simpl. apply Nat.eqb_refl. }
  exists fac, (reduce_mean0 fac),
         (reduce_mean0 (square3 (sub_bcast fac (reduce_mean0 fac)))),
         (chain_output (scaler_dim sc) (layers m)).
  split; [done|]. split; [|split].
  - unfold predict, sess_run. rewrite Hin2, Hfac, Hfeed, Hfacx. done.
  - unfold predict, sess_run. rewrite Hin2, Hmean, Hvar, Hfeed.
    unfold variance_of, mean_of. rewrite Hfacx. done.
  - split; [done|]. split; [done|]. split; [done|].
    intros b o Hb Ho. split; [by apply Hment|].
    rewrite (Hvent b o Hb Ho).
    unfold member_average. f_equal.
    rewrite (Hdent 0 b o) by lia. f_equal.
    apply map_ext_in. intros a Ha. apply in_seq in Ha.
    apply Hdent; lia.
Qed.

End Finalized.

(** ** What [finalize] establishes *)

Section Declarations.
Context {R : Type} {AR : Arith R}.

(** A variable declared with shape [sh] and an initial value of that
    shape. *)
Definition decl_ok (s : Session R) (name : string) (sh : list nat) : Prop :=
  ∃ init, declared s !! name = Some (sh, init) ∧ has_shape sh init = true.

(** Every declaration of [s] is still there in [s']. *)
Definition sess_extends (s s' : Session R) : Prop :=
  ∀ name sh, decl_ok s name sh → decl_ok s' name sh.

(** Every variable that is in order in [s] is in order in [s']. *)
Definition vars_kept (s s' : Session R) : Prop :=
  ∀ name sh, var_ok s name sh → var_ok s' name sh.

Lemma sess_extends_refl (s : Session R) : sess_extends s s.
Proof. by intros name sh H. Qed.

Lemma sess_extends_trans (s1 s2 s3 : Session R) :
  sess_extends s1 s2 → sess_extends s2 s3 → sess_extends s1 s3.
Proof. intros H1 H2 name sh H. by apply H2, H1. Qed.

Lemma vars_kept_refl (s : Session R) : vars_kept s s.
Proof. by intros name sh H. Qed.

Lemma vars_kept_trans (s1 s2 s3 : Session R) :
  vars_kept s1 s2 → vars_kept s2 s3 → vars_kept s1 s3.
Proof. intros H1 H2 name sh H. by apply H2, H1. Qed.

Lemma get_variable_Return (name : string) (sh : list nat) (init : tval R)
    (s s' : Session R) :
  get_variable name sh init s = Return s' →
  has_shape sh init = true →
  decl_ok s' name sh ∧ sess_extends s s' ∧ store s' = store s.
Proof.
  unfold get_variable. intros H Hsh.
  destruct (declared s !! name) as [old|] eqn:E; [done|]. injection H as <-.
  split; [|split; [|done]].
  - exists init. simpl. by rewrite lookup_insert_eq.
  - intros name' sh' (init' & Hd & Hi). exists init'. simpl.
    rewrite lookup_insert_ne; [done|]. intros ->. congruence.
Qed.

Lemma tabulate3_shape (a n k : nat) (f : nat → nat → nat → R) :
  has_shape3 a n k (tabulate3 a n k f) = true.
Proof.
  apply has_shape3_spec. unfold tabulate3. rewrite length_map, length_seq.
  split; [done|]. apply Forall_map, Forall_forall. intros i _. simpl.
  rewrite length_map, length_seq. split; [done|].
  apply Forall_map, Forall_forall. intros j _. simpl.
  by rewrite length_map, length_seq.
Qed.

Lemma construct_vars_Return (scope : string) (init : nat → nat → nat → R)
    (l l' : Layer R) (s s' : Session R) (M d : nat) :
  input_dim l = Some d → ensemble_size l = Some M →
  construct_vars scope init l s = Return (l', s') →
  input_dim l' = Some d ∧ ensemble_size l' = Some M ∧
  output_dim l' = output_dim l ∧ weight_decay l' = weight_decay l ∧
  (∃ w b, weights l' = Some w ∧ biases l' = Some b ∧
          decl_ok s' w [M; d; output_dim l] ∧ decl_ok s' b [M; 1; output_dim l]) ∧
  sess_extends s s' ∧ store s' = store s.
Proof.
  intros Hd He H. unfold construct_vars in H. rewrite Hd, He in H.
  destruct (get_variable _ _ _ s) as [s1|] eqn:E1; [|done]. simpl in H.
  destruct (get_variable _ _ _ s1) as [s2|] eqn:E2; [|done]. simpl in H.
  injection H as <- <-. simpl.
  apply get_variable_Return in E1 as (Hw & Hx1 & Hst1); [|apply tabulate3_shape].
  apply get_variable_Return in E2 as (Hb & Hx2 & Hst2); [|apply tabulate3_shape].
  repeat split; try done.
  - eexists _, _. repeat split; try done. by apply Hx2.
  - by eapply sess_extends_trans.
  - congruence.
Qed.

Lemma scaler_Return (scope : string) (x_dim : option nat) (s s' : Session R)
    (sc : Scaler) :
  TensorStandardScaler scope x_dim s = Return (sc, s') →
  x_dim = Some (scaler_dim sc) ∧
  decl_ok s' (mu sc) [scaler_dim sc] ∧ decl_ok s' (sigma sc) [scaler_dim sc] ∧
  sess_extends s s' ∧ store s' = store s.
Proof.
  unfold TensorStandardScaler. intros H. destruct x_dim as [d|]; [|done].
  destruct (get_variable _ _ _ s) as [s1|] eqn:E1; [|done]. simpl in H.
  destruct (get_variable _ _ _ s1) as [s2|] eqn:E2; [|done]. simpl in H.
  injection H as <- <-. simpl.
  apply get_variable_Return in E1 as (Hm & Hx1 & Hst1);
    [|simpl; apply has_shape1_spec, length_replicate].
  apply get_variable_Return in E2 as (Hs & Hx2 & Hst2);
    [|simpl; apply has_shape1_spec, length_replicate].
  repeat split; try done.
  - by apply Hx2.
  - by eapply sess_extends_trans.
  - congruence.
Qed.

(** Declaring the slot variables of the optimizer keeps every earlier
    declaration and every value. *)
Lemma declare_slots_Return (slots : list (string * (list nat * tval R)))
    (s s' : Session R) :
  for_each (fun s v => get_variable v.1 v.2.1 v.2.2 s) slots s = Return s' →
  (∀ name sh init, declared s !! name = Some (sh, init) →
                   declared s' !! name = Some (sh, init)) ∧
  store s' = store s.
Proof.
  revert s. induction slots as [|v slots IH]; intros s H; simpl in H.
  - by injection H as <-.
  - destruct (get_variable _ _ _ s) as [s1|] eqn:E; [|done]. simpl in H.
    apply IH in H as [Hd Hst]. unfold get_variable in E.
    destruct (declared s !! v.1) eqn:Ev; [done|]. injection E as <-.
    split; [|done]. intros name sh init Hn. apply Hd. simpl.
    rewrite lookup_insert_ne; [done|]. intros Heq. rewrite Heq in Ev. congruence.
Qed.

(** Running the initializer of [names]: the declarations stay, every
    declared variable among [names] holds its initial value, and a
    variable that was in order still is. *)
Lemma variables_initializer_Return (names : list string) (s s' : Session R) :
  variables_initializer names s = Return s' →
  declared s' = declared s ∧
  vars_kept s s' ∧
  ∀ name sh, name ∈ names → decl_ok s name sh → var_ok s' name sh.
Proof.
  unfold variables_initializer. revert s.
  induction names as [|n names IH]; intros s H; simpl in H.
  - injection H as <-. split; [done|]. split; [apply vars_kept_refl|].
    intros name sh Hin. by apply elem_of_nil in Hin.
  - destruct (declared s !! n) as [[shn initn]|] eqn:En; [|done]. simpl in H.
    apply IH in H as (Hd & Hk & Hi). simpl in Hd.
    assert (Hstep : ∀ name sh, var_ok s name sh ∨ (name = n ∧ decl_ok s name sh) →
             var_ok {| declared := declared s; store := <[n := initn]> (store s) |}
                    name sh).
    { intros name sh [(init & v & H1 & H2 & H3 & H4) | [-> (init & H1 & H2)]].
      - destruct (decide (name = n)) as [->|Hne].
        + rewrite En in H1. injection H1 as <- <-.
          exists initn, initn. simpl. by rewrite lookup_insert_eq.
        + exists init, v. simpl. by rewrite lookup_insert_ne.
      - rewrite En in H1. injection H1 as <- <-.
        exists initn, initn. simpl. by rewrite lookup_insert_eq. }
    split; [done|]. split.
    + intros name sh Hv. apply Hk, Hstep. by left.
    + intros name sh Hin Hdecl. apply elem_of_cons in Hin as [->|Hin].
      * apply Hk, Hstep. by right.
      * apply Hi; [done|]. destruct Hdecl as (init & H1 & H2). by exists init.
Qed.

Lemma assign_Return (name : string) (v : tval R) (s s' : Session R) :
  assign name v s = Return s' → declared s' = declared s ∧ vars_kept s s'.
Proof.
  unfold assign. intros H.
  destruct (declared s !! name) as [[sh init]|] eqn:E; [|done].
  destruct (has_shape sh v) eqn:Ev; [|done]. injection H as <-.
  split; [done|]. intros name' sh' (init' & v' & H1 & H2 & H3 & H4).
  destruct (decide (name' = name)) as [->|Hne].
  - rewrite E in H1. injection H1 as <- <-.
    exists init, v. simpl. by rewrite lookup_insert_eq.
  - exists init', v'. simpl. by rewrite lookup_insert_ne.
Qed.

End Declarations.

Section FinalizeReady.
Context {R : Type} {AR : Arith R}.

(** A chain of layer templates of [M] members from dimension [d], as
    [add] builds it. *)
Fixpoint chained (M d : nat) (ls : list (Layer R)) : Prop :=
  match ls with
  | [] => True
  | l :: ls' =>
      input_dim l = Some d ∧ ensemble_size l = Some M ∧
      chained M (output_dim l) ls'
  end.

Definition well_chained (m : NN R) : Prop :=
  ∃ d, chained (num_nets m) d (layers m).

(** A constructed layer whose variables are declared and listed in
    [vars]. *)
Definition layer_declared (s : Session R) (vars : list string) (M d : nat)
    (l : Layer R) : Prop :=
  input_dim l = Some d ∧ ensemble_size l = Some M ∧
  ∃ w b, weights l = Some w ∧ biases l = Some b ∧
         decl_ok s w [M; d; output_dim l] ∧ decl_ok s b [M; 1; output_dim l] ∧
         w ∈ vars ∧ b ∈ vars.

Fixpoint layers_declared (s : Session R) (vars : list string) (M d : nat)
    (ls : list (Layer R)) : Prop :=
  match ls with
  | [] => True
  | l :: ls' =>
      layer_declared s vars M d l ∧ layers_declared s vars M (output_dim l) ls'
  end.

Lemma chain_output_snoc (d : nat) (ls : list (Layer R)) (l : Layer R) :
  chain_output d (ls ++ [l]) = output_dim l.
Proof. unfold chain_output. by rewrite last_snoc. Qed.

Lemma chained_snoc (M d : nat) (ls : list (Layer R)) (l : Layer R) :
  chained M d ls →
  input_dim l = Some (chain_output d ls) → ensemble_size l = Some M →
  chained M d (ls ++ [l]).
Proof.
  revert d. induction ls as [|l0 ls IH]; intros d Hc Hd He; simpl in *.
  - done.
  - destruct Hc as (H1 & H2 & H3). repeat split; try done.
    apply IH; [done | | done]. by rewrite chain_output_cons in Hd.
Qed.

Lemma layers_declared_mono (s s' : Session R) (vars vars' : list string)
    (M d : nat) (ls : list (Layer R)) :
  sess_extends s s' → (∀ v, v ∈ vars → v ∈ vars') →
  layers_declared s vars M d ls → layers_declared s' vars' M d ls.
Proof.
  intros Hx Hv. revert d. induction ls as [|l ls IH]; intros d H; simpl in *; [done|].
  destruct H as [(H1 & H2 & w & b & Hw & Hb & Hdw & Hdb & Hiw & Hib) Hrest].
  split; [|by apply IH].
  repeat split; try done. exists w, b. repeat split; auto.
Qed.

Lemma layers_declared_snoc (s : Session R) (vars : list string) (M d : nat)
    (ls : list (Layer R)) (l : Layer R) :
  layers_declared s vars M d ls →
  layer_declared s vars M (chain_output d ls) l →
  layers_declared s vars M d (ls ++ [l]).
Proof.
  revert d. induction ls as [|l0 ls IH]; intros d H Hl; simpl in *.
  - done.
  - destruct H as [H0 Hrest]. split; [done|]. apply IH; [done|].
    by rewrite chain_output_cons in Hl.
Qed.

Lemma layers_declared_ok (s s' : Session R) (vars : list string) (M d : nat)
    (ls : list (Layer R)) :
  (∀ name sh, name ∈ vars → decl_ok s name sh → var_ok s' name sh) →
  layers_declared s vars M d ls → layers_ok s' M d ls.
Proof.
  intros Hv. revert d. induction ls as [|l ls IH]; intros d H; simpl in *; [done|].
  destruct H as [(H1 & H2 & w & b & Hw & Hb & Hdw & Hdb & Hiw & Hib) Hrest].
  split; [|by apply IH].
  repeat split; try done. exists w, b. repeat split; auto.
Qed.

Lemma layers_ok_kept (s s' : Session R) (M d : nat) (ls : list (Layer R)) :
  vars_kept s s' → layers_ok s M d ls → layers_ok s' M d ls.
Proof.
  intros Hk. revert d. induction ls as [|l ls IH]; intros d H; simpl in *; [done|].
  destruct H as [(H1 & H2 & w & b & Hw & Hb & Hvw & Hvb) Hrest].
  split; [|by apply IH].
  repeat split; try done. exists w, b. repeat split; auto.
Qed.

(** The loop of [finalize] over the layers, from the layer at position
    [length done] on. *)
Lemma construct_loop (init : string → nat → nat → nat → R) (M d0 : nat)
    (todo done : list (Layer R)) (m m' : NN R) :
  layers m = done ++ todo →
  chained M (chain_output d0 done) todo →
  layers_declared (sess m) (optvars m) M d0 done →
  for_eachM (construct_layer init) (seq (length done) (length todo)) m
    = (Return tt, m') →
  layers_declared (sess m') (optvars m') M d0 (layers m') ∧
  length (layers m') = length (layers m) ∧
  sess_extends (sess m) (sess m') ∧ store (sess m') = store (sess m) ∧
  scaler m' = scaler m ∧ num_nets m' = num_nets m ∧
  nonoptvars m' = nonoptvars m ∧ finalized m' = finalized m.
Proof.
  revert done m. induction todo as [|l todo IH]; intros done m Hl Hc Hd H.
  - simpl in H. injection H as <-. rewrite app_nil_r in Hl. rewrite Hl.
    repeat split; try done. apply sess_extends_refl.
  - simpl in H. unfold bindM in H.
    destruct (construct_layer init (length done) m) as [[[]|e] m1] eqn:E1; [|done].
    unfold construct_layer in E1.
    rewrite Hl, list_lookup_middle in E1 by done.
    destruct Hc as (Hdl & Hel & Hc).
    destruct (construct_vars _ _ l (sess m)) as [[l' s']|e] eqn:Ev; [|done].
    apply (construct_vars_Return _ _ _ _ _ _ M _ Hdl Hel) in Ev
      as (Hd' & He' & Ho' & _ & (w & b & Hw & Hb & Hdw & Hdb) & Hx & Hst).
    injection E1 as <-.
    assert (Hins : <[length done := l']> (done ++ l :: todo) = (done ++ [l']) ++ todo).
    { rewrite insert_app_r_alt, Nat.sub_diag by lia. simpl. by rewrite <- app_assoc. }
    rewrite Hins in H.
    specialize (IH (done ++ [l'])). rewrite length_app in IH. simpl length in IH.
    rewrite Nat.add_1_r in IH.
    apply IH in H.
    + destruct H as (H1 & H2 & H3 & H4 & H5 & H6 & H7 & H8).
      destruct m. simpl in *. rewrite H2, Hl, !length_app. simpl.
      repeat split; try done; try lia.
      * by eapply sess_extends_trans.
      * congruence.
    + by destruct m.
    + rewrite chain_output_snoc, Ho'. done.
    + apply layers_declared_snoc.
      * apply (layers_declared_mono (sess m) _ (optvars m)); destruct m; simpl in *;
          [done | | done]. intros v Hv. apply elem_of_app. by left.
      * unfold layer_declared. rewrite Ho'.
        repeat split; try done. exists w, b.
        unfold get_vars. rewrite Hw, Hb.
        destruct m; simpl in *. repeat split; try done.
        -- apply elem_of_app. right. apply elem_of_cons. by left.
        -- apply elem_of_app. right. apply elem_of_cons. right.
           apply elem_of_cons. by left.
Qed.

(** The loading stage changes the values of the session only, and keeps
    in order every variable that was. *)
Lemma load_values_Return (fs : gmap string (file R)) (m m' : NN R) :
  load_values fs m = (Return tt, m') →
  ∃ s', m' = set_sess s' m ∧ vars_kept (sess m) s'.
Proof.
  unfold load_values. intros H.
  destruct (model_loaded m || load_model_values m).
  2:{ injection H as <-. exists (sess m). split; [by destruct m | apply vars_kept_refl]. }
  destruct (model_dir m) as [path|]; [|done].
  destruct (np_load fs path) as [data|]; [|done].
  revert m H. induction data as [|kv data IH]; intros m H; simpl in H.
  - injection H as <-. exists (sess m). split; [by destruct m | apply vars_kept_refl].
  - unfold bindM, in_sess in H.
    destruct (assign kv.1 kv.2 (sess m)) as [s1|] eqn:E; [|done].
    apply assign_Return in E as [_ Hk].
    apply IH in H as (s' & -> & Hk').
    exists s'. split; [by destruct m|].
    eapply vars_kept_trans; [exact Hk|]. by destruct m.
Qed.

(** [finalize] on a model whose layers are chained, when it returns,
    leaves a finalized model: the flag is set, the graph handles are
    built from its scaler and layers, and its variables are in order. *)
Lemma finalize_ready (optimizer : OptArgs R → Optimizer R)
    (optimizer_args : option (OptArgs R)) (init : string → nat → nat → nat → R)
    (fs : gmap string (file R)) (m m' : NN R) :
  well_chained m →
  finalize optimizer optimizer_args init fs m = (Return tt, m') →
  ready_model m' ∧ num_nets m' = num_nets m.
Proof.
  intros [d0 Hchain] H. unfold finalize in H.
  destruct (length (layers m) =? 0) eqn:Elen; [done|]. apply Nat.eqb_neq in Elen.
  destruct (finalized m) eqn:Efin; [done|].
  cbv zeta in H.
  apply bindM_Return in H as ([] & m1 & H1 & H). unfold modify in H1. injection H1 as <-.
  apply bindM_Return in H as ([] & m2 & H2 & H).
  apply bindM_Return in H as ([] & m3 & H3 & H).
  apply bindM_Return in H as ([] & m4 & H4 & H).
  apply bindM_Return in H as ([] & m5 & H5 & H).
  apply bindM_Return in H as ([] & m6 & H6 & H).
  apply bindM_Return in H as ([] & m7 & H7 & H).
  unfold modify in H. injection H as <-.
  (* the scaler and the layers *)
  unfold construct_all in H2.
  apply bindM_Return in H2 as ([] & ma & Ha & H2).
  apply bindM_Return in H2 as (n & mb & Hn & H2).
  apply gets_Return in Hn as [-> ->].
  unfold construct_scaler in Ha.
  destruct (TensorStandardScaler _ _ _) as [[sc sa]|] eqn:Esc; [|done].
  injection Ha as <-.
  apply scaler_Return in Esc as (Hdim & Hmu & Hsg & Hxa & Hsta).
  destruct (layers m) as [|l0 ls0] eqn:Els; [done|].
  assert (Hd0 : d0 = scaler_dim sc).
  { destruct Hchain as (Hc0 & _). simpl in Hdim. rewrite Els in Hdim.
    simpl in Hdim. unfold get_input_dim in Hdim. congruence. }
  subst d0.
  match type of H2 with
  | context [length (layers ?x)] =>
      replace (layers x) with (l0 :: ls0) in H2 by (rewrite <- Els; by destruct m)
  end.
  apply (construct_loop init (num_nets m) (scaler_dim sc) (l0 :: ls0) []) in H2.
  2:{ simpl. rewrite <- Els. by destruct m. }
  2:{ by unfold chain_output. }
  2:{ done. }
  destruct H2 as (Hdecl & Hlen & Hx2 & Hst2 & Hsc2 & Hnn2 & Hnon2 & Hfin2).
  simpl in Hlen, Hx2, Hst2, Hsc2, Hnn2, Hnon2, Hfin2. rewrite Els in Hlen.
  (* the handles *)
  unfold collect_nonoptvars in H3. rewrite Hsc2 in H3. injection H3 as <-.
  unfold setup_training in H4.
  replace (scaler (extend_nonoptvars (scaler_get_vars sc) m2)) with (Some sc) in H4
    by (by destruct m2).
  replace (layers (extend_nonoptvars (scaler_get_vars sc) m2)) with (layers m2) in H4
    by (by destruct m2).
  destruct (head (layers m2)) as [first|] eqn:Ehead.
  2:{ by destruct (layers m2). }
  destruct (last (layers m2)) as [final|] eqn:Elast.
  2:{ apply last_None in Elast. by rewrite Elast in Ehead. }
  destruct (for_each _ _ _) as [s4|] eqn:Eslots; [|done].
  injection H4 as <-.
  apply declare_slots_Return in Eslots as [Hslots Hst4].
  unfold initialize_variables, in_sess in H5.
  destruct (variables_initializer _ _) as [s5|] eqn:Einit; [|done].
  injection H5 as <-.
  apply variables_initializer_Return in Einit as (Hd5 & Hk5 & Hinit).
  unfold setup_prediction in H6.
  match type of H6 with
  | context [scaler ?x] => replace (scaler x) with (Some sc) in H6 by (by destruct m2)
  end.
  match type of H6 with
  | context [head (layers ?x)] =>
      replace (head (layers x)) with (Some first) in H6 by (by destruct m2)
  end.
  injection H6 as <-.
  apply load_values_Return in H7 as (s7 & -> & Hk7).
  (* the three parts *)
  assert (Hx4 : sess_extends (sess m2) s4).
  { intros name sh (i & Hi1 & Hi2). exists i. split; [|done].
    apply Hslots. by destruct m2. }
  assert (Hvar : ∀ name sh,
            name ∈ optvars m2 ∨ name ∈ scaler_get_vars sc →
            decl_ok s4 name sh → var_ok s7 name sh).
  { intros name sh Hin Hdcl. apply Hk7. destruct m2; simpl in *.
    apply Hinit; [|done].
    apply elem_of_app. destruct Hin as [Hin|Hin]; [by left|].
    right. apply elem_of_app. left. apply elem_of_app. by right. }
  split.
  - split; [by destruct m2|]. split.
    + exists sc, (optimizer (default [] optimizer_args)).
      unfold model_input_dim, model_output_dim.
      destruct m2; simpl in *. rewrite Ehead, Elast, Hsc2.
      repeat split; reflexivity.
    + split.
      { destruct m2; simpl in *. intros ->. done. }
      exists sc. split; [by destruct m2|]. split.
      * split.
        -- replace (sess _) with s7 by (by destruct m2).
           apply Hvar; [right; apply elem_of_cons; by left|].
           apply Hx4, Hx2. exact Hmu.
        -- replace (sess _) with s7 by (by destruct m2).
           apply Hvar; [right; apply elem_of_cons; right; apply elem_of_cons; by left|].
           apply Hx4, Hx2. exact Hsg.
      * replace (sess _) with s7 by (by destruct m2).
        replace (num_nets _) with (num_nets m) by (destruct m2, m; simpl in *; congruence).
        replace (layers _) with (layers m2) by (by destruct m2).
        apply (layers_declared_ok s4 s7 (optvars m2)).
        -- intros name sh Hin. apply Hvar. by left.
        -- apply (layers_declared_mono (sess m2) s4 (optvars m2) (optvars m2)); auto.
  - destruct m2, m; simpl in *. congruence.
Qed.

(** Models built through [__init__], [add] and [pop] are chained. *)
Lemma new_model_chained nm dir (s : Session R) n loaded values :
  well_chained (new_model nm dir s n loaded values).
Proof. by exists 0. Qed.

Lemma add_chained (layer layer' : Layer R) (m m' : NN R) :
  well_chained m →
  add layer m = (Return tt, m', layer') →
  well_chained m'.
Proof.
  intros [d Hc] H. unfold add in H.
  destruct (finalized m); [done|].
  destruct (layers m) as [|l0 ls] eqn:Els.
  - simpl in H.
    destruct (bool_decide (is_Some (get_input_dim layer))) eqn:Ed; [|done].
    apply bool_decide_eq_true in Ed as [d' Hd']. simpl in H.
    destruct (model_loaded m); [done|]. injection H as <- <-.
    exists d'. destruct m; simpl in *. done.
  - simpl length in H. simpl andb in H. cbv iota in H.
    destruct (model_loaded m); [done|].
    destruct (last (l0 :: ls)) as [prev|] eqn:Elast.
    2:{ by apply last_None in Elast. }
    injection H as <- <-. exists d.
    replace (num_nets (set_layers _ m)) with (num_nets m) by (by destruct m).
    replace (layers (set_layers _ m)) with
      ((l0 :: ls) ++ [copy (set_input_dim (get_output_dim prev)
                              (set_ensemble_size (num_nets m) layer))])
      by (by destruct m).
    apply chained_snoc; [done | | done].
    simpl. unfold chain_output. by rewrite Elast.
Qed.

Lemma chained_removelast (M d : nat) (ls : list (Layer R)) :
  chained M d ls → chained M d (removelast ls).
Proof.
  revert d. induction ls as [|l ls IH]; intros d H; [done|].
  destruct H as (H1 & H2 & H3). destruct ls as [|l' ls]; [done|].
  change (removelast (l :: l' :: ls)) with (l :: removelast (l' :: ls)).
  repeat split; try done. by apply IH.
Qed.

Lemma pop_chained (l : Layer R) (m m' : NN R) :
  well_chained m → pop m = (Return l, m') → well_chained m'.
Proof.
  intros [d Hc] H. unfold pop in H.
  destruct (last (layers m)); [|done].
  destruct (finalized m); [done|]. destruct (model_loaded m); [done|].
  injection H as _ <-. exists d.
  destruct m; simpl in *. by apply chained_removelast.
Qed.

End FinalizeReady.

(** ** A call to [train] on a finalized model returns *)

Section Gather.
Context {R : Type} {AR : Arith R}.

(** An index matrix of [M] rows of [cols] indices below [n]. *)
Definition idx_ok (M n cols : nat) (idxs : list (list nat)) : Prop :=
  length idxs = M ∧
  Forall (fun row => length row = cols ∧ Forall (fun i => i < n) row) idxs.

Lemma slice_length {A} (a b : Z) (xs : list A) :
  length (slice a b xs)
    = Nat.min (slice_bound (length xs) b - slice_bound (length xs) a)
              (length xs - slice_bound (length xs) a).
Proof. unfold slice. by rewrite length_take, length_drop. Qed.

Lemma slice_Forall {A} (P : A → Prop) (a b : Z) (xs : list A) :
  Forall P xs → Forall P (slice a b xs).
Proof. intros H. unfold slice. by apply Forall_take, Forall_drop. Qed.

Lemma columns_ok (M n cols : nat) (a b : Z) (idxs : list (list nat)) :
  idx_ok M n cols idxs →
  ∃ cols', idx_ok M n cols' (columns a b idxs).
Proof.
  intros [Hl Hr].
  exists (Nat.min (slice_bound cols b - slice_bound cols a) (cols - slice_bound cols a)).
  unfold columns. split; [by rewrite length_map|].
  apply Forall_map. eapply Forall_impl; [exact Hr|]. simpl.
  intros row [Hlen Hrow]. split; [by rewrite slice_length, Hlen|].
  by apply slice_Forall.
Qed.

Lemma slice_to_ok (M n cols : nat) (k : Z) (idxs : list (list nat)) :
  idx_ok M n cols idxs →
  ∃ cols', idx_ok M n cols' (map (slice_to k) idxs).
Proof.
  intros [Hl Hr]. exists (slice_bound cols k).
  split; [by rewrite length_map|].
  apply Forall_map. eapply Forall_impl; [exact Hr|]. simpl.
  intros row [Hlen Hrow]. split; [by rewrite slice_to_length, Hlen|].
  unfold slice_to. by apply Forall_take.
Qed.

(** Gathering rows of width [d] along a well-formed index matrix gives a
    tensor of shape [M, cols, d]. *)
Lemma take_rows2_ok (M cols d : nat) (arr : mat R) (idxs : list (list nat)) :
  idx_ok M (length arr) cols idxs →
  Forall (fun r => length r = d) arr →
  ∃ x, take_rows2 arr idxs = Return x ∧ has_shape3 M cols d x = true.
Proof.
  intros [Hl Hr] Harr.
  assert (H : ∃ x, take_rows2 arr idxs = Return x ∧
                   length x = length idxs ∧
                   Forall (fun m => length m = cols ∧ Forall (fun r => length r = d) m) x).
  { clear Hl. unfold take_rows2.
    induction Hr as [|row idxs [Hlen Hrow] _ (x & Hx & Hxl & Hxs)]; simpl.
    - exists []. by repeat split.
    - destruct (take_rows_total arr row Hrow) as (rows & Hrows).
      rewrite Hrows, Hx. simpl. exists (rows :: x).
      split; [done|]. split; [simpl; lia|]. constructor; [|done].
      split; [by rewrite (take_rows_length _ _ _ Hrows)|].
      apply take_rows_Return in Hrows.
      apply Forall_forall. intros r Hin.
      apply list_elem_of_lookup in Hin as [i Hi].
      destruct (Forall2_lookup_r _ _ _ _ _ Hrows Hi) as (j & _ & Hj).
      exact (Forall_lookup_1 _ _ _ _ Harr Hj). }
  destruct H as (x & Hx & Hxl & Hxs). exists x. split; [done|].
  apply has_shape3_spec. split; [lia | done].
Qed.

Lemma has_shape3_feed_ok (M B d : nat) (x : ten3 R) :
  has_shape3 M B d x = true → feed_ok [Some M; None; Some d] (T3 x) = true.
Proof.
  intros H. apply has_shape3_spec in H as [Hl Hs]. simpl.
  rewrite Hl, Nat.eqb_refl. simpl. apply forallb_forall. intros m Hm.
  apply list_elem_of_In in Hm. rewrite Forall_forall in Hs.
  destruct (Hs m Hm) as [_ Hr]. simpl. apply forallb_forall. intros r Hin.
  apply list_elem_of_In in Hin. rewrite Forall_forall in Hr.
  rewrite (Hr r Hin). apply Nat.eqb_refl.
Qed.

(** The factored output of a built network on one batch per member. *)
Lemma compile_outputs_per_member (s : Session R) (sc : Scaler) (M B k : nat)
    (ls : list (Layer R)) (x : ten3 R) :
  scaler_ok s sc →
  layers_ok s M (scaler_dim sc) ls →
  has_shape3 M B k x = true →
  ∃ y, compile_outputs sc ls (T3 x) s = Return (T3 y) ∧
       has_shape3 M B (chain_output (Nat.min k (scaler_dim sc)) ls) y = true.
Proof.
  intros [Hmu Hsg] Hls Hx.
  destruct (read1_ok _ _ _ Hmu) as (mv & Hmv & Hml).
  destruct (read1_ok _ _ _ Hsg) as (sv & Hsv & Hsl).
  unfold compile_outputs, scaler_transform. rewrite Hmv. simpl. rewrite Hsv. simpl.
  apply (layers_output_shape s M B ls (scaler_dim sc)); [done|].
  apply has_shape3_spec in Hx as [HxM Hxs]. apply has_shape3_spec.
  rewrite length_map. split; [done|].
  apply Forall_map. eapply Forall_impl; [exact Hxs|]. simpl.
  intros m [HmB Hmr]. rewrite length_map. split; [done|].
  apply Forall_map. eapply Forall_impl; [exact Hmr|]. simpl.
  intros r Hr. unfold transform_row, vdiv, vsub.
  rewrite !length_zip_with. lia.
Qed.

(** The per-member losses of a built network on well-shaped batches. *)
Lemma compile_losses_total (s : Session R) (sc : Scaler) (M B k o : nat)
    (ls : list (Layer R)) (x t : ten3 R) :
  scaler_ok s sc →
  layers_ok s M (scaler_dim sc) ls →
  has_shape3 M B k x = true →
  has_shape3 M B o t = true →
  ∃ v, compile_losses sc ls (T3 x) (T3 t) s = Return v.
Proof.
  intros Hsc Hls Hx Ht.
  destruct (compile_outputs_per_member s sc M B k ls x Hsc Hls Hx) as (p & Hp & Hps).
  unfold compile_losses. rewrite Hp. simpl.
  apply has_shape3_spec in Hps as [HpM Hpr]. apply has_shape3_spec in Ht as [HtM Htr].
  assert (Hsame : same_batches p t = true).
  { unfold same_batches. rewrite HpM, HtM, Nat.eqb_refl. simpl.
    apply forallb_forall. intros [a b] Hin. apply Nat.eqb_eq. simpl.
    assert (Hin' : (a, b) ∈ zip p t) by (by apply list_elem_of_In).
    pose proof (elem_of_zip_l _ _ _ _ Hin') as Ha.
    pose proof (elem_of_zip_r _ _ _ _ Hin') as Hb.
    rewrite Forall_forall in Hpr, Htr.
    destruct (Hpr a Ha) as [-> _]. by destruct (Htr b Hb) as [-> _]. }
  rewrite Hsame. eauto.
Qed.

End Gather.

Section TrainOn.
Context {R : Type} {AR : Arith R} {G : Type} {NR : NumpyRandom G}.

(** The sessions on which the network of [m] runs: the variables of its
    scaler and layers are in order. *)
Definition sess_ready (m : NN R) (s : Session R) : Prop :=
  ∃ sc, scaler m = Some sc ∧ scaler_ok s sc ∧
        layers_ok s (num_nets m) (scaler_dim sc) (layers m).

(** What is assumed of the optimizer: on a session that is ready and on
    fed values that fit the training placeholders, its training operation
    returns, and leaves the session ready. *)
Definition step_returns (m : NN R) : Prop :=
  ∀ op tin ttarg,
    train_op m = Some op → sy_train_in m = Some tin → sy_train_targ m = Some ttarg →
    ∀ x t s, sess_ready m s → feed_ok tin x = true → feed_ok ttarg t = true →
             ∃ s', op x t s = Return s' ∧ sess_ready m s'.

(** The model [m0] is fixed, with its dimensions; only its session
    changes during a call to [train].  [inputs] and [targets] are the
    retained rows. *)
Variable m0 : NN R.
Variable d O : nat.
Hypothesis Hgraph : graph_built m0.
Hypothesis Hstep : step_returns m0.
Hypothesis Hin_dim : model_input_dim m0 = Some d.
Hypothesis Hout_dim : model_output_dim m0 = Some O.

Variable inputs targets : mat R.
Hypothesis Hinputs : Forall (fun r => length r = d) inputs.
Hypothesis Htargets : Forall (fun r => length r = O) targets.
Hypothesis Hsame : length targets = length inputs.

Lemma sess_ready_set_sess (s s' : Session R) :
  sess_ready (set_sess s m0) s' ↔ sess_ready m0 s'.
Proof. unfold sess_ready. by destruct m0. Qed.

Lemma set_sess_set_sess (s s' : Session R) (m : NN R) :
  set_sess s' (set_sess s m) = set_sess s' m.
Proof. by destruct m. Qed.

Lemma run_train_op_ok (x t : ten3 R) (s : Session R) (B : nat) :
  sess_ready m0 s →
  has_shape3 (num_nets m0) B d x = true →
  has_shape3 (num_nets m0) B O t = true →
  ∃ s', run_train_op x t (set_sess s m0) = (Return tt, set_sess s' m0) ∧
        sess_ready m0 s'.
Proof.
  intros Hs Hx Ht.
  destruct Hgraph as (sc & o & Hsc & _ & Htin & Httarg & Hop & _).
  rewrite Hin_dim in Htin. rewrite Hout_dim in Httarg.
  pose proof (has_shape3_feed_ok _ _ _ _ Hx) as Hfx.
  pose proof (has_shape3_feed_ok _ _ _ _ Ht) as Hft.
  destruct (Hstep _ _ _ Hop Htin Httarg (T3 x) (T3 t) s Hs Hfx Hft) as (s' & Hret & Hs').
  exists s'. split; [|done].
  unfold run_train_op, in_sess.
  replace (train_op (set_sess s m0)) with (train_op m0) by (by destruct m0).
  replace (sy_train_in (set_sess s m0)) with (sy_train_in m0) by (by destruct m0).
  replace (sy_train_targ (set_sess s m0)) with (sy_train_targ m0) by (by destruct m0).
  rewrite Hop, Htin, Httarg, Hfx, Hft. simpl andb. cbv iota.
  replace (sess (set_sess s m0)) with s by (by destruct m0).
  rewrite Hret. by rewrite set_sess_set_sess.
Qed.

Lemma run_mse_loss_ok (x t : ten3 R) (s : Session R) (B : nat) :
  sess_ready m0 s →
  has_shape3 (num_nets m0) B d x = true →
  has_shape3 (num_nets m0) B O t = true →
  ∃ v, run_mse_loss x t (set_sess s m0) = Return v.
Proof.
  intros (sc & Hsc & Hsok & Hls) Hx Ht.
  destruct Hgraph as (sc' & o & Hsc' & _ & Htin & Httarg & _ & Hmse & _).
  rewrite Hsc in Hsc'. injection Hsc' as <-.
  rewrite Hin_dim in Htin. rewrite Hout_dim in Httarg.
  pose proof (has_shape3_feed_ok _ _ _ _ Hx) as Hfx.
  pose proof (has_shape3_feed_ok _ _ _ _ Ht) as Hft.
  unfold run_mse_loss.
  replace (mse_loss (set_sess s m0)) with (mse_loss m0) by (by destruct m0).
  replace (sy_train_in (set_sess s m0)) with (sy_train_in m0) by (by destruct m0).
  replace (sy_train_targ (set_sess s m0)) with (sy_train_targ m0) by (by destruct m0).
  rewrite Hmse, Htin, Httarg, Hfx, Hft. simpl andb. cbv iota.
  replace (sess (set_sess s m0)) with s by (by destruct m0).
  by eapply compile_losses_total.
Qed.

Lemma targets_idx_ok (M cols : nat) (idxs : list (list nat)) :
  idx_ok M (length inputs) cols idxs → idx_ok M (length targets) cols idxs.
Proof. by rewrite Hsame. Qed.

Lemma train_batch_ok (batch_size : Z) (cols : nat) (idxs : list (list nat))
    (batch_num : nat) (s : Session R) :
  sess_ready m0 s →
  idx_ok (num_nets m0) (length inputs) cols idxs →
  ∃ b s', train_batch inputs targets batch_size idxs batch_num (set_sess s m0)
            = (Return b, set_sess s' m0) ∧
          sess_ready m0 s'.
Proof.
  intros Hs Hidx. unfold train_batch.
  destruct (columns_ok _ _ _ (Z.of_nat batch_num * batch_size)
              ((Z.of_nat batch_num + 1) * batch_size) _ Hidx) as (cols' & Hb).
  destruct (take_rows2_ok _ _ d inputs _ Hb Hinputs) as (x & Hx & Hxs).
  destruct (take_rows2_ok _ _ O targets _ (targets_idx_ok _ _ _ Hb) Htargets)
    as (t & Ht & Hts).
  destruct (run_train_op_ok x t s cols' Hs Hxs Hts) as (s' & Hrun & Hs').
  exists (columns (Z.of_nat batch_num * batch_size)
                  ((Z.of_nat batch_num + 1) * batch_size) idxs), s'.
  split; [|done].
  unfold bindM, lift, ret. rewrite Hx, Ht, Hrun. done.
Qed.

Lemma train_batches_ok (batch_size : Z) (cols : nat) (idxs : list (list nat))
    (batches : list nat) (s : Session R) :
  sess_ready m0 s →
  idx_ok (num_nets m0) (length inputs) cols idxs →
  ∃ fed s', mapM (train_batch inputs targets batch_size idxs) batches (set_sess s m0)
              = (Return fed, set_sess s' m0) ∧
            sess_ready m0 s'.
Proof.
  intros Hs Hidx. revert s Hs.
  induction batches as [|k batches IH]; intros s Hs; simpl.
  - exists [], s. by split.
  - destruct (train_batch_ok batch_size cols idxs k s Hs Hidx) as (b & s1 & Hb & Hs1).
    destruct (IH s1 Hs1) as (fed & s' & Hfed & Hs').
    exists (b :: fed), s'. split; [|done].
    unfold bindM, ret. rewrite Hb. unfold bindM, ret in Hfed. by rewrite Hfed.
Qed.

Lemma report_progress_ok (hold_in hold_targ : ten3 R) (H cols : nat)
    (idxs : list (list nat)) (holdout_ratio : Q) (max_logging : Z) (s : Session R) :
  sess_ready m0 s →
  idx_ok (num_nets m0) (length inputs) cols idxs →
  has_shape3 (num_nets m0) H d hold_in = true →
  has_shape3 (num_nets m0) H O hold_targ = true →
  report_progress inputs targets hold_in hold_targ idxs holdout_ratio max_logging
    (set_sess s m0) = (Return tt, set_sess s m0).
Proof.
  intros Hs Hidx Hhi Hht. unfold report_progress.
  destruct (slice_to_ok _ _ _ max_logging _ Hidx) as (cols' & Hb).
  destruct (take_rows2_ok _ _ d inputs _ Hb Hinputs) as (x & Hx & Hxs).
  destruct (take_rows2_ok _ _ O targets _ (targets_idx_ok _ _ _ Hb) Htargets)
    as (t & Ht & Hts).
  destruct (run_mse_loss_ok x t s cols' Hs Hxs Hts) as (v & Hv).
  destruct (run_mse_loss_ok hold_in hold_targ s H Hs Hhi Hht) as (w & Hw).
  unfold bindM, lift, ret. rewrite Hx, Ht, Hv.
  destruct (Qlt_le_dec _ _); [done|]. by rewrite Hw.
Qed.

Lemma argsort_in_range (u : list Q) : Forall (fun i => i < length u) (argsort u).
Proof.
  rewrite argsort_Permutation. apply Forall_forall. intros i Hi.
  apply elem_of_seq in Hi. lia.
Qed.

Lemma shuffle_rows_total (arr : list (list nat)) (u : list (list Q)) (cols : nat) :
  length u = length arr →
  Forall (fun row => length row = cols) arr →
  Forall (fun row => length row = cols) u →
  ∃ arr', shuffle_rows arr u = Return arr'.
Proof.
  intros Hlen Harr Hu. unfold shuffle_rows. apply map_outcome_total.
  apply Forall_forall. intros [row ur] Hin. simpl.
  pose proof (elem_of_zip_l _ _ _ _ Hin) as Hr.
  pose proof (elem_of_zip_r _ _ _ _ Hin) as Hur. simpl in Hr, Hur.
  rewrite Forall_forall in Harr. rewrite Forall_forall in Hu.
  apply take_rows_total. rewrite (Harr row Hr), <- (Hu ur Hur).
  apply argsort_in_range.
Qed.

Lemma idx_ok_Permutation (M n cols : nat) (a b : list (list nat)) :
  Forall2 Permutation a b → idx_ok M n cols b → idx_ok M n cols a.
Proof.
  intros Hp [Hl Hr]. split; [by rewrite (Forall2_length _ _ _ Hp)|].
  clear Hl. induction Hp as [|x y a b Hxy _ IH]; [done|].
  apply Forall_cons in Hr as [[Hlen Hlt] Hr].
  constructor; [|by apply IH]. by rewrite Hxy.
Qed.

Lemma idx_ok_rows (M n cols : nat) (idxs : list (list nat)) :
  idx_ok M n cols idxs → Forall (fun row => length row = cols) idxs.
Proof. intros [_ H]. eapply Forall_impl; [exact H|]. by intros row [? _]. Qed.

Lemma train_epoch_ok (hold_in hold_targ : ten3 R) (H : nat) (batch_size : Z)
    (hide_progress : bool) (holdout_ratio : Q) (max_logging : Z)
    (idxs : list (list nat)) (g : G) (s : Session R) :
  batch_size ≠ 0%Z →
  has_shape3 (num_nets m0) H d hold_in = true →
  has_shape3 (num_nets m0) H O hold_targ = true →
  sess_ready m0 s →
  idx_ok (num_nets m0) (length inputs) (length inputs) idxs →
  ∃ e idxs' g' s',
    train_epoch inputs targets hold_in hold_targ batch_size hide_progress
      holdout_ratio max_logging idxs g (set_sess s m0)
      = (Return (e, idxs', g'), set_sess s' m0) ∧
    sess_ready m0 s' ∧
    idx_ok (num_nets m0) (length inputs) (length inputs) idxs'.
Proof.
  intros Hbs Hhi Hht Hs Hidx. unfold train_epoch.
  assert (Hrange : ∃ batches, batch_range (length inputs) batch_size = Return batches).
  { unfold batch_range. apply Z.eqb_neq in Hbs. rewrite Hbs. eauto. }
  destruct Hrange as (batches & ->).
  destruct (train_batches_ok batch_size _ idxs batches s Hs Hidx)
    as (fed & s' & Hfed & Hs').
  destruct (draw_uniform_shape (length idxs) (length inputs) g) as [Hul Hus].
  destruct (shuffle_rows_total idxs _ (length inputs) Hul (idx_ok_rows _ _ _ _ Hidx) Hus)
    as (idxs' & Hsh).
  assert (Hidx' : idx_ok (num_nets m0) (length inputs) (length inputs) idxs').
  { eapply idx_ok_Permutation; [|exact Hidx].
    eapply shuffle_rows_Permutation; [exact Hul | by eapply idx_ok_rows | exact Hus | exact Hsh]. }
  eexists _, idxs', _, s'. split; [|by split].
  unfold bindM at 1. unfold lift at 1. unfold bindM at 1. rewrite Hfed.
  unfold bindM at 1. unfold lift at 1. unfold np_random_uniform. rewrite Hsh.
  unfold bindM at 1.
  destruct hide_progress.
  - done.
  - by rewrite (report_progress_ok hold_in hold_targ H _ idxs' holdout_ratio
                  max_logging s' Hs' Hidx' Hhi Hht).
Qed.

Lemma train_epochs_ok (n : nat) (hold_in hold_targ : ten3 R) (H : nat)
    (batch_size : Z) (hide_progress : bool) (holdout_ratio : Q) (max_logging : Z)
    (idxs : list (list nat)) (g : G) (s : Session R) :
  batch_size ≠ 0%Z →
  has_shape3 (num_nets m0) H d hold_in = true →
  has_shape3 (num_nets m0) H O hold_targ = true →
  sess_ready m0 s →
  idx_ok (num_nets m0) (length inputs) (length inputs) idxs →
  ∃ es final g' s',
    train_epochs n inputs targets hold_in hold_targ batch_size hide_progress
      holdout_ratio max_logging idxs g (set_sess s m0)
      = (Return (es, final, g'), set_sess s' m0) ∧
    sess_ready m0 s'.
Proof.
  intros Hbs Hhi Hht. revert idxs g s.
  induction n as [|n IH]; intros idxs g s Hs Hidx; simpl.
  - by exists [], idxs, g, s.
  - destruct (train_epoch_ok hold_in hold_targ H batch_size hide_progress
                holdout_ratio max_logging idxs g s Hbs Hhi Hht Hs Hidx)
      as (e & idxs1 & g1 & s1 & He & Hs1 & Hidx1).
    destruct (IH idxs1 g1 s1 Hs1 Hidx1) as (es & final & g' & s' & Hes & Hs').
    exists (e :: es), final, g', s'. split; [|done].
    unfold bindM at 1. rewrite He. simpl.
    unfold bindM at 1. rewrite Hes. done.
Qed.

End TrainOn.

Section TrainReturns.
Context {R : Type} {AR : Arith R} {G : Type} {NR : NumpyRandom G}.

Lemma take_rows_Forall {A} (P : A → Prop) (arr : list A) (idxs : list nat)
    (rows : list A) :
  take_rows arr idxs = Return rows → Forall P arr → Forall P rows.
Proof.
  intros H Harr. apply take_rows_Return in H.
  induction H as [|i r idxs rows Hi _ IH]; constructor; [|done].
  exact (Forall_lookup_1 _ _ _ _ Harr Hi).
Qed.

Lemma graph_built_set_sess (s : Session R) (m : NN R) :
  graph_built m → graph_built (set_sess s m).
Proof. unfold graph_built, model_input_dim, model_output_dim. by destruct m. Qed.

Lemma step_returns_set_sess (s : Session R) (m : NN R) :
  step_returns m → step_returns (set_sess s m).
Proof. unfold step_returns, sess_ready. by destruct m. Qed.

Lemma vars_ok_sess_ready (m : NN R) : vars_ok m → sess_ready m (sess m).
Proof. by intros [_ H]. Qed.

Lemma ready_model_set_sess (s : Session R) (m : NN R) :
  ready_model m → sess_ready m s → ready_model (set_sess s m).
Proof.
  intros (Hf & Hg & Hne & _) Hs. split; [by destruct m|].
  split; [by apply graph_built_set_sess|].
  unfold vars_ok. unfold sess_ready in Hs. by destruct m.
Qed.

Lemma replicate_shape (M H k : nat) (rows : mat R) :
  length rows = H → Forall (fun r => length r = k) rows →
  has_shape3 M H k (replicate M rows) = true.
Proof.
  intros Hl Hr. apply has_shape3_spec. rewrite length_replicate. split; [done|].
  apply Forall_replicate. by split.
Qed.

(** [self.scaler.fit] on rows of the input dimension. *)
Lemma fit_scaler_ok (m : NN R) (data : mat R) (d : nat) :
  vars_ok m → model_input_dim m = Some d →
  Forall (fun r => length r = d) data →
  ∃ s', fit_scaler data m = (Return tt, set_sess s' m) ∧ sess_ready m s'.
Proof.
  intros Hv Hd Hdata.
  destruct (vars_ok_dims m Hv) as (sc & Hsc & Hin & _).
  rewrite Hd in Hin. injection Hin as ->.
  destruct Hv as (Hne & sc' & Hsc' & [Hmu Hsg] & Hls).
  rewrite Hsc in Hsc'. injection Hsc' as <-.
  unfold fit_scaler, in_sess, scaler_fit. rewrite Hsc.
  assert (Hshape : forallb (has_shape1 (scaler_dim sc)) data = true).
  { apply forallb_forall. intros r Hr. apply has_shape1_spec.
    rewrite Forall_forall in Hdata. apply Hdata. by apply list_elem_of_In. }
  rewrite Hshape.
  set (stats := map (fun j => column_stats (column j data)) (seq 0 (scaler_dim sc))).
  assert (Hlen : length stats = scaler_dim sc)
    by (unfold stats; by rewrite length_map, length_seq).
  destruct Hmu as (im & vm & Hdm & Him & Hvm & Hsm).
  destruct (assign (mu sc) (T1 (map fst stats)) (sess m)) as [s1|] eqn:E1.
  2:{ unfold assign in E1. rewrite Hdm in E1. simpl in E1.
      unfold has_shape1 in E1. rewrite length_map, Hlen, Nat.eqb_refl in E1. done. }
  simpl. pose proof (assign_Return _ _ _ _ E1) as [Hd1 Hk1].
  destruct (Hk1 _ _ Hsg) as (is' & vs' & Hds & His & Hvs & Hss).
  destruct (assign (sigma sc) (T1 (map snd stats)) s1) as [s2|] eqn:E2.
  2:{ unfold assign in E2. rewrite Hds in E2. simpl in E2.
      unfold has_shape1 in E2. rewrite length_map, Hlen, Nat.eqb_refl in E2. done. }
  pose proof (assign_Return _ _ _ _ E2) as [Hd2 Hk2].
  exists s2. split; [done|].
  exists sc. split; [done|]. split.
  - split; apply Hk2, Hk1; [by exists im, vm | done].
  - by apply (layers_ok_kept s1), (layers_ok_kept (sess m)).
Qed.

(** A call to [train] on a finalized model returns, and leaves the model
    finalized: on [N] rows of the input dimension with as many targets of
    the output dimension, with a batch size other than zero, when the
    holdout leaves at least one row, and when the training operation of
    the optimizer returns on ready sessions. *)
Theorem train_returns (inputs targets : mat R) (batch_size epochs : Z)
    (hide_progress : bool) (holdout_ratio : Q) (max_logging : Z) (g : G)
    (m : NN R) (d O : nat) :
  ready_model m →
  step_returns m →
  model_input_dim m = Some d →
  model_output_dim m = Some O →
  Forall (fun r => length r = d) inputs →
  Forall (fun r => length r = O) targets →
  length targets = length inputs →
  batch_size ≠ 0%Z →
  (0 ≤ num_holdout inputs holdout_ratio max_logging < Z.of_nat (length inputs))%Z →
  ∃ log g' m',
    train inputs targets batch_size epochs hide_progress holdout_ratio
      max_logging g m = (Return (log, g'), m') ∧
    ready_model m' ∧ step_returns m'.
Proof.
  intros Hready Hstep Hd HO Hin Htarg Hsame Hbs Hnh.
  pose proof Hready as (Hfin & Hgraph & Hvars).
  unfold train. fold (num_holdout inputs holdout_ratio max_logging).
  pose proof (draw_permutation_perm (length inputs) g) as Hperm.
  unfold np_random_permutation.
  set (permutation := (draw_permutation (length inputs) g).1) in *.
  set (nh := num_holdout inputs holdout_ratio max_logging) in *.
  assert (Hplen : length permutation = length inputs) by (by rewrite Hperm, length_seq).
  assert (Hprange : Forall (fun i => i < length inputs) permutation).
  { rewrite Hperm. apply Forall_forall. intros i Hi. apply elem_of_seq in Hi. lia. }
  assert (Hkept : Forall (fun i => i < length inputs) (slice_from nh permutation))
    by (by apply Forall_drop).
  assert (Hheld : Forall (fun i => i < length inputs) (slice_to nh permutation))
    by (by apply Forall_take).
  assert (Hklen : 1 ≤ length (slice_from nh permutation)).
  { rewrite slice_from_length, Hplen. unfold slice_bound.
    destruct (nh <? 0)%Z eqn:E; [apply Z.ltb_lt in E; lia|]. lia. }
  destruct (take_rows_total inputs _ Hkept) as (inputs' & Hi').
  destruct (take_rows_total inputs _ Hheld) as (hin & Hhin).
  rewrite <- Hsame in Hkept, Hheld.
  destruct (take_rows_total targets _ Hkept) as (targets' & Ht').
  destruct (take_rows_total targets _ Hheld) as (htarg & Hhtarg).
  unfold bindM at 1. unfold lift at 1. rewrite Hi'.
  unfold bindM at 1. unfold lift at 1. rewrite Hhin.
  unfold bindM at 1. unfold lift at 1. rewrite Ht'.
  unfold bindM at 1. unfold lift at 1. rewrite Hhtarg.
  unfold bindM at 1. unfold gets at 1.
  pose proof (take_rows_Forall _ _ _ _ Hi' Hin) as Hin'.
  pose proof (take_rows_Forall _ _ _ _ Ht' Htarg) as Htarg'.
  pose proof (take_rows_Forall _ _ _ _ Hhin Hin) as Hhin'.
  pose proof (take_rows_Forall _ _ _ _ Hhtarg Htarg) as Hhtarg'.
  pose proof (take_rows_length _ _ _ Hi') as Hlen_i.
  pose proof (take_rows_length _ _ _ Ht') as Hlen_t.
  pose proof (take_rows_length _ _ _ Hhin) as Hlen_hi.
  pose proof (take_rows_length _ _ _ Hhtarg) as Hlen_ht.
  destruct (fit_scaler_ok m inputs' d Hvars Hd Hin') as (s1 & Hfit & Hs1).
  unfold bindM at 1. rewrite Hfit.
  unfold np_random_randint.
  destruct (length inputs' =? 0) eqn:E0; [apply Nat.eqb_eq in E0; lia|].
  apply Nat.eqb_neq in E0.
  destruct (draw_integers_shape (length inputs') (num_nets m) (length inputs')
              (draw_permutation (length inputs) g).2 ltac:(lia)) as [Hil His].
  cbn [fst snd].
  unfold bindM at 1. unfold lift at 1.
  destruct (train_epochs_ok m d O Hgraph Hstep Hd HO inputs' targets' Hin' Htarg'
              (eq_trans Hlen_t (eq_sym Hlen_i)) (Z.to_nat epochs)
              (replicate (num_nets m) hin)
              (replicate (num_nets m) htarg) (length hin) batch_size hide_progress
              holdout_ratio max_logging _
              (draw_integers (length inputs') (num_nets m) (length inputs')
                 (draw_permutation (length inputs) g).2).2 s1 Hbs
              (replicate_shape _ _ _ _ eq_refl Hhin')
              (replicate_shape _ _ _ _ (eq_trans Hlen_ht (eq_sym Hlen_hi)) Hhtarg')
              Hs1 (conj Hil His))
    as (es & final & g' & s' & Hes & Hs').
  unfold bindM at 1. rewrite Hes.
  eexists _, _, _. split; [reflexivity|].
  split; [by apply ready_model_set_sess | by apply step_returns_set_sess].
Qed.

End TrainReturns.

(** ** The finalized demo model *)

Lemma demo_finalize_returns :
  finalize QModel.frozen None QModel.diag_init ∅ Demo.two_layers
    = (Return tt, Demo.ready).
Proof.
  apply (pair_of_fst (finalize QModel.frozen None QModel.diag_init ∅ Demo.two_layers)).
  vm_compute. reflexivity.
Defined.

Lemma demo_ready : ready_model Demo.ready.
Proof.
  refine (proj1 (finalize_ready QModel.frozen None QModel.diag_init ∅
                   Demo.two_layers Demo.ready _ demo_finalize_returns)).
  exists 2. vm_compute. auto.
Defined.

(** The demo model of two networks on a batch of two rows. *)
Lemma ensemble_aggregation_witness :
  ∃ fac mean var O,
    model_output_dim Demo.ready = Some O ∧
    predict (T2 [[1; 2]; [3; 5]]%Q) true Demo.ready = Return (T3 fac, None) ∧
    predict (T2 [[1; 2]; [3; 5]]%Q) false Demo.ready
      = Return (T2 mean, Some (T2 var)) ∧
    has_shape3 (num_nets Demo.ready) 2 O fac = true ∧
    has_shape2 2 O mean = true ∧
    has_shape2 2 O var = true ∧
    ∀ b o, b < 2 → o < O →
      entry mean b o
        = member_average (num_nets Demo.ready) (fun a => entry3 fac a b o) ∧
      entry var b o
        = member_average (num_nets Demo.ready)
            (fun a => squared_deviation (entry3 fac a b o) (entry mean b o)).
Proof.
  apply (ensemble_aggregation Demo.ready [[1; 2]; [3; 5]]%Q).
  - exact demo_ready.
  - vm_compute. lia.
  - simpl. lia.
  - constructor; [vm_compute; reflexivity|].
    constructor; [vm_compute; reflexivity|]. constructor.
Defined.

(** The optimizer of the demo model meets the assumption, and the demo
    call returns. *)
Lemma demo_step_returns : step_returns Demo.ready.
Proof.
  intros op tin ttarg Hop _ _ x t s Hs _ _.
  assert (Hfrozen : train_op Demo.ready = Some (fun _ _ s => Return s))
    by (vm_compute; reflexivity).
  rewrite Hfrozen in Hop. injection Hop as <-. eauto.
Qed.

Lemma train_returns_demo :
  ∃ log g' m',
    train Demo.X Demo.Y 2 2 false (3 # 10) 5000 0%nat Demo.ready
      = (Return (log, g'), m') ∧
    ready_model m' ∧ step_returns m'.
Proof.
  apply (train_returns Demo.X Demo.Y 2 2 false (3 # 10) 5000 0%nat Demo.ready 2 1).
  - exact demo_ready.
  - exact demo_step_returns.
  - vm_compute. reflexivity.
  - vm_compute. reflexivity.
  - repeat constructor.
  - repeat constructor.
  - reflexivity.
  - lia.
  - vm_compute. split; [discriminate | reflexivity].
Qed.

(** * Further properties of the model object *)

(** ** Models under construction *)

Section UnderConstruction.
Context {R : Type} {AR : Arith R} {G : Type} {NR : NumpyRandom G}.

(** The models that [__init__], [add] and [pop] produce. *)
Inductive built : NN R → Prop :=
  | built_init (params : Params R) (m : NN R) :
      NN_init params = Return m → built m
  | built_add (layer layer' : Layer R) (m m' : NN R) :
      built m → add layer m = (Return tt, m', layer') → built m'
  | built_pop (l : Layer R) (m m' : NN R) :
      built m → pop m = (Return l, m') → built m'.

(** A layer that holds no variable yet. *)
Definition unconstructed (l : Layer R) : Prop :=
  weights l = None ∧ biases l = None.

(** What [__init__] sets and [add] and [pop] keep. *)
Definition blank_graph (m : NN R) : Prop :=
  finalized m = false ∧ model_loaded m = false ∧
  scaler m = None ∧ optimizer m = None ∧
  decays m = [] ∧ optvars m = [] ∧ nonoptvars m = [] ∧
  train_op m = None ∧ mse_loss m = None ∧
  sy_train_in m = None ∧ sy_train_targ m = None ∧
  sy_pred_in2d m = None ∧ sy_pred_mean2d_fac m = None ∧
  sy_pred_mean2d m = None ∧ sy_pred_var2d m = None ∧
  sy_pred_in3d m = None ∧ sy_pred_mean3d_fac m = None.

Lemma blank_graph_set_layers (ls : list (Layer R)) (m : NN R) :
  blank_graph m → blank_graph (set_layers ls m).
Proof. unfold blank_graph. by destruct m. Qed.

Lemma NN_init_blank (params : Params R) (m : NN R) :
  NN_init params = Return m →
  blank_graph m ∧ layers m = [] ∧ num_nets m = default 1 (p_num_networks params).
Proof.
  unfold NN_init. intros H.
  destruct (p_name params) as [nm|]; [|done].
  destruct (default false (p_load_model params)).
  - destruct (p_model_dir params); [|done]. injection H as <-.
    unfold blank_graph. simpl. repeat split; reflexivity.
  - injection H as <-. unfold blank_graph. simpl. repeat split; reflexivity.
Qed.

Lemma add_Return (layer layer' : Layer R) (m m' : NN R) :
  add layer m = (Return tt, m', layer') →
  finalized m = false ∧ model_loaded m = false ∧
  (layers m = [] → is_Some (input_dim layer)) ∧
  layer' = match last (layers m) with
           | Some prev => set_input_dim (output_dim prev)
                            (set_ensemble_size (num_nets m) layer)
           | None => set_ensemble_size (num_nets m) layer
           end ∧
  m' = set_layers (layers m ++ [copy layer']) m.
Proof.
  unfold add. intros H.
  destruct (finalized m); [done|].
  destruct ((length (layers m) =? 0) &&
            negb (bool_decide (is_Some (get_input_dim layer)))) eqn:E; [done|].
  destruct (model_loaded m); [done|].
  injection H as <- <-. repeat split; try done.
  intros Hl. rewrite Hl in E. simpl in E.
  apply negb_false_iff, bool_decide_eq_true in E. done.
Qed.

Lemma pop_Return (l : Layer R) (m m' : NN R) :
  pop m = (Return l, m') →
  finalized m = false ∧ model_loaded m = false ∧
  last (layers m) = Some l ∧ m' = set_layers (removelast (layers m)) m.
Proof.
  unfold pop. intros H.
  destruct (last (layers m)) as [l0|]; [|done].
  destruct (finalized m); [done|]. destruct (model_loaded m); [done|].
  by injection H as <- <-.
Qed.

Lemma Forall_removelast {A} (P : A → Prop) (xs : list A) :
  Forall P xs → Forall P (removelast xs).
Proof.
  induction 1 as [|x xs Hx Hxs IH]; [done|].
  destruct xs as [|y ys]; [by apply Forall_nil|].
  change (removelast (x :: y :: ys)) with (x :: removelast (y :: ys)).
  by constructor.
Qed.

(** The invariant of construction. *)
Lemma built_invariant (m : NN R) :
  built m →
  blank_graph m ∧ well_chained m ∧ Forall unconstructed (layers m).
Proof.
  induction 1 as [params m Hinit | layer layer' m m' _ IH Hadd | l m m' _ IH Hpop].
  - destruct (NN_init_blank params m Hinit) as (Hb & Hl & _).
    rewrite Hl. split; [done|]. split; [|by apply Forall_nil].
    exists 0. by rewrite Hl.
  - destruct IH as (Hb & Hc & Hu).
    pose proof (add_chained layer layer' m m' Hc Hadd) as Hc'.
    apply add_Return in Hadd as (_ & _ & _ & _ & ->).
    split; [by apply blank_graph_set_layers|]. split; [done|].
    replace (layers (set_layers _ m)) with (layers m ++ [copy layer'])
      by (by destruct m).
    apply Forall_app. split; [done|]. by repeat constructor.
  - destruct IH as (Hb & Hc & Hu).
    pose proof (pop_chained l m m' Hc Hpop) as Hc'.
    apply pop_Return in Hpop as (_ & _ & _ & ->).
    split; [by apply blank_graph_set_layers|]. split; [done|].
    replace (layers (set_layers _ m)) with (removelast (layers m))
      by (by destruct m).
    by apply Forall_removelast.
Qed.

Lemma chained_Forall (M d : nat) (ls : list (Layer R)) :
  chained M d ls →
  Forall (fun l => ensemble_size l = Some M ∧ is_Some (input_dim l)) ls.
Proof.
  revert d. induction ls as [|l ls IH]; intros d H; [by apply Forall_nil|].
  destruct H as (Hd & He & H). constructor; [by rewrite Hd; eauto | by eapply IH].
Qed.

Lemma chained_adjacent (M d : nat) (ls : list (Layer R)) (i : nat) (a b : Layer R) :
  chained M d ls →
  ls !! i = Some a → ls !! S i = Some b → input_dim b = Some (output_dim a).
Proof.
  revert d i. induction ls as [|l ls IH]; intros d i H Ha Hb; [done|].
  destruct H as (_ & _ & H). destruct i as [|i].
  - simpl in Ha. injection Ha as ->. destruct ls as [|l' ls]; [done|].
    simpl in Hb. injection Hb as ->. apply H.
  - by eapply (IH _ i).
Qed.

Lemma chained_last (M d : nat) (ls : list (Layer R)) (l : Layer R) :
  chained M d (ls ++ [l]) →
  ensemble_size l = Some M ∧
  input_dim l = Some (chain_output d ls).
Proof.
  revert d. induction ls as [|l0 ls IH]; intros d H.
  - destruct H as (Hd & He & _). by split.
  - destruct H as (_ & _ & H). rewrite chain_output_cons. by apply IH.
Qed.

(** X1: every model that [__init__], [add] and [pop] produce is open and
    well formed.  It is not finalized and not marked as loaded, it has no
    scaler, no collected variable and no prediction handle; every layer
    in its list is an unconstructed template whose ensemble size is the
    number of networks of the model and whose input dimension is set;
    and every layer after the first takes what the layer before it puts
    out. *)
Theorem construction_invariant (m : NN R) :
  built m →
  finalized m = false ∧ model_loaded m = false ∧
  scaler m = None ∧ optvars m = [] ∧ nonoptvars m = [] ∧ decays m = [] ∧
  sy_pred_mean2d_fac m = None ∧ sy_pred_mean2d m = None ∧
  sy_pred_mean3d_fac m = None ∧
  Forall (fun l => ensemble_size l = Some (num_nets m) ∧ is_Some (input_dim l) ∧
                   weights l = None ∧ biases l = None) (layers m) ∧
  (∀ i a b, layers m !! i = Some a → layers m !! S i = Some b →
            input_dim b = Some (output_dim a)).
Proof.
  intros Hb. apply built_invariant in Hb as (Hblank & [d Hc] & Hu).
  destruct Hblank as (? & ? & ? & ? & ? & ? & ? & ? & ? & ? & ? & ? & ? & ? & ? & ? & ?).
  repeat (split; [done|]). split.
  - apply chained_Forall in Hc.
    rewrite Forall_forall in Hc. rewrite Forall_forall in Hu.
    apply Forall_forall. intros l Hl.
    destruct (Hc l Hl) as [He Hi]. destruct (Hu l Hl) as [Hw Hbi]. done.
  - intros i a b Ha Hbb. exact (chained_adjacent _ _ _ _ _ _ Hc Ha Hbb).
Qed.

(** X2: on a model that [__init__], [add] and [pop] produced, calling
    [pop] and then [add] with the layer that [pop] returned gives the
    model back as it was, and leaves the layer as it was. *)
Theorem pop_then_add (m m' : NN R) (l : Layer R) :
  built m →
  pop m = (Return l, m') →
  add l m' = (Return tt, m, l).
Proof.
  intros Hb Hpop. apply built_invariant in Hb as (_ & [d Hc] & Hu).
  apply pop_Return in Hpop as (Hf & Hl & Hlast & ->).
  assert (Hls : layers m = removelast (layers m) ++ [l]).
  { apply last_Some in Hlast as [ls' Hls']. by rewrite Hls', removelast_last. }
  rewrite Hls in Hc. rewrite Hls in Hu.
  apply chained_last in Hc as [He Hi].
  apply Forall_app in Hu as [_ Hu]. apply Forall_cons in Hu as [[Hw Hbs] _].
  unfold add.
  replace (finalized (set_layers _ m)) with (finalized m) by (by destruct m).
  replace (model_loaded (set_layers _ m)) with (model_loaded m) by (by destruct m).
  replace (num_nets (set_layers _ m)) with (num_nets m) by (by destruct m).
  replace (layers (set_layers _ m)) with (removelast (layers m)) by (by destruct m).
  rewrite Hf, Hl. unfold get_input_dim. rewrite Hi.
  rewrite bool_decide_eq_true_2 by eauto.
  rewrite andb_false_r.
  assert (Hsame : match last (removelast (layers m)) with
                  | Some prev => set_input_dim (get_output_dim prev)
                                   (set_ensemble_size (num_nets m) l)
                  | None => set_ensemble_size (num_nets m) l
                  end = l).
  { unfold chain_output in Hi.
    destruct (last (removelast (layers m))) as [prev|].
    - destruct l; simpl in *. unfold set_input_dim, set_ensemble_size. simpl.
      by rewrite He, Hi.
    - destruct l; simpl in *. unfold set_ensemble_size. simpl. by rewrite He. }
  rewrite Hsame.
  assert (Hcopy : copy l = l).
  { destruct l; simpl in *. unfold copy. simpl. by rewrite Hw, Hbs. }
  rewrite Hcopy, <- Hls. f_equal. f_equal. by destruct m.
Qed.

(** X3: on a model that [__init__], [add] and [pop] produced, [add] fails
    only for want of an input dimension on the first layer, and [pop]
    only on an empty list; a failing call leaves the model and the layer
    as they were, and a call that returns changes the number of layers by
    one.  The errors about a loaded model are never raised. *)
Theorem construction_errors (m : NN R) (layer : Layer R) :
  built m →
  (if bool_decide (layers m = []) && bool_decide (input_dim layer = None)
   then add layer m = (Raise ValueError, m, layer)
   else ∃ m' layer', add layer m = (Return tt, m', layer') ∧
                     length (layers m') = S (length (layers m))) ∧
  (if bool_decide (layers m = [])
   then pop m = (Raise RuntimeError, m)
   else ∃ l m', pop m = (Return l, m') ∧
                S (length (layers m')) = length (layers m)).
Proof.
  intros Hb. apply built_invariant in Hb as (Hblank & _ & _).
  destruct Hblank as (Hf & Hl & _). split.
  - unfold add. rewrite Hf, Hl. unfold get_input_dim.
    destruct (layers m) as [|l0 ls] eqn:E.
    + rewrite bool_decide_eq_true_2 by done. simpl.
      destruct (input_dim layer) as [d0|] eqn:Ed.
      * rewrite (bool_decide_eq_false_2 (Some d0 = None)) by done.
        rewrite bool_decide_eq_true_2 by eauto. simpl.
        eexists _, _. split; [done|]. done.
      * rewrite (bool_decide_eq_true_2 (None = None)) by done.
        rewrite bool_decide_eq_false_2 by (by intros [? ?]). done.
    + rewrite bool_decide_eq_false_2 by done. simpl.
      eexists _, _. split; [done|]. unfold set_layers. simpl.
      rewrite length_app. simpl. lia.
  - unfold pop. rewrite Hf, Hl.
    destruct (layers m) as [|l0 ls] eqn:E.
    + by rewrite bool_decide_eq_true_2.
    + rewrite bool_decide_eq_false_2 by done.
      destruct (last (l0 :: ls)) as [l|] eqn:El; [|by apply last_None in El].
      eexists _, _. split; [done|]. unfold set_layers. simpl layers.
      clear El E. revert l0. induction ls as [|y ys IH]; intros l0; [done|].
      specialize (IH y). simpl in *. lia.
Qed.

(** X4: a model that [__init__], [add] and [pop] produced, and that was
    never passed to [finalize], can be neither trained, nor asked for a
    prediction, nor saved: the three calls raise, and [save] writes
    nothing. *)
Theorem open_model_unusable (m : NN R) inputs targets batch_size epochs
    hide_progress holdout_ratio max_logging (g : G) x factored savedir
    (fs : gmap string (file R)) :
  built m →
  is_Return (train inputs targets batch_size epochs hide_progress
               holdout_ratio max_logging g m).1 = false ∧
  is_Return (predict x factored m) = false ∧
  save savedir m fs = (Raise RuntimeError, fs).
Proof.
  intros Hb. apply built_invariant in Hb as (Hblank & _ & _).
  destruct Hblank as (Hf & _ & Hsc & _ & _ & _ & _ & _ & _ & _ & _ & _ & H2f & H2 & _ & _ & H3).
  destruct (unbuilt_model_fails m inputs targets batch_size epochs hide_progress
              holdout_ratio max_logging g x factored Hsc H2f H2 H3) as [Ht Hp].
  split; [done|]. split; [done|].
  unfold save. by rewrite Hf.
Qed.

End UnderConstruction.

Definition demo_params : Params Q :=
  {| p_name := Some "dyn"; p_num_networks := Some 2;
     p_model_dir := None; p_load_model := None; p_sess := None |}.

Lemma demo_built : built Demo.two_layers.
Proof.
  apply (built_add (QModel.FC 1 None)
           (add (QModel.FC 1 None) Demo.one_layer).2 Demo.one_layer).
  - apply (built_add (QModel.FC 2 (Some 2))
             (add (QModel.FC 2 (Some 2)) Demo.empty).2 Demo.empty).
    + apply (built_init demo_params). reflexivity.
    + reflexivity.
  - reflexivity.
Defined.

Lemma construction_invariant_witness :
  finalized Demo.two_layers = false ∧ model_loaded Demo.two_layers = false ∧
  scaler Demo.two_layers = None ∧ optvars Demo.two_layers = [] ∧
  nonoptvars Demo.two_layers = [] ∧ decays Demo.two_layers = [] ∧
  sy_pred_mean2d_fac Demo.two_layers = None ∧ sy_pred_mean2d Demo.two_layers = None ∧
  sy_pred_mean3d_fac Demo.two_layers = None ∧
  Forall (fun l => ensemble_size l = Some (num_nets Demo.two_layers) ∧
                   is_Some (input_dim l) ∧
                   weights l = None ∧ biases l = None) (layers Demo.two_layers) ∧
  (∀ i a b, layers Demo.two_layers !! i = Some a →
            layers Demo.two_layers !! S i = Some b →
            input_dim b = Some (output_dim a)).
Proof. apply (construction_invariant Demo.two_layers). exact demo_built. Defined.

Lemma pop_then_add_witness :
  pop Demo.two_layers = (Return (copy (add (QModel.FC 1 None) Demo.one_layer).2),
                         Demo.one_layer) ∧
  add (copy (add (QModel.FC 1 None) Demo.one_layer).2) Demo.one_layer
    = (Return tt, Demo.two_layers, copy (add (QModel.FC 1 None) Demo.one_layer).2).
Proof.
  split; [reflexivity|].
  apply (pop_then_add Demo.two_layers Demo.one_layer); [exact demo_built | reflexivity].
Defined.

Lemma construction_errors_witness :
  (∃ m' layer', add (QModel.FC 3 None) Demo.two_layers = (Return tt, m', layer') ∧
                length (layers m') = S (length (layers Demo.two_layers))) ∧
  (∃ l m', pop Demo.two_layers = (Return l, m') ∧
           S (length (layers m')) = length (layers Demo.two_layers)).
Proof.
  exact (construction_errors Demo.two_layers (QModel.FC 3 None) demo_built).
Defined.

Lemma open_model_unusable_witness :
  is_Return (train Demo.X Demo.Y 2 2 false (3 # 10) 5000 0%nat Demo.two_layers).1
    = false ∧
  is_Return (predict (T2 Demo.X) false Demo.two_layers) = false ∧
  save (Some "out") Demo.two_layers ∅ = (Raise RuntimeError, ∅).
Proof.
  apply (open_model_unusable Demo.two_layers). exact demo_built.
Defined.

(** ** What [finalize] changes *)

Section FinalizeFrame.
Context {R : Type} {AR : Arith R}.

(** The attributes that no stage of [finalize] touches; of the layers,
    the templates. *)
Definition frame (m : NN R)
    : string * option string * nat * bool * bool * list (Layer R) :=
  (name m, model_dir m, num_nets m, model_loaded m, load_model_values m,
   map copy (layers m)).

Definition keeps_frame {A} (c : M R A) : Prop :=
  ∀ m, frame (c m).2 = frame m ∧ finalized (c m).2 = finalized m.

(** The flag is set exactly when the computation returns. *)
Definition flags_outcome {A} (c : M R A) : Prop :=
  ∀ m, frame (c m).2 = frame m ∧
       finalized (c m).2 = finalized m || is_Return (c m).1.

Lemma keeps_frame_bindM {A B} (c : M R A) (k : A → M R B) :
  keeps_frame c → (∀ a, keeps_frame (k a)) → keeps_frame (bindM c k).
Proof.
  intros Hc Hk m. unfold bindM. destruct (Hc m) as [H1 H2].
  destruct (c m) as [[a|e] m1]; simpl in *; [|done].
  destruct (Hk a m1) as [H3 H4]. split; congruence.
Qed.

Lemma flags_outcome_bindM {A B} (c : M R A) (k : A → M R B) :
  keeps_frame c → (∀ a, flags_outcome (k a)) → flags_outcome (bindM c k).
Proof.
  intros Hc Hk m. unfold bindM. destruct (Hc m) as [H1 H2].
  destruct (c m) as [[a|e] m1]; simpl in *.
  - destruct (Hk a m1) as [H3 H4]. split; congruence.
  - by rewrite orb_false_r.
Qed.

Lemma keeps_frame_ret {A} (a : A) : keeps_frame (ret a).
Proof. by intros m. Qed.

Lemma keeps_frame_gets {A} (f : NN R → A) : keeps_frame (gets f).
Proof. by intros m. Qed.

Lemma keeps_frame_in_sess f : keeps_frame (in_sess f).
Proof. intros m. unfold in_sess. by destruct (f (sess m)). Qed.

Lemma keeps_frame_for_eachM {A} (body : A → M R unit) (xs : list A) :
  (∀ x, keeps_frame (body x)) → keeps_frame (for_eachM body xs).
Proof.
  intros Hb. induction xs as [|x xs IH]; simpl.
  - apply keeps_frame_ret.
  - apply keeps_frame_bindM; [apply Hb | intros _; apply IH].
Qed.

Lemma construct_vars_copy (scope : string) (init : nat → nat → nat → R)
    (l l' : Layer R) (s s' : Session R) :
  construct_vars scope init l s = Return (l', s') → copy l' = copy l.
Proof.
  unfold construct_vars. intros H.
  destruct (input_dim l) as [d|] eqn:Ed; [|done].
  destruct (ensemble_size l) as [e|] eqn:Ee; [|done].
  destruct (get_variable _ _ _ s) as [s1|]; [|done]. simpl in H.
  destruct (get_variable _ _ _ s1) as [s2|]; [|done]. simpl in H.
  injection H as <- _. unfold copy. simpl. by rewrite Ed, Ee.
Qed.

Lemma map_insert_same {A B} (f : A → B) (xs : list A) (i : nat) (x x' : A) :
  xs !! i = Some x → f x' = f x → map f (<[i := x']> xs) = map f xs.
Proof.
  revert i. induction xs as [|y ys IH]; intros i Hi Hf; [done|].
  destruct i as [|i]; simpl in *.
  - injection Hi as ->. by rewrite Hf.
  - f_equal. by apply IH.
Qed.

Lemma keeps_frame_construct_layer init i : keeps_frame (construct_layer init i).
Proof.
  intros m. unfold construct_layer.
  destruct (layers m !! i) as [l|] eqn:El; [|done].
  destruct (construct_vars _ _ _ _) as [[l' s']|e] eqn:Ev; [|done].
  apply construct_vars_copy in Ev. unfold frame. simpl.
  by rewrite (map_insert_same copy (layers m) i l l' El Ev).
Qed.

Lemma keeps_frame_construct_scaler : keeps_frame construct_scaler.
Proof.
  intros m. unfold construct_scaler.
  by destruct (TensorStandardScaler _ _ _) as [[sc s']|e].
Qed.

Lemma keeps_frame_construct_all init : keeps_frame (construct_all init).
Proof.
  unfold construct_all.
  apply keeps_frame_bindM; [apply keeps_frame_construct_scaler | intros _].
  apply keeps_frame_bindM; [apply keeps_frame_gets | intros n].
  apply keeps_frame_for_eachM. intros i. apply keeps_frame_construct_layer.
Qed.

Lemma keeps_frame_collect_nonoptvars : keeps_frame collect_nonoptvars.
Proof. intros m. unfold collect_nonoptvars. by destruct (scaler m). Qed.

Lemma keeps_frame_setup_training optimizer args :
  keeps_frame (setup_training optimizer args).
Proof.
  intros m. unfold setup_training.
  destruct (scaler m), (head (layers m)), (last (layers m)); try done.
  by destruct (for_each _ _ _).
Qed.

Lemma keeps_frame_initialize_variables : keeps_frame initialize_variables.
Proof. intros m. unfold initialize_variables. apply keeps_frame_in_sess. Qed.

Lemma keeps_frame_setup_prediction : keeps_frame setup_prediction.
Proof.
  intros m. unfold setup_prediction.
  by destruct (scaler m), (head (layers m)).
Qed.

Lemma keeps_frame_load_values fs : keeps_frame (load_values fs).
Proof.
  intros m. unfold load_values.
  destruct (model_loaded m || load_model_values m); [|done].
  destruct (model_dir m) as [path|]; [|done].
  destruct (np_load fs path) as [data|]; [|done].
  apply keeps_frame_for_eachM. intros kv. apply keeps_frame_in_sess.
Qed.

(** What a call to [finalize] leaves alone, and when it sets the flag. *)
Lemma finalize_frame (optimizer : OptArgs R → Optimizer R)
    (optimizer_args : option (OptArgs R)) (init : string → nat → nat → nat → R)
    (fs : gmap string (file R)) (m m' : NN R) (r : outcome unit) :
  finalize optimizer optimizer_args init fs m = (r, m') →
  frame m' = frame m ∧ finalized m' = finalized m || is_Return r.
Proof.
  unfold finalize.
  destruct (length (layers m) =? 0).
  { intros H. injection H as <- <-. by rewrite orb_false_r. }
  destruct (finalized m) eqn:Ef.
  { intros H. injection H as <- <-. by rewrite Ef. }
  cbv zeta. intros H.
  match type of H with
  | ?c m = _ =>
      assert (Hc : flags_outcome c);
      [| destruct (Hc m) as [H1 H2]; rewrite H in H1, H2; simpl in H1, H2;
         by rewrite <- Ef ]
  end.
  apply flags_outcome_bindM; [by intros m0 | intros _].
  apply flags_outcome_bindM; [apply keeps_frame_construct_all | intros _].
  apply flags_outcome_bindM; [apply keeps_frame_collect_nonoptvars | intros _].
  apply flags_outcome_bindM; [apply keeps_frame_setup_training | intros _].
  apply flags_outcome_bindM; [apply keeps_frame_initialize_variables | intros _].
  apply flags_outcome_bindM; [apply keeps_frame_setup_prediction | intros _].
  apply flags_outcome_bindM; [apply keeps_frame_load_values | intros _].
  intros m0. unfold modify. simpl. by rewrite orb_true_r.
Qed.

(** X5: whatever the outcome of a call to [finalize], the name, the
    directory, the number of networks and the load flags of the model are
    as before, and so is the template of every layer (dimensions,
    ensemble size, activation, weight decay); the model is finalized
    after the call exactly if it was before or the call returned.  A
    call that raises, at whatever stage, leaves the model unfinalized. *)
Theorem finalize_sets_flag_on_return (optimizer : OptArgs R → Optimizer R)
    (optimizer_args : option (OptArgs R)) (init : string → nat → nat → nat → R)
    (fs : gmap string (file R)) (m m' : NN R) (r : outcome unit) :
  finalize optimizer optimizer_args init fs m = (r, m') →
  name m' = name m ∧ model_dir m' = model_dir m ∧ num_nets m' = num_nets m ∧
  model_loaded m' = model_loaded m ∧
  load_model_values m' = load_model_values m ∧
  map copy (layers m') = map copy (layers m) ∧
  finalized m' = finalized m || is_Return r.
Proof.
  intros H. apply finalize_frame in H as [Hfr Hfin]. unfold frame in Hfr.
  injection Hfr as -> -> -> -> -> ->. done.
Qed.

End FinalizeFrame.

(** ** What [finalize] collects, and what it loads *)

Section FinalizeLists.
Context {R : Type} {AR : Arith R}.

(** A layer whose two variables exist. *)
Definition constructed (l : Layer R) : Prop :=
  is_Some (weights l) ∧ is_Some (biases l).

Lemma construct_vars_constructed (scope : string) (init : nat → nat → nat → R)
    (l l' : Layer R) (s s' : Session R) :
  construct_vars scope init l s = Return (l', s') → constructed l'.
Proof.
  unfold construct_vars. intros H.
  destruct (input_dim l) as [d|]; [|done].
  destruct (ensemble_size l) as [e|]; [|done].
  destruct (get_variable _ _ _ s) as [s1|]; [|done]. simpl in H.
  destruct (get_variable _ _ _ s1) as [s2|]; [|done]. simpl in H.
  injection H as <- _. split; simpl; eauto.
Qed.

(** The loop of [finalize] over the layers, from the layer at position
    [length done] on: what it appends to the lists of the model. *)
Lemma construct_loop_lists (init : string → nat → nat → nat → R)
    (todo done : list (Layer R)) (m m' : NN R) :
  layers m = done ++ todo →
  for_eachM (construct_layer init) (seq (length done) (length todo)) m
    = (Return tt, m') →
  ∃ made,
    layers m' = done ++ made ∧ length made = length todo ∧
    Forall constructed made ∧
    optvars m' = optvars m ++ concat (map get_vars made) ∧
    decays m' = decays m ++ concat (map get_decays made) ∧
    nonoptvars m' = nonoptvars m ∧ scaler m' = scaler m.
Proof.
  revert done m. induction todo as [|l todo IH]; intros done m Hl H.
  - simpl in H. injection H as <-. exists []. rewrite app_nil_r in Hl.
    simpl. by rewrite !app_nil_r.
  - simpl in H. unfold bindM in H.
    destruct (construct_layer init (length done) m) as [[[]|e] m1] eqn:E1; [|done].
    unfold construct_layer in E1.
    rewrite Hl, list_lookup_middle in E1 by done.
    destruct (construct_vars _ _ l (sess m)) as [[l' s']|e] eqn:Ev; [|done].
    apply construct_vars_constructed in Ev.
    injection E1 as <-.
    assert (Hins : <[length done := l']> (done ++ l :: todo) = (done ++ [l']) ++ todo).
    { rewrite insert_app_r_alt, Nat.sub_diag by lia. simpl. by rewrite <- app_assoc. }
    rewrite Hins in H.
    specialize (IH (done ++ [l'])). rewrite length_app in IH. simpl length in IH.
    rewrite Nat.add_1_r in IH.
    apply IH in H; [|done].
    destruct H as (made & H1 & H2 & H3 & H4 & H5 & H6 & H7).
    exists (l' :: made). simpl in *.
    rewrite H1, H4, H5, <- !app_assoc. simpl.
    repeat split; try done; [lia | by constructor].
Qed.

(** A call to [finalize] that returns, taken apart at the stage that
    loads values. *)
Lemma finalize_Return (optimizer : OptArgs R → Optimizer R)
    (optimizer_args : option (OptArgs R)) (init : string → nat → nat → nat → R)
    (fs : gmap string (file R)) (m m' : NN R) :
  finalize optimizer optimizer_args init fs m = (Return tt, m') →
  ∃ m2 m6 m7 sc,
    construct_all init (set_optimizer (Some (optimizer (default [] optimizer_args))) m)
      = (Return tt, m2) ∧
    scaler m2 = Some sc ∧
    layers m6 = layers m2 ∧ optvars m6 = optvars m2 ∧ decays m6 = decays m2 ∧
    nonoptvars m6 = nonoptvars m2 ++ scaler_get_vars sc ∧
    scaler m6 = Some sc ∧
    load_mode m6 = load_mode m ∧
    load_values fs m6 = (Return tt, m7) ∧
    m' = set_finalized true m7.
Proof.
  intros H. unfold finalize in H.
  destruct (length (layers m) =? 0); [done|].
  destruct (finalized m); [done|].
  cbv zeta in H.
  apply bindM_Return in H as ([] & m1 & H1 & H). unfold modify in H1. injection H1 as <-.
  apply bindM_Return in H as ([] & m2 & H2 & H).
  apply bindM_Return in H as ([] & m3 & H3 & H).
  apply bindM_Return in H as ([] & m4 & H4 & H).
  apply bindM_Return in H as ([] & m5 & H5 & H).
  apply bindM_Return in H as ([] & m6 & H6 & H).
  apply bindM_Return in H as ([] & m7 & H7 & H).
  unfold modify in H. injection H as <-.
  assert (Hmode : load_mode m6 = load_mode m).
  { pose proof (keeps_setup_prediction m5) as K6. rewrite H6 in K6.
    pose proof (keeps_initialize_variables m4) as K5. rewrite H5 in K5.
    pose proof (keeps_setup_training optimizer (default [] optimizer_args) m3) as K4.
    rewrite H4 in K4.
    pose proof (keeps_collect_nonoptvars m2) as K3. rewrite H3 in K3.
    pose proof (keeps_construct_all init
                  (set_optimizer (Some (optimizer (default [] optimizer_args))) m)) as K2.
    rewrite H2 in K2. simpl in *.
    rewrite K6, K5, K4, K3, K2. by destruct m. }
  unfold collect_nonoptvars in H3.
  destruct (scaler m2) as [sc|] eqn:Esc; [|done]. injection H3 as <-.
  unfold setup_training in H4. simpl in H4. rewrite Esc in H4.
  destruct (head (layers m2)) as [first|] eqn:Ehead; [|done].
  destruct (last (layers m2)) as [final|] eqn:Elast; [|done].
  destruct (for_each _ _ _) as [s4|] eqn:Eslots; [|done].
  injection H4 as <-.
  unfold initialize_variables, in_sess in H5.
  destruct (variables_initializer _ _) as [s5|] eqn:Einit; [|done].
  injection H5 as <-.
  unfold setup_prediction in H6. simpl in H6. rewrite Esc, Ehead in H6.
  injection H6 as <-.
  match type of H7 with load_values _ ?x = _ => exists m2, x, m7, sc end.
  repeat split; done.
Qed.

(** A call to [finalize] that returns has appended to [optvars] the
    weights and biases of every layer, layer by layer, to [decays] one
    penalty per layer, and to [nonoptvars] the variables of the scaler. *)
Lemma finalize_lists (optimizer : OptArgs R → Optimizer R)
    (optimizer_args : option (OptArgs R)) (init : string → nat → nat → nat → R)
    (fs : gmap string (file R)) (m m' : NN R) :
  finalize optimizer optimizer_args init fs m = (Return tt, m') →
  length (layers m') = length (layers m) ∧
  Forall constructed (layers m') ∧
  optvars m' = optvars m ++ concat (map get_vars (layers m')) ∧
  decays m' = decays m ++ map decay_penalty (layers m') ∧
  ∃ sc, scaler m' = Some sc ∧
        nonoptvars m' = nonoptvars m ++ [mu sc; sigma sc].
Proof.
  intros H.
  apply finalize_Return in H
    as (m2 & m6 & m7 & sc & H2 & Hsc2 & Hl6 & Ho6 & Hd6 & Hn6 & Hsc6 & _ & H7 & ->).
  apply load_values_Return in H7 as (s7 & -> & _).
  unfold construct_all in H2.
  apply bindM_Return in H2 as ([] & ma & Ha & H2).
  apply bindM_Return in H2 as (n & mb & Hn & H2).
  apply gets_Return in Hn as [-> ->].
  unfold construct_scaler in Ha.
  destruct (TensorStandardScaler _ _ _) as [[sc0 sa]|] eqn:Esc; [|done].
  injection Ha as <-.
  apply (construct_loop_lists init _ []) in H2; [|done].
  destruct H2 as (made & H1 & Hlen & Hmade & Hopt & Hdec & Hnon & Hscm).
  assert (Hcd : concat (map get_decays made) = map decay_penalty made).
  { clear. induction made as [|l made IH]; [done|]. simpl. by rewrite IH. }
  rewrite Hcd in Hdec.
  simpl in H1, Hlen, Hopt, Hdec, Hnon, Hscm. simpl.
  rewrite Hl6, Ho6, Hd6, Hn6, H1, Hopt, Hdec, Hnon.
  repeat split; try done.
  exists sc. by rewrite Hsc6.
Qed.

(** *** Loading by name *)

(** The loop that assigns the arrays of an archive. *)
Lemma assign_all_Return (data : list (string * tval R)) (m m' : NN R) :
  for_eachM (fun kv => in_sess (assign kv.1 kv.2)) data m = (Return tt, m') →
  ∃ s', m' = set_sess s' m ∧ declared s' = declared (sess m) ∧
        Forall (fun kv => ∃ sh init, declared (sess m) !! kv.1 = Some (sh, init) ∧
                                     has_shape sh kv.2 = true) data ∧
        (∀ n, n ∉ map fst data → store s' !! n = store (sess m) !! n) ∧
        (NoDup (map fst data) →
         Forall (fun kv => store s' !! kv.1 = Some kv.2) data).
Proof.
  revert m. induction data as [|kv data IH]; intros m H; simpl in H.
  - injection H as <-. exists (sess m). split; [by destruct m|].
    repeat split; try done; by intros; apply Forall_nil.
  - unfold bindM, in_sess in H.
    destruct (assign kv.1 kv.2 (sess m)) as [s1|] eqn:E; [|done].
    apply IH in H as (s' & -> & Hd & Hall & Hother & Hvals).
    unfold assign in E.
    destruct (declared (sess m) !! kv.1) as [[sh init]|] eqn:Ek; [|done].
    destruct (has_shape sh kv.2) eqn:Esh; [|done]. injection E as <-.
    simpl in *.
    exists s'. split; [by destruct m|]. split; [done|]. split; [|split].
    + constructor; [eauto|done].
    + intros n Hn. rewrite Hother.
      * apply lookup_insert_ne. intros Heq. apply Hn. apply elem_of_cons. by left.
      * intros Hin. apply Hn. apply elem_of_cons. by right.
    + intros Hnd. apply NoDup_cons in Hnd as [Hk Hnd]. constructor; [|by apply Hvals].
      rewrite Hother by done. apply lookup_insert_eq.
Qed.

(** X6: in load mode, a call to [finalize] that returns has found a numpy
    archive at [model_dir], and every name of the archive is a variable
    of the graph whose shape the array has; when the names of the archive
    are distinct, every such variable holds the array of its name after
    the call. *)
Theorem finalize_restores_by_name (optimizer : OptArgs R → Optimizer R)
    (optimizer_args : option (OptArgs R)) (init : string → nat → nat → nat → R)
    (fs : gmap string (file R)) (m m' : NN R) (path : string) :
  load_model_values m = true →
  model_dir m = Some path →
  finalize optimizer optimizer_args init fs m = (Return tt, m') →
  ∃ data,
    fs !! path = Some (NpzFile data) ∧
    Forall (fun kv => ∃ sh v0, declared (sess m') !! kv.1 = Some (sh, v0) ∧
                               has_shape sh kv.2 = true) data ∧
    (NoDup (map fst data) →
     Forall (fun kv => store (sess m') !! kv.1 = Some kv.2) data).
Proof.
  intros Hval Hdir H.
  apply finalize_Return in H
    as (m2 & m6 & m7 & sc & _ & _ & _ & _ & _ & _ & _ & Hmode & H7 & ->).
  unfold load_mode in Hmode. injection Hmode as Hd6 Hv6 Hl6.
  unfold load_values in H7. rewrite Hv6, Hval, orb_true_r, Hd6, Hdir in H7.
  unfold np_load in H7.
  destruct (fs !! path) as [[ | |data]|] eqn:Efs; try done.
  apply assign_all_Return in H7 as (s7 & -> & Hdecl & Hall & _ & Hvals).
  exists data. split; [done|]. simpl. rewrite Hdecl. split; done.
Qed.

(** X7: outside load mode [finalize] reads no file: its outcome and the
    model it leaves are the same whatever the files are. *)
Theorem finalize_reads_no_file (optimizer : OptArgs R → Optimizer R)
    (optimizer_args : option (OptArgs R)) (init : string → nat → nat → nat → R)
    (fs1 fs2 : gmap string (file R)) (m : NN R) :
  load_model_values m = false →
  model_loaded m = false →
  finalize optimizer optimizer_args init fs1 m
    = finalize optimizer optimizer_args init fs2 m.
Proof.
  intros Hval Hl. unfold finalize.
  destruct (length (layers m) =? 0); [done|].
  destruct (finalized m); [done|]. cbv zeta.
  set (P := fun m : NN R => load_model_values m = false ∧ model_loaded m = false).
  assert (Hcong : ∀ A B (c : M R A) (k1 k2 : A → M R B),
            keeps_load_mode c →
            (∀ a m, P m → k1 a m = k2 a m) →
            ∀ m, P m → bindM c k1 m = bindM c k2 m).
  { intros A B c k1 k2 Hc Hk m0 [HP1 HP2]. unfold bindM.
    specialize (Hc m0). unfold load_mode in Hc.
    destruct (c m0) as [[a|e] m1]; [|done]. simpl in Hc.
    apply Hk. split; congruence. }
  assert (HP : P m) by done. clear Hval Hl. revert m HP.
  apply Hcong; [apply keeps_set_optimizer | intros _].
  apply Hcong; [apply keeps_construct_all | intros _].
  apply Hcong; [apply keeps_collect_nonoptvars | intros _].
  apply Hcong; [apply keeps_setup_training | intros _].
  apply Hcong; [apply keeps_initialize_variables | intros _].
  apply Hcong; [apply keeps_setup_prediction | intros _].
  intros m [HP1 HP2]. unfold bindM, load_values. by rewrite HP1, HP2.
Qed.

End FinalizeLists.

(** ** What [train] changes, and what it does at the edges *)

Section TrainFrame.
Context {R : Type} {AR : Arith R} {G : Type} {NR : NumpyRandom G}.

(** A computation that changes nothing of the model but its session. *)
Definition only_sess {A} (c : M R A) : Prop :=
  ∀ m, ∃ s, (c m).2 = set_sess s m.

Lemma set_sess_same (m : NN R) : set_sess (sess m) m = m.
Proof. by destruct m. Qed.

Lemma set_sess_twice (s s' : Session R) (m : NN R) :
  set_sess s' (set_sess s m) = set_sess s' m.
Proof. by destruct m. Qed.

Lemma only_sess_pure {A} (c : M R A) : (∀ m, (c m).2 = m) → only_sess c.
Proof. intros H m. exists (sess m). by rewrite H, set_sess_same. Qed.

Lemma only_sess_bindM {A B} (c : M R A) (k : A → M R B) :
  only_sess c → (∀ a, only_sess (k a)) → only_sess (bindM c k).
Proof.
  intros Hc Hk m. unfold bindM. destruct (Hc m) as [s Hs].
  destruct (c m) as [[a|e] m1]; simpl in *; [|eauto].
  destruct (Hk a m1) as [s' Hs']. exists s'. by rewrite Hs', Hs, set_sess_twice.
Qed.

Lemma only_sess_in_sess f : only_sess (in_sess f).
Proof.
  intros m. unfold in_sess. destruct (f (sess m)) as [s|e]; simpl; [eauto|].
  exists (sess m). by rewrite set_sess_same.
Qed.

Lemma only_sess_fit_scaler (inputs : mat R) : only_sess (fit_scaler inputs).
Proof.
  intros m. unfold fit_scaler. destruct (scaler m) as [sc|].
  - apply only_sess_in_sess.
  - exists (sess m). by rewrite set_sess_same.
Qed.

Lemma only_sess_run_train_op (x t : ten3 R) : only_sess (run_train_op x t).
Proof.
  intros m. unfold run_train_op.
  destruct (train_op m), (sy_train_in m), (sy_train_targ m);
    try (exists (sess m); by rewrite set_sess_same).
  destruct (_ && _); [apply only_sess_in_sess|].
  exists (sess m). by rewrite set_sess_same.
Qed.

Lemma only_sess_mapM {A B} (f : A → M R B) (xs : list A) :
  (∀ x, only_sess (f x)) → only_sess (mapM f xs).
Proof.
  intros Hf. induction xs as [|x xs IH]; simpl.
  - by apply only_sess_pure.
  - apply only_sess_bindM; [apply Hf | intros y].
    apply only_sess_bindM; [apply IH | intros ys]. by apply only_sess_pure.
Qed.

Lemma only_sess_train_batch (inputs targets : mat R) batch_size idxs k :
  only_sess (train_batch inputs targets batch_size idxs k).
Proof.
  unfold train_batch.
  apply only_sess_bindM; [by apply only_sess_pure | intros x].
  apply only_sess_bindM; [by apply only_sess_pure | intros t].
  apply only_sess_bindM; [apply only_sess_run_train_op | intros _].
  by apply only_sess_pure.
Qed.

(** The progress report reads the losses and changes nothing. *)
Lemma report_progress_pure (inputs targets : mat R) hold_in hold_targ idxs
    holdout_ratio max_logging (m : NN R) :
  (report_progress inputs targets hold_in hold_targ idxs holdout_ratio
     max_logging m).2 = m.
Proof.
  unfold report_progress, bindM, lift, ret.
  destruct (take_rows2 inputs _); [|done].
  destruct (take_rows2 targets _); [|done].
  destruct (run_mse_loss _ _ m); [|done].
  destruct (Qlt_le_dec _ _); [done|].
  by destruct (run_mse_loss _ _ m).
Qed.

Lemma only_sess_train_epoch (inputs targets : mat R) hold_in hold_targ
    batch_size hide_progress holdout_ratio max_logging idxs (g : G) :
  only_sess (train_epoch inputs targets hold_in hold_targ batch_size
               hide_progress holdout_ratio max_logging idxs g).
Proof.
  unfold train_epoch.
  apply only_sess_bindM; [by apply only_sess_pure | intros batches].
  apply only_sess_bindM;
    [apply only_sess_mapM; intros k; apply only_sess_train_batch | intros fed].
  apply only_sess_bindM; [by apply only_sess_pure | intros idxs'].
  apply only_sess_bindM; [| intros _; by apply only_sess_pure].
  destruct hide_progress; [by apply only_sess_pure|].
  apply only_sess_pure. intros m. apply report_progress_pure.
Qed.

Lemma only_sess_train_epochs (n : nat) (inputs targets : mat R) hold_in hold_targ
    batch_size hide_progress holdout_ratio max_logging idxs (g : G) :
  only_sess (train_epochs n inputs targets hold_in hold_targ batch_size
               hide_progress holdout_ratio max_logging idxs g).
Proof.
  revert idxs g. induction n as [|n IH]; intros idxs g; simpl.
  - by apply only_sess_pure.
  - apply only_sess_bindM; [apply only_sess_train_epoch | intros e].
    apply only_sess_bindM; [apply IH | intros rest]. by apply only_sess_pure.
Qed.

(** X8: whatever its outcome, a call to [train] changes nothing of the
    model but the session: the layers, the lists of variables, the graph
    handles, the scaler object and the flags are as before. *)
Theorem train_changes_only_session (inputs targets : mat R) batch_size epochs
    hide_progress holdout_ratio max_logging (g : G) (m m' : NN R)
    (r : outcome (TrainLog R * G)) :
  train inputs targets batch_size epochs hide_progress holdout_ratio max_logging g m
    = (r, m') →
  ∃ s, m' = set_sess s m.
Proof.
  intros H.
  assert (Hc : only_sess (train inputs targets batch_size epochs hide_progress
                            holdout_ratio max_logging g)).
  { unfold train. cbv zeta.
    apply only_sess_bindM; [by apply only_sess_pure | intros inputs'].
    apply only_sess_bindM; [by apply only_sess_pure | intros hin].
    apply only_sess_bindM; [by apply only_sess_pure | intros targets'].
    apply only_sess_bindM; [by apply only_sess_pure | intros htarg].
    apply only_sess_bindM; [by apply only_sess_pure | intros M_].
    apply only_sess_bindM; [apply only_sess_fit_scaler | intros _].
    apply only_sess_bindM; [by apply only_sess_pure | intros idxs].
    apply only_sess_bindM; [apply only_sess_train_epochs | intros done].
    by apply only_sess_pure. }
  destruct (Hc m) as [s Hs]. rewrite H in Hs. eauto.
Qed.

(** *** The progress report *)

Lemma bindM_run {A B} (c : M R A) (k : A → M R B) (m m1 : NN R) (a : A) :
  c m = (Return a, m1) → bindM c k m = k a m1.
Proof. unfold bindM. by intros ->. Qed.

Lemma train_epochs_hidden (n : nat) (inputs targets : mat R) hold_in hold_targ
    batch_size holdout_ratio max_logging idxs (g : G) (m m' : NN R) res :
  train_epochs n inputs targets hold_in hold_targ batch_size false
    holdout_ratio max_logging idxs g m = (Return res, m') →
  train_epochs n inputs targets hold_in hold_targ batch_size true
    holdout_ratio max_logging idxs g m = (Return res, m').
Proof.
  revert idxs g m m' res. induction n as [|n IH]; intros idxs g m m' res H; [done|].
  simpl in H. simpl.
  apply bindM_Return in H as (e & m1 & He & H).
  apply bindM_Return in H as (rest & m2 & Hrest & H).
  apply IH in Hrest.
  assert (He' : train_epoch inputs targets hold_in hold_targ batch_size true
                  holdout_ratio max_logging idxs g m = (Return e, m1)).
  { clear -He. unfold train_epoch in *.
    apply bindM_Return in He as (batches & ma & Hb & He).
    rewrite (bindM_run _ _ _ _ _ Hb).
    apply bindM_Return in He as (fed & mb & Hfed & He).
    rewrite (bindM_run _ _ _ _ _ Hfed).
    apply bindM_Return in He as (idxs' & mc & Hsh & He).
    rewrite (bindM_run _ _ _ _ _ Hsh).
    apply bindM_Return in He as ([] & md & Hrep & He).
    pose proof (report_progress_pure inputs targets hold_in hold_targ idxs'
                  holdout_ratio max_logging mc) as Hpure.
    rewrite Hrep in Hpure. simpl in Hpure. subst md.
    by rewrite (bindM_run _ _ mc mc tt eq_refl). }
  rewrite (bindM_run _ _ _ _ _ He'). by rewrite (bindM_run _ _ _ _ _ Hrest).
Qed.

(** X9: the progress report only reads.  A call to [train] that returns
    with the progress bar shown returns also with the bar hidden, with
    the same held-out and retained rows, the same batches in the same
    order, the same final model and the same generator state. *)
Theorem progress_report_only_reads (inputs targets : mat R) batch_size epochs
    holdout_ratio max_logging (g : G) (m m' : NN R) log g' :
  train inputs targets batch_size epochs false holdout_ratio max_logging g m
    = (Return (log, g'), m') →
  train inputs targets batch_size epochs true holdout_ratio max_logging g m
    = (Return (log, g'), m').
Proof.
  unfold train. cbv zeta. intros H.
  apply bindM_Return in H as (inputs' & m0 & Hi & H). rewrite (bindM_run _ _ _ _ _ Hi).
  apply bindM_Return in H as (hin & m1 & Hh & H). rewrite (bindM_run _ _ _ _ _ Hh).
  apply bindM_Return in H as (targets' & m2 & Ht & H). rewrite (bindM_run _ _ _ _ _ Ht).
  apply bindM_Return in H as (htarg & m3 & Hht & H). rewrite (bindM_run _ _ _ _ _ Hht).
  apply bindM_Return in H as (M_ & m4 & HM & H). rewrite (bindM_run _ _ _ _ _ HM).
  apply bindM_Return in H as ([] & m5 & Hfit & H). rewrite (bindM_run _ _ _ _ _ Hfit).
  apply bindM_Return in H as (idxs & m6 & Hr & H). rewrite (bindM_run _ _ _ _ _ Hr).
  apply bindM_Return in H as (done & m7 & He & H).
  apply train_epochs_hidden in He. by rewrite (bindM_run _ _ _ _ _ He).
Qed.

(** *** Batch sizes and epoch counts at the edges *)

Lemma batch_range_negative (n : nat) (batch_size : Z) :
  (batch_size < 0)%Z → batch_range n batch_size = Return [].
Proof.
  intros Hb. unfold batch_range.
  destruct (batch_size =? 0)%Z eqn:E; [apply Z.eqb_eq in E; lia|].
  f_equal. unfold py_range.
  replace (Z.to_nat _) with 0; [done|].
  destruct batch_size as [|p|p]; try lia.
  unfold py_ceil, Qdiv, Qinv, inject_Z. simpl.
  assert (H : (0 ≤ - (Z.of_nat n * -1) / Z.pos (1 * p))%Z)
    by (apply Z.div_pos; lia).
  lia.
Qed.

(** Epochs that feed no batch leave the model as it is. *)
Lemma train_epochs_idle (n : nat) (inputs targets : mat R) hold_in hold_targ
    batch_size hide_progress holdout_ratio max_logging idxs (g : G)
    (m m' : NN R) es final g' :
  batch_range (length inputs) batch_size = Return [] →
  train_epochs n inputs targets hold_in hold_targ batch_size hide_progress
    holdout_ratio max_logging idxs g m = (Return (es, final, g'), m') →
  Forall (fun e => epoch_batches e = []) es ∧ m' = m.
Proof.
  intros Hb. revert idxs g m es final g'.
  induction n as [|n IH]; intros idxs g m es final g' H; simpl in H.
  - apply ret_Return in H as [H ->]. injection H as -> _ _. by split.
  - apply bindM_Return in H as ([[e idxs1] g1] & m1 & He & H).
    apply bindM_Return in H as ([[rest fin] g2] & m2 & Hrest & H).
    apply ret_Return in H as [H ->]. simpl in H. injection H as -> _ _.
    simpl in Hrest. apply IH in Hrest as [Hall ->].
    unfold train_epoch in He. rewrite Hb in He.
    apply bindM_Return in He as (batches & ma & Hba & He).
    apply lift_Return in Hba as [Hba ->]. injection Hba as <-.
    apply bindM_Return in He as (fed & mb & Hfed & He). simpl in Hfed.
    apply ret_Return in Hfed as [-> ->].
    apply bindM_Return in He as (idxs' & mc & Hsh & He).
    apply lift_Return in Hsh as [Hsh ->].
    apply bindM_Return in He as ([] & md & Hrep & He).
    apply ret_Return in He as [He ->]. injection He as -> _ _.
    split; [by constructor|].
    destruct hide_progress.
    + by apply ret_Return in Hrep as [_ ->].
    + pose proof (report_progress_pure inputs targets hold_in hold_targ idxs'
                    holdout_ratio max_logging m) as Hpure.
      by rewrite Hrep in Hpure.
Qed.

(** X10: a call to [train] with no epoch to run ([epochs <= 0]) or with a
    negative batch size feeds no batch to the training operation, yet it
    returns like any other call: it has drawn the permutation and the
    bootstrap sample, and it leaves the model exactly as the refit of the
    scaler on the retained rows left it. *)
Theorem train_without_steps (inputs targets : mat R) batch_size epochs
    hide_progress holdout_ratio max_logging (g : G) (m m' : NN R) log g' :
  (epochs ≤ 0 ∨ batch_size < 0)%Z →
  train inputs targets batch_size epochs hide_progress holdout_ratio max_logging g m
    = (Return (log, g'), m') →
  Forall (fun e => epoch_batches e = []) (epochs_run log) ∧
  fit_scaler (fitted_on log) m = (Return tt, m').
Proof.
  intros Hedge H. apply train_Return in H.
  destruct H as (targets' & hin & htarg & m1 & _ & _ & _ & _ & _ & _ & _ & _ & Hfit & _ & He).
  destruct Hedge as [Hep | Hbs].
  - replace (Z.to_nat epochs) with 0 in He by lia. simpl in He.
    apply ret_Return in He as [He ->]. injection He as He1 _ _. rewrite He1. by split.
  - apply train_epochs_idle in He as [Hall ->]; [done|].
    by apply batch_range_negative.
Qed.

(** X11: with a batch size of zero and at least one epoch to run, a call
    to [train] raises. *)
Theorem zero_batch_size_fails (inputs targets : mat R) epochs
    hide_progress holdout_ratio max_logging (g : G) (m : NN R) :
  (0 < epochs)%Z →
  is_Return (train inputs targets 0 epochs hide_progress holdout_ratio
               max_logging g m).1 = false.
Proof.
  intros Hep.
  destruct (train inputs targets 0 epochs hide_progress holdout_ratio
              max_logging g m) as [[[log g']|e] m'] eqn:H; [|done].
  apply train_Return in H.
  destruct H as (targets' & hin & htarg & m1 & _ & _ & _ & _ & _ & _ & _ & _ & _ & _ & He).
  destruct (Z.to_nat epochs) as [|n] eqn:En; [lia|]. simpl in He.
  apply bindM_Return in He as (e & m2 & He & _).
  unfold train_epoch in He.
  apply bindM_Return in He as (batches & ma & Hba & _).
  by apply lift_Return in Hba as [Hba _].
Qed.

(** *** The holdout count out of range *)

Lemma permutation_length (n : nat) (g : G) :
  length (np_random_permutation n g).1 = n.
Proof.
  unfold np_random_permutation.
  by rewrite (draw_permutation_perm n g), length_seq.
Qed.

(** X12: a negative holdout count is a Python slice bound counted from
    the end.  In a call to [train] that returns with
    [min(int(N * holdout_ratio), max_logging) = -k < 0], the last
    [min(k, N)] entries of the drawn permutation are the retained rows
    and all the entries before them are held out. *)
Theorem negative_holdout_counts_from_end (inputs targets : mat R) batch_size
    epochs hide_progress holdout_ratio max_logging (g : G) (m m' : NN R) log g' :
  (num_holdout inputs holdout_ratio max_logging < 0)%Z →
  train inputs targets batch_size epochs hide_progress holdout_ratio max_logging g m
    = (Return (log, g'), m') →
  let k := Nat.min (Z.to_nat (- num_holdout inputs holdout_ratio max_logging))
                   (length inputs) in
  length (retained_rows log) = k ∧
  length (holdout_rows log) = length inputs - k ∧
  holdout_rows log ++ retained_rows log = (np_random_permutation (length inputs) g).1.
Proof.
  intros Hneg H. apply train_Return in H.
  destruct H as (targets' & hin & htarg & m1 & Hkept & Hheld & _).
  cbv zeta in Hkept, Hheld. rewrite Hkept, Hheld.
  rewrite slice_from_length, slice_to_length, slice_to_from, permutation_length.
  unfold slice_bound.
  destruct (_ <? 0)%Z eqn:E; [|apply Z.ltb_ge in E; lia].
  repeat split; lia.
Qed.


(** *** [shuffle_rows] *)

(** X14: on an index matrix and a uniform draw of the same shape,
    [shuffle_rows] returns, never with an index out of bounds, and every
    row of its result is a permutation of the row it comes from. *)
Theorem shuffle_rows_permutes (arr : list (list nat)) (u : list (list Q))
    (cols : nat) :
  length u = length arr →
  Forall (fun row => length row = cols) arr →
  Forall (fun row => length row = cols) u →
  ∃ arr', shuffle_rows arr u = Return arr' ∧ Forall2 Permutation arr' arr.
Proof.
  intros Hlen Harr Hu.
  assert (Htotal : ∃ arr', shuffle_rows arr u = Return arr').
  { unfold shuffle_rows. apply map_outcome_total.
    apply Forall_forall. intros [row ur] Hin. simpl.
    pose proof (elem_of_zip_l _ _ _ _ Hin) as Hr.
    pose proof (elem_of_zip_r _ _ _ _ Hin) as Hur. simpl in Hr, Hur.
    rewrite Forall_forall in Harr. rewrite Forall_forall in Hu.
    apply take_rows_total. rewrite (Harr row Hr), <- (Hu ur Hur).
    rewrite argsort_Permutation. apply Forall_forall. intros i Hi.
    apply elem_of_seq in Hi. lia. }
  destruct Htotal as [arr' H].
  exists arr'. split; [done|]. by eapply shuffle_rows_Permutation.
Qed.

End TrainFrame.

(** *** The batches of an epoch cover the index matrix *)

Lemma concat_chunks {A} (row : list A) (size count : nat) :
  concat (map (fun k => chunk size k row) (seq 0 count)) = take (count * size) row.
Proof.
  induction count as [|c IH]; [done|].
  rewrite seq_S, map_app, concat_app, IH. simpl.
  rewrite app_nil_r. unfold chunk. rewrite take_take_drop. f_equal. lia.
Qed.

Lemma ceil_div_covers (n b : Z) : (0 < b)%Z → (n ≤ ceil_div n b * b)%Z.
Proof.
  intros Hb. unfold ceil_div.
  pose proof (Z.div_mod (n + b - 1) b ltac:(lia)) as Hdm.
  pose proof (Z.mod_pos_bound (n + b - 1) b Hb) as Hr.
  nia.
Qed.

Section Coverage.
Context {R : Type} {AR : Arith R} {G : Type} {NR : NumpyRandom G}.

(** X15: in a call to [train] that returns, with a positive batch size,
    the batches of an epoch put end to end give back the index matrix the
    epoch started from, network by network: an epoch feeds every entry
    of every index row to the training operation exactly once, in the
    order of the row, the last batch being shorter when the batch size
    does not divide the number of retained rows. *)
Theorem epoch_feeds_every_index_once (inputs targets : mat R) batch_size epochs
    hide_progress holdout_ratio max_logging (g : G) (m m' : NN R) log g' :
  (0 < batch_size)%Z →
  train inputs targets batch_size epochs hide_progress holdout_ratio max_logging g m
    = (Return (log, g'), m') →
  Forall (fun e =>
            ∀ a row, epoch_idxs e !! a = Some row →
              concat (map (fun batch => default [] (batch !! a)) (epoch_batches e))
                = row)
         (epochs_run log).
Proof.
  intros Hbs H.
  pose proof (train_Return_bootstrap _ _ _ _ _ _ _ _ _ _ _ _ H)
    as (Hkept & Hfitlen & Hblen & Hbshape).
  pose proof (train_Return _ _ _ _ _ _ _ _ _ _ _ _ H) as Hinv. simpl in Hinv.
  destruct Hinv as (targets' & hin & htarg & m1 & _ & _ & _ & _ & _ & _ & _ & _ & _
                    & _ & Hepochs).
  apply train_epochs_Return in Hepochs.
  2:{ eapply Forall_impl; [exact Hbshape|]. simpl. intros row [Hl _]. lia. }
  destruct Hepochs as (Hn & Hchain & Hzero).
  destruct Hchain as [Hz | (batches & Hb & Hchain)].
  { destruct (epochs_run log); [by apply Forall_nil | simpl in Hn; lia]. }
  apply epochs_chain_Permutation in Hchain as [Hes _].
  unfold batch_range in Hb.
  destruct (batch_size =? 0)%Z eqn:E; [lia|]. injection Hb as <-.
  rewrite Hfitlen, py_ceil_div in Hes by done.
  eapply Forall_impl; [exact Hes|]. simpl. intros e (Hperm & Hbat & _) a row Ha.
  assert (Hrow : length row = length (retained_rows log)).
  { destruct (Forall2_lookup_l _ _ _ _ _ Hperm Ha) as (row0 & Hrow0 & Hp).
    rewrite Hp. rewrite Forall_forall in Hbshape.
    apply Hbshape. by eapply list_elem_of_lookup_2. }
  rewrite Hbat. unfold batches_of, py_range. rewrite map_map.
  rewrite (map_ext _ (fun k => chunk (Z.to_nat batch_size) k row)).
  - rewrite concat_chunks. apply take_ge.
    pose proof (ceil_div_covers (Z.of_nat (length (retained_rows log))) batch_size Hbs).
    assert (0 ≤ ceil_div (Z.of_nat (length (retained_rows log))) batch_size)%Z
      by (unfold ceil_div; apply Z.div_pos; lia).
    nia.
  - intros k. unfold columns.
    change (map (slice ?lo ?hi) (epoch_idxs e)) with (slice lo hi <$> epoch_idxs e).
    rewrite list_lookup_fmap, Ha. simpl. by apply slice_chunk.
Qed.

End Coverage.

Lemma epoch_feeds_every_index_once_witness :
  Forall (fun e =>
            ∀ a row, epoch_idxs e !! a = Some row →
              concat (map (fun batch => default [] (batch !! a)) (epoch_batches e))
                = row)
         (epochs_run Demo.log1).
Proof.
  apply (epoch_feeds_every_index_once Demo.X Demo.Y 2 2 false (3 # 10) 5000 0%nat
           Demo.ready Demo.run1.2 Demo.log1 4%nat); [lia | exact run1_returns].
Defined.

(** ** Prediction on one batch per member *)

Section PerMember.
Context {R : Type} {AR : Arith R}.

Lemma compute_output_T3 (l : Layer R) (x v : tval R) (s : Session R) :
  compute_output_tensor l x s = Return v → ∃ y, v = T3 y.
Proof.
  unfold compute_output_tensor. intros H.
  destruct (read3 (weights l) s) as [W|]; [|done]. simpl in H.
  destruct (read3 (biases l) s) as [b|]; [|done]. simpl in H.
  destruct x as [| |x2|x3]; try done.
  - injection H as <-. eauto.
  - destruct (decide _); [|done]. injection H as <-. eauto.
Qed.

(** Member [a] of what a layer puts out depends on member [a] of what
    it is given only. *)
Lemma compute_output_member (l : Layer R) (u u' y y' : ten3 R) (s : Session R)
    (a : nat) :
  compute_output_tensor l (T3 u) s = Return (T3 y) →
  compute_output_tensor l (T3 u') s = Return (T3 y') →
  u !! a = u' !! a →
  y !! a = y' !! a.
Proof.
  unfold compute_output_tensor. intros H H' Ha.
  destruct (read3 (weights l) s) as [W|]; [|done]. simpl in H, H'.
  destruct (read3 (biases l) s) as [b|]; [|done]. simpl in H, H'.
  destruct (decide (Some (length u) = ensemble_size l)); [|done].
  destruct (decide (Some (length u') = ensemble_size l)); [|done].
  injection H as <-. injection H' as <-.
  rewrite !lookup_zip_with. by rewrite Ha.
Qed.

(** Member [a] of what a layer makes of a shared batch is what it makes
    of that batch given to member [a]. *)
Lemma compute_output_member_shared (l : Layer R) (xa : mat R) (u y y' : ten3 R)
    (s : Session R) (a : nat) :
  compute_output_tensor l (T2 xa) s = Return (T3 y) →
  compute_output_tensor l (T3 u) s = Return (T3 y') →
  u !! a = Some xa →
  y !! a = y' !! a.
Proof.
  unfold compute_output_tensor. intros H H' Ha.
  destruct (read3 (weights l) s) as [W|]; [|done]. simpl in H, H'.
  destruct (read3 (biases l) s) as [b|]; [|done]. simpl in H, H'.
  destruct (decide (Some (length u) = ensemble_size l)); [|done].
  injection H as <-. injection H' as <-.
  rewrite !lookup_zip_with, Ha. simpl.
  destruct (W !! a) as [Wa|]; [|done]. simpl. by destruct (b !! a).
Qed.

Lemma layers_member (ls : list (Layer R)) (u u' y y' : ten3 R) (s : Session R)
    (a : nat) :
  for_each (fun cur l => compute_output_tensor l cur s) ls (T3 u) = Return (T3 y) →
  for_each (fun cur l => compute_output_tensor l cur s) ls (T3 u') = Return (T3 y') →
  u !! a = u' !! a →
  y !! a = y' !! a.
Proof.
  revert u u'. induction ls as [|l ls IH]; intros u u' H H' Ha; simpl in H, H'.
  - injection H as <-. by injection H' as <-.
  - destruct (compute_output_tensor l (T3 u) s) as [v|] eqn:E; [|done].
    destruct (compute_output_tensor l (T3 u') s) as [v'|] eqn:E'; [|done].
    simpl in H, H'.
    destruct (compute_output_T3 _ _ _ _ E) as [z ->].
    destruct (compute_output_T3 _ _ _ _ E') as [z' ->].
    apply (IH z z' H H'). by eapply compute_output_member.
Qed.

(** The factored output of the network on a batch [xa] shared by all
    members and on one batch per member agree at the member that is given
    [xa]. *)
Lemma compile_outputs_member (sc : Scaler) (ls : list (Layer R)) (xa : mat R)
    (x y y' : ten3 R) (s : Session R) (a : nat) :
  ls ≠ [] →
  compile_outputs sc ls (T2 xa) s = Return (T3 y) →
  compile_outputs sc ls (T3 x) s = Return (T3 y') →
  x !! a = Some xa →
  y !! a = y' !! a.
Proof.
  unfold compile_outputs, scaler_transform. intros Hne H H' Ha.
  destruct (read1 (Some (mu sc)) s) as [mv|]; [|done]. simpl in H, H'.
  destruct (read1 (Some (sigma sc)) s) as [sv|]; [|done]. simpl in H, H'.
  destruct ls as [|l ls]; [done|]. simpl in H, H'.
  destruct (compute_output_tensor l (T2 _) s) as [v|] eqn:E; [|done].
  destruct (compute_output_tensor l (T3 _) s) as [v'|] eqn:E'; [|done].
  simpl in H, H'.
  destruct (compute_output_T3 _ _ _ _ E) as [z ->].
  destruct (compute_output_T3 _ _ _ _ E') as [z' ->].
  apply (layers_member ls z z' y y' s a H H').
  eapply compute_output_member_shared; [exact E | exact E' |].
  by rewrite list_lookup_fmap, Ha.
Qed.

(** X16: on a finalized model of [M] members, for an input of rank three
    that holds one batch of [B] rows of the input dimension per member,
    [predict] returns the predictions of the members, of shape
    [M, B, O], and no variance, whatever [factored] is; and member [a] of
    the result is what member [a] predicts for its batch when that batch
    is given alone, as an input of rank two with [factored=True]. *)
Theorem predict_one_batch_per_member (m : NN R) (x : ten3 R) (B d : nat)
    (factored : bool) :
  ready_model m →
  model_input_dim m = Some d →
  has_shape3 (num_nets m) B d x = true →
  ∃ y O,
    model_output_dim m = Some O ∧
    predict (T3 x) factored m = Return (T3 y, None) ∧
    has_shape3 (num_nets m) B O y = true ∧
    ∀ a xa, x !! a = Some xa →
      ∃ fac, predict (T2 xa) true m = Return (T3 fac, None) ∧
             fac !! a = y !! a.
Proof.
  intros (_ & Hg & Hv) Hd Hx.
  destruct (vars_ok_dims m Hv) as (sc & Hsc & Hin & Hout).
  destruct Hv as (Hne & sc' & Hsc' & Hsok & Hls).
  rewrite Hsc in Hsc'. injection Hsc' as <-.
  destruct Hg as (sc' & opt & Hsc' & _ & _ & _ & _ & _ & Hin2 & Hfac & _ & _ & Hin3 & Hfac3).
  rewrite Hsc in Hsc'. injection Hsc' as <-.
  rewrite Hd in Hin. injection Hin as ->.
  destruct (compile_outputs_per_member (sess m) sc (num_nets m) B (scaler_dim sc)
              (layers m) x Hsok Hls Hx) as (y & Hy & Hys).
  rewrite Nat.min_id in Hys.
  exists y, (chain_output (scaler_dim sc) (layers m)).
  split; [done|].
  assert (Hp3 : predict (T3 x) factored m = Return (T3 y, None)).
  { unfold predict, sess_run. rewrite Hfac3, Hin3, Hd.
    rewrite (has_shape3_feed_ok _ _ _ _ Hx). by rewrite Hy. }
  split; [done|]. split; [done|].
  intros a xa Ha.
  destruct (compile_outputs_shared (sess m) sc (num_nets m) (layers m) xa Hsok Hls Hne)
    as (fac & Hf & _).
  exists fac. split.
  - unfold predict, sess_run. rewrite Hfac, Hin2, Hd.
    assert (Hfeed : feed_ok [None; Some (scaler_dim sc)] (T2 xa) = true).
    { apply has_shape3_spec in Hx as [_ Hxs].
      destruct (Forall_lookup_1 _ _ _ _ Hxs Ha) as [_ Hrows]. simpl.
      apply forallb_forall. intros r Hr. apply list_elem_of_In in Hr.
      rewrite Forall_forall in Hrows. rewrite (Hrows r Hr). apply Nat.eqb_refl. }
    rewrite Hfeed. by rewrite Hf.
  - by eapply compile_outputs_member.
Qed.

End PerMember.

(** ** From construction to use *)

Section Lifecycle.
Context {R : Type} {AR : Arith R} {G : Type} {NR : NumpyRandom G}.

(** X17: when [finalize] returns on a model that [__init__], [add] and
    [pop] produced, every layer holds its two variables, [optvars] lists
    the weights and then the biases of layer 0, of layer 1 and so on,
    [decays] holds the penalty of every layer in the same order, and
    [nonoptvars] the mean and the deviation of the scaler. *)
Theorem finalize_collects (optimizer : OptArgs R → Optimizer R)
    (optimizer_args : option (OptArgs R)) (init : string → nat → nat → nat → R)
    (fs : gmap string (file R)) (m m' : NN R) :
  built m →
  finalize optimizer optimizer_args init fs m = (Return tt, m') →
  length (layers m') = length (layers m) ∧
  Forall (fun l => is_Some (weights l) ∧ is_Some (biases l)) (layers m') ∧
  optvars m' = concat (map get_vars (layers m')) ∧
  length (optvars m') = 2 * length (layers m) ∧
  decays m' = map decay_penalty (layers m') ∧
  ∃ sc, scaler m' = Some sc ∧ nonoptvars m' = [mu sc; sigma sc].
Proof.
  intros Hb H. apply built_invariant in Hb as (Hblank & _ & _).
  destruct Hblank as (_ & _ & _ & _ & Hd & Ho & Hn & _).
  apply finalize_lists in H as (Hlen & Hmade & Hopt & Hdec & sc & Hsc & Hnon).
  rewrite Ho in Hopt. rewrite Hd in Hdec. rewrite Hn in Hnon. simpl in *.
  repeat split; try done; [|eauto].
  rewrite Hopt, <- Hlen. clear -Hmade.
  induction Hmade as [|l ls [[w Hw] [b Hbi]] _ IH]; [done|].
  simpl. rewrite length_app, IH. unfold get_vars. rewrite Hw, Hbi. simpl. lia.
Qed.

Lemma copy_dims (a b : Layer R) :
  copy a = copy b → input_dim a = input_dim b ∧ output_dim a = output_dim b.
Proof.
  intros H. split; [exact (f_equal input_dim H) | exact (f_equal output_dim H)].
Qed.

(** Models with the same layer templates have the same dimensions. *)
Lemma same_templates_dims (m m' : NN R) :
  map copy (layers m') = map copy (layers m) →
  model_input_dim m' = model_input_dim m ∧
  model_output_dim m' = model_output_dim m.
Proof.
  intros Hcopy.
  assert (Hhead : head (map copy (layers m')) = head (map copy (layers m)))
    by (by rewrite Hcopy).
  assert (Hlast : last (map copy (layers m')) = last (map copy (layers m)))
    by (by rewrite Hcopy).
  change (map copy) with (fmap (M:=list) (@copy R)) in Hhead, Hlast.
  rewrite !fmap_last in Hlast.
  unfold model_input_dim, model_output_dim, get_input_dim, get_output_dim. split.
  - destruct (layers m') as [|a ?], (layers m) as [|b ?]; try done.
    simpl in Hhead. apply (inj Some), copy_dims in Hhead. apply Hhead.
  - destruct (last (layers m')) as [a|], (last (layers m)) as [b|]; try done.
    simpl in Hlast. apply (inj Some), copy_dims in Hlast. f_equal. apply Hlast.
Qed.

(** X18: when [finalize] returns on a model that [__init__], [add] and
    [pop] produced, the model is ready: it is finalized, its training and
    prediction handles are the graph of its scaler and its layers, and
    the variables of the scaler and of every layer are declared, with the
    shapes [d], [M, d_in, d_out] and [M, 1, d_out], and hold values of
    those shapes. *)
Theorem finalize_makes_ready (optimizer : OptArgs R → Optimizer R)
    (optimizer_args : option (OptArgs R)) (init : string → nat → nat → nat → R)
    (fs : gmap string (file R)) (m m' : NN R) :
  built m →
  finalize optimizer optimizer_args init fs m = (Return tt, m') →
  ready_model m' ∧ num_nets m' = num_nets m ∧
  model_input_dim m' = model_input_dim m ∧
  model_output_dim m' = model_output_dim m.
Proof.
  intros Hb H.
  pose proof (finalize_frame _ _ _ _ _ _ _ H) as [Hfr _].
  apply built_invariant in Hb as (_ & Hc & _).
  destruct (finalize_ready _ _ _ _ _ _ Hc H) as [Hr Hn].
  split; [done|]. split; [done|].
  unfold frame in Hfr. injection Hfr as _ _ _ _ _ Hcopy.
  by apply same_templates_dims.
Qed.





(** X20: a model that [__init__], [add] and [pop] produced and that
    [finalize] returned on can be trained.  With an optimizer whose
    training operation returns, on inputs and targets that have as many
    rows as each other and the widths of the network's input and output,
    with a batch size other than zero and a holdout count that is not
    negative and leaves at least one row, the call to [train] returns,
    and leaves a model that is ready again. *)
Theorem finalize_then_train (optimizer : OptArgs R → Optimizer R)
    (optimizer_args : option (OptArgs R)) (init : string → nat → nat → nat → R)
    (fs : gmap string (file R)) (m m' : NN R)
    (inputs targets : mat R) (batch_size epochs : Z)
    (hide_progress : bool) (holdout_ratio : Q) (max_logging : Z) (g : G)
    (d O : nat) :
  built m →
  finalize optimizer optimizer_args init fs m = (Return tt, m') →
  step_returns m' →
  model_input_dim m = Some d → model_output_dim m = Some O →
  Forall (fun r => length r = d) inputs →
  Forall (fun r => length r = O) targets →
  length targets = length inputs →
  batch_size ≠ 0%Z →
  (0 ≤ num_holdout inputs holdout_ratio max_logging < Z.of_nat (length inputs))%Z →
  ∃ log g' m'',
    train inputs targets batch_size epochs hide_progress holdout_ratio
      max_logging g m' = (Return (log, g'), m'') ∧
    ready_model m'' ∧ step_returns m''.
Proof.
  intros Hb H Hstep Hd HO Hin Htarg Hlen Hbs Hnh.
  pose proof (finalize_frame _ _ _ _ _ _ _ H) as [Hfr _].
  unfold frame in Hfr. injection Hfr as _ _ _ _ _ Hcopy.
  apply built_invariant in Hb as (_ & Hc & _).
  destruct (finalize_ready _ _ _ _ _ _ Hc H) as [Hr _].
  destruct (same_templates_dims m m' Hcopy) as [Hdi Hdo].
  apply (train_returns inputs targets batch_size epochs hide_progress
           holdout_ratio max_logging g m' d O); try done; congruence.
Qed.

End Lifecycle.

(** ** A call to [finalize] returns *)

(** *** The names of the variables are distinct *)





Section FinalizeReturns.
Context {R : Type} {AR : Arith R}.








(** *** The stages *)









End FinalizeReturns.

(** ** After a failed [finalize] *)

Section Retry.
Context {R : Type} {AR : Arith R}.












End Retry.

(** ** [predict] and the shape of its input *)

Section FeedShape.
Context {R : Type} {AR : Arith R}.

(** X23: on a finalized model, [predict] raises [ValueError] for an
    input of rank two that has a row not of the input dimension, for an
    input of rank three that has not one batch per network, and for an
    input of rank zero or one, which it feeds to the placeholder of rank
    three. *)
Theorem predict_rejects_wrong_shape (m : NN R) (d : nat) (x : tval R)
    (factored : bool) :
  ready_model m →
  model_input_dim m = Some d →
  match x with
  | T2 rows => Exists (fun r => length r ≠ d) rows
  | T3 batches => length batches ≠ num_nets m
  | _ => True
  end →
  predict x factored m = Raise ValueError.
Proof.
  intros (_ & Hg & _) Hd Hx.
  destruct Hg as (sc & opt & _ & _ & _ & _ & _ & _ & Hin2 & Hfac & Hmean & Hvar & Hin3 & Hfac3).
  unfold predict, sess_run. rewrite Hin2, Hfac, Hmean, Hvar, Hin3, Hfac3, Hd.
  destruct x as [v|v|rows|batches]; try done.
  - assert (Hfeed : feed_ok [None; Some d] (T2 rows) = false).
    { simpl. apply not_true_is_false. intros Hall.
      rewrite forallb_forall in Hall.
      apply Exists_exists in Hx as (r & Hr & Hlen).
      apply list_elem_of_In, Hall, Nat.eqb_eq in Hr. done. }
    rewrite Hfeed. by destruct factored.
  - assert (Hfeed : feed_ok [Some (num_nets m); None; Some d] (T3 batches) = false).
    { simpl. apply andb_false_iff. left. by apply Nat.eqb_neq. }
    by rewrite Hfeed.
Qed.

End FeedShape.

(** ** [__init__] *)

Section Init.
Context {R : Type} {AR : Arith R}.


End Init.

(** ** The properties above on the demo models *)

Lemma returned {A B} (p : outcome A * B) :
  is_Return p.1 = true → ∃ a, p = (Return a, p.2).
Proof. destruct p as [[a|e] b]; simpl; [eauto | discriminate]. Defined.

(** The loader fails for want of a file, and leaves the stranded model. *)
Lemma demo_loader_fails :
  finalize QModel.frozen None QModel.diag_init ∅ Demo.loader
    = (Raise IOError, Demo.stranded).
Proof.
  apply (pair_of_fst (finalize QModel.frozen None QModel.diag_init ∅ Demo.loader)).
  vm_compute. reflexivity.
Defined.

(** A numpy archive at the path of the loader, with new biases for the
    first layer. *)
Definition demo_archive : gmap string (file Q) :=
  {[ "out/dyn.mat" := NpzFile [("dyn/Layer0/FC_biases", T3 [[[5; 6]]; [[7; 8]]]%Q)] ]}.

Definition restored : NN Q :=
  (finalize QModel.frozen None QModel.diag_init demo_archive Demo.loader).2.

Lemma demo_loader_restores :
  finalize QModel.frozen None QModel.diag_init demo_archive Demo.loader
    = (Return tt, restored).
Proof.
  apply (pair_of_fst
           (finalize QModel.frozen None QModel.diag_init demo_archive Demo.loader)).
  vm_compute. reflexivity.
Defined.

Lemma finalize_sets_flag_on_return_witness :
  name Demo.stranded = name Demo.loader ∧
  model_dir Demo.stranded = model_dir Demo.loader ∧
  num_nets Demo.stranded = num_nets Demo.loader ∧
  model_loaded Demo.stranded = model_loaded Demo.loader ∧
  load_model_values Demo.stranded = load_model_values Demo.loader ∧
  map copy (layers Demo.stranded) = map copy (layers Demo.loader) ∧
  finalized Demo.stranded = finalized Demo.loader || is_Return (Raise (A:=unit) IOError).
Proof.
  exact (finalize_sets_flag_on_return QModel.frozen None QModel.diag_init ∅
           Demo.loader Demo.stranded (Raise IOError) demo_loader_fails).
Defined.

Lemma finalize_collects_witness :
  length (layers Demo.ready) = length (layers Demo.two_layers) ∧
  Forall (fun l => is_Some (weights l) ∧ is_Some (biases l)) (layers Demo.ready) ∧
  optvars Demo.ready = concat (map get_vars (layers Demo.ready)) ∧
  length (optvars Demo.ready) = 2 * length (layers Demo.two_layers) ∧
  decays Demo.ready = map decay_penalty (layers Demo.ready) ∧
  ∃ sc, scaler Demo.ready = Some sc ∧ nonoptvars Demo.ready = [mu sc; sigma sc].
Proof.
  exact (finalize_collects QModel.frozen None QModel.diag_init ∅
           Demo.two_layers Demo.ready demo_built demo_finalize_returns).
Defined.

Lemma finalize_restores_by_name_witness :
  ∃ data,
    demo_archive !! "out/dyn.mat" = Some (NpzFile data) ∧
    Forall (fun kv => ∃ sh v0, declared (sess restored) !! kv.1 = Some (sh, v0) ∧
                               has_shape sh kv.2 = true) data ∧
    (NoDup (map fst data) →
     Forall (fun kv => store (sess restored) !! kv.1 = Some kv.2) data).
Proof.
  apply (finalize_restores_by_name QModel.frozen None QModel.diag_init demo_archive
           Demo.loader restored "out/dyn.mat").
  - reflexivity.
  - reflexivity.
  - exact demo_loader_restores.
Defined.

Lemma finalize_reads_no_file_witness :
  finalize QModel.frozen None QModel.diag_init ∅ Demo.two_layers
    = finalize QModel.frozen None QModel.diag_init demo_archive Demo.two_layers.
Proof.
  apply (finalize_reads_no_file QModel.frozen None QModel.diag_init ∅ demo_archive
           Demo.two_layers); reflexivity.
Defined.

Lemma train_changes_only_session_witness :
  ∃ s, Demo.run1.2 = set_sess s Demo.ready.
Proof.
  exact (train_changes_only_session Demo.X Demo.Y 2 2 false (3 # 10) 5000 0%nat
           Demo.ready Demo.run1.2 (Return (Demo.log1, 4%nat)) run1_returns).
Defined.

Lemma progress_report_only_reads_witness :
  train Demo.X Demo.Y 2 2 true (3 # 10) 5000 0%nat Demo.ready
    = (Return (Demo.log1, 4%nat), Demo.run1.2).
Proof.
  exact (progress_report_only_reads Demo.X Demo.Y 2 2 (3 # 10) 5000 0%nat
           Demo.ready Demo.run1.2 Demo.log1 4%nat run1_returns).
Defined.

(** Two epochs with a batch size of [-2]: no batch is fed. *)
Lemma train_without_steps_witness :
  ∃ log g' m',
    train Demo.X Demo.Y (-2) 2 false (3 # 10) 5000 0%nat Demo.ready
      = (Return (log, g'), m') ∧
    Forall (fun e => epoch_batches e = []) (epochs_run log) ∧
    fit_scaler (fitted_on log) Demo.ready = (Return tt, m').
Proof.
  destruct (returned (train Demo.X Demo.Y (-2) 2 false (3 # 10) 5000 0%nat Demo.ready))
    as [[log g'] H]; [vm_compute; reflexivity|].
  eexists log, g', _. split; [exact H|].
  apply (train_without_steps Demo.X Demo.Y (-2) 2 false (3 # 10) 5000 0%nat
           Demo.ready _ log g'); [right; lia | exact H].
Defined.

Lemma zero_batch_size_fails_witness :
  is_Return (train Demo.X Demo.Y 0 2 false (3 # 10) 5000 0%nat Demo.ready).1 = false.
Proof.
  apply (zero_batch_size_fails Demo.X Demo.Y 2 false (3 # 10) 5000 0%nat Demo.ready).
  lia.
Defined.

(** Seven rows at ratio [-3/10]: the count is [-2], the last two entries
    of the permutation are retained and the five before them held out. *)
Lemma negative_holdout_counts_from_end_witness :
  ∃ log g' m',
    train Demo.X Demo.Y 2 1 true (- 3 # 10) 5000 0%nat Demo.ready
      = (Return (log, g'), m') ∧
    length (retained_rows log) = 2 ∧ length (holdout_rows log) = 5.
Proof.
  destruct (returned (train Demo.X Demo.Y 2 1 true (- 3 # 10) 5000 0%nat Demo.ready))
    as [[log g'] H]; [vm_compute; reflexivity|].
  eexists log, g', _. split; [exact H|].
  assert (Hneg : (num_holdout Demo.X (- 3 # 10) 5000 < 0)%Z) by (vm_compute; reflexivity).
  destruct (negative_holdout_counts_from_end Demo.X Demo.Y 2 1 true (- 3 # 10) 5000
              0%nat Demo.ready _ log g' Hneg H) as (H1 & H2 & _).
  split; [exact H1 | exact H2].
Defined.


Lemma shuffle_rows_permutes_witness :
  ∃ arr', shuffle_rows [[0; 1; 2]; [2; 0; 1]]
            [[1 # 2; 1 # 3; 1 # 4]; [1 # 5; 1 # 2; 1 # 3]]%Q = Return arr' ∧
          Forall2 Permutation arr' [[0; 1; 2]; [2; 0; 1]].
Proof.
  apply (shuffle_rows_permutes [[0; 1; 2]; [2; 0; 1]]
           [[1 # 2; 1 # 3; 1 # 4]; [1 # 5; 1 # 2; 1 # 3]]%Q 3).
  - reflexivity.
  - repeat constructor.
  - repeat constructor.
Defined.

(** The demo model of two networks on one batch of two rows for each. *)
Lemma predict_one_batch_per_member_witness :
  ∃ y O,
    model_output_dim Demo.ready = Some O ∧
    predict (T3 [[[1; 2]; [3; 5]]; [[0; 1]; [2; 2]]]%Q) false Demo.ready
      = Return (T3 y, None) ∧
    has_shape3 (num_nets Demo.ready) 2 O y = true ∧
    ∀ a xa, [[[1; 2]; [3; 5]]; [[0; 1]; [2; 2]]]%Q !! a = Some xa →
      ∃ fac, predict (T2 xa) true Demo.ready = Return (T3 fac, None) ∧
             fac !! a = y !! a.
Proof.
  apply (predict_one_batch_per_member Demo.ready
           [[[1; 2]; [3; 5]]; [[0; 1]; [2; 2]]]%Q 2 2 false demo_ready).
  - vm_compute. reflexivity.
  - vm_compute. reflexivity.
Defined.

Lemma finalize_makes_ready_witness :
  ready_model Demo.ready ∧ num_nets Demo.ready = num_nets Demo.two_layers ∧
  model_input_dim Demo.ready = model_input_dim Demo.two_layers ∧
  model_output_dim Demo.ready = model_output_dim Demo.two_layers.
Proof.
  exact (finalize_makes_ready QModel.frozen None QModel.diag_init ∅
           Demo.two_layers Demo.ready demo_built demo_finalize_returns).
Defined.


Lemma finalize_then_train_witness :
  ∃ log g' m'',
    train Demo.X Demo.Y 2 2 false (3 # 10) 5000 0%nat Demo.ready
      = (Return (log, g'), m'') ∧
    ready_model m'' ∧ step_returns m''.
Proof.
  apply (finalize_then_train QModel.frozen None QModel.diag_init ∅
           Demo.two_layers Demo.ready Demo.X Demo.Y 2 2 false (3 # 10) 5000 0%nat 2 1).
  - exact demo_built.
  - exact demo_finalize_returns.
  - exact demo_step_returns.
  - reflexivity.
  - reflexivity.
  - repeat constructor.
  - repeat constructor.
  - reflexivity.
  - lia.
  - vm_compute. split; [discriminate | reflexivity].
Defined.



Lemma predict_rejects_wrong_shape_witness :
  predict (T2 [[1; 2; 3]]%Q) false Demo.ready = Raise ValueError.
Proof.
  apply (predict_rejects_wrong_shape Demo.ready 2 (T2 [[1; 2; 3]]%Q) false demo_ready).
  - vm_compute. reflexivity.
  - apply Exists_cons_hd. simpl. lia.
Defined.
